(** * linsys.py: a linear system of hyperplanes and its Gaussian elimination

    Shallow embedding of [src/linsys.py] (class [LinearSystem]).

    - Python objects live in a store.  A [LinearSystem] holds a reference to
      a Python list of references to [Plane] objects, so [self.planes = planes]
      aliases the caller's list and [deepcopy] allocates new objects.
    - Methods are computations in a state-and-exception monad over the store;
      [while] loops take fuel, and running out of fuel is an outcome of its
      own, different from every Python exception.
    - Coefficients of the store-level embedding are exact rationals ([Qc],
      canonical fractions with Leibniz equality): the class run on
      [fractions.Fraction] coefficients, where [/] is exact, [round(x, 3)]
      rounds half to even and every comparison the code makes ([== 0],
      [!= 0], [> 0], [< 0]) is exact.
    - On [int] and [float] coefficients [/] rounds to binary64.  The module
      [PyNum] has Python's three kinds of number, [int], [float] and
      [Fraction], with their coercions and exceptions, and the two reducers
      on rows of such numbers; on fractions they compute what the
      store-level embedding computes.

    The definitions come first: the embedding of the class, the same loops
    on plain sequences of rows, the predicates the statements use, and the
    reducers on Python's numbers.  The lemmas follow: a small program logic
    for the monad, the refinement of the row-level loops by the methods,
    termination, the fixed-point property of reduced systems, and the
    agreement of the reducers on fractions with the row-level loops.  The
    claims come next, and the last part holds further properties of the row
    operations, the accessors and the two reducers. *)

From Stdlib Require Import ZArith QArith Qcanon Qcabs Lia String List.
From Stdlib Require DecimalString.
From Stdlib Require PrimFloat SpecFloat FloatOps.
From stdpp Require Import base tactics option list numbers.
Import ListNotations.

Open Scope Z_scope.

(** ** Numbers *)

Definition Qc_of_Z (z : Z) : Qc := Q2Qc (inject_Z z).

Definition is_zero (x : Qc) : bool := bool_decide (x = Q2Qc 0).
Definition is_pos (x : Qc) : bool := bool_decide (Q2Qc 0 < x)%Qc.
Definition is_neg (x : Qc) : bool := bool_decide (x < Q2Qc 0)%Qc.

(** [round(x, 3)]: nearest multiple of 1/1000, ties to the even one.
    The numerator of [x * 1000] is split by the denominator. *)
Definition round_half_even (q : Q) : Z :=
  let n := Qnum q in
  let d := Zpos (Qden q) in
  let fl := n / d in
  let r := n mod d in
  match 2 * r ?= d with
  | Lt => fl
  | Gt => fl + 1
  | Eq => if Z.even fl then fl else fl + 1
  end.

Definition round3 (x : Qc) : Qc :=
  Q2Qc (Qmake (round_half_even (Qmult (this x) (inject_Z 1000))) 1000).

(** ** Python exceptions and outcomes *)

Inductive exn : Type :=
  | AssertionError
  | IndexError
  | TypeError
  | ZeroDivisionError
  | NoNonZeroElements (msg : string)
  | Exception (msg : string).

Inductive outcome (A : Type) : Type :=
  | Ret (a : A)
  | Raise (e : exn)
  | OutOfFuel.
Arguments Ret {A} a.
Arguments Raise {A} e.
Arguments OutOfFuel {A}.

(** ** The store *)

Abbreviation loc := nat.

(** Modelled from the spec: the [Plane] class of [plane.py] is not part of
    the sources.  The spec describes a hyperplane as coefficients exposed as
    an indexable sequence of length [dimension] plus a constant term. *)
Record Plane : Type := mkPlane {
  normal_vector : list Qc;
  constant_term : Qc
}.

(** Modelled from the spec: the attribute [dimension] of a plane is the
    length of its coefficient sequence. *)
Definition plane_dimension (p : Plane) : Z := Z.of_nat (length (normal_vector p)).

Inductive obj : Type :=
  | OPlane (p : Plane)
  | OList (l : list loc).

Abbreviation heap := (list obj).

(** A [LinearSystem] instance: its two attributes. *)
Record LinearSystem : Type := mkSystem {
  planes : loc;
  dimension : Z
}.

Definition SAME_DIM_MSG : string :=
  "All planes in the system should live in the same dimension".
Definition NO_SOLUTIONS_MSG : string := "No solutions".
Definition INF_SOLUTIONS_MSG : string := "Infinitely many solutions".

(** ** The monad *)

Definition M (A : Type) : Type := heap -> heap * outcome A.

Definition ret {A} (a : A) : M A := fun h => (h, Ret a).
Definition raise {A} (e : exn) : M A := fun h => (h, Raise e).
Definition out_of_fuel {A} : M A := fun h => (h, OutOfFuel).

Definition bind {A B} (m : M A) (k : A -> M B) : M B :=
  fun h =>
    match m h with
    | (h', Ret a) => k a h'
    | (h', Raise e) => (h', Raise e)
    | (h', OutOfFuel) => (h', OutOfFuel)
    end.

Declare Scope py_scope.
Delimit Scope py_scope with py.
Notation "'let*' x ':=' m 'in' k" := (bind m (fun x => k))
  (at level 10, x pattern, m at level 100, k at level 200) : py_scope.
Notation "m ';;' k" := (bind m (fun _ => k))
  (at level 100, k at level 200, right associativity) : py_scope.
Open Scope py_scope.

(** [try: body except AssertionError: handler] *)
Definition try_except_AssertionError {A} (body handler : M A) : M A :=
  fun h =>
    match body h with
    | (h', Raise AssertionError) => handler h'
    | r => r
    end.

(** [assert b] *)
Definition py_assert (b : bool) : M unit :=
  if b then ret tt else raise AssertionError.

(** [for x in xs: body], threading the loop-carried variables [s]. *)
Fixpoint for_each {A S} (xs : list A) (body : A -> S -> M S) (s : S) : M S :=
  match xs with
  | [] => ret s
  | x :: xs' => let* s' := body x s in for_each xs' body s'
  end.

(** [range(a, b)] *)
Definition range (a b : Z) : list Z :=
  map (fun i => a + Z.of_nat i) (seq 0 (Z.to_nat (b - a))).

(** [range(a, b, -1)] *)
Definition range_down (a b : Z) : list Z :=
  map (fun i => a - Z.of_nat i) (seq 0 (Z.to_nat (a - b))).

(** Python sequence indexing: a negative index counts from the end. *)
Definition py_index (size : nat) (i : Z) : option nat :=
  if (0 <=? i) && (i <? Z.of_nat size) then Some (Z.to_nat i)
  else if (- Z.of_nat size <=? i) && (i <? 0) then Some (Z.to_nat (Z.of_nat size + i))
  else None.

(** ** Store primitives *)

Definition alloc (o : obj) : M loc :=
  fun h => (h ++ [o], Ret (length h)).

Definition get_list (l : loc) : M (list loc) :=
  fun h =>
    match h !! l with
    | Some (OList ls) => (h, Ret ls)
    | _ => (h, Raise TypeError)
    end.

Definition get_plane (l : loc) : M Plane :=
  fun h =>
    match h !! l with
    | Some (OPlane p) => (h, Ret p)
    | _ => (h, Raise TypeError)
    end.

(** [lst[i]] *)
Definition list_getitem (lst : loc) (i : Z) : M loc :=
  let* ls := get_list lst in
  match py_index (length ls) i with
  | Some n =>
      match ls !! n with
      | Some x => ret x
      | None => raise IndexError
      end
  | None => raise IndexError
  end.

(** [lst[i] = v] *)
Definition list_setitem (lst : loc) (i : Z) (v : loc) : M unit :=
  let* ls := get_list lst in
  match py_index (length ls) i with
  | Some n => fun h => (<[lst := OList (<[n := v]> ls)]> h, Ret tt)
  | None => raise IndexError
  end.

(** [len(lst)] *)
Definition list_len (lst : loc) : M Z :=
  let* ls := get_list lst in ret (Z.of_nat (length ls)).

(** [a / b] on fractions: the exact quotient, [ZeroDivisionError] for a
    zero divisor.  On [int] and [float] operands [/] rounds; that division
    is [PyNum.truediv]. *)
Definition py_div (a b : Qc) : M Qc :=
  if is_zero b then raise ZeroDivisionError else ret (a / b)%Qc.

(** ** The hyperplane collaborator *)

(** [Plane.__mul__], [__add__], [__sub__] and [__getitem__] are not part of
    the sources.  The spec asks for scalar multiplication, addition and
    subtraction of hyperplanes of equal dimension, and index access to the
    coefficients; each arithmetic operation builds a new object and leaves
    its operands alone. *)

(** Modelled from the spec: scalar multiplication of a hyperplane, on every
    coefficient and on the constant term. *)
Definition plane_scale (p : Plane) (c : Qc) : Plane :=
  mkPlane (map (fun x => x * c)%Qc (normal_vector p)) (constant_term p * c)%Qc.

(** Modelled from the spec: addition of two hyperplanes, coefficient by
    coefficient and on the constant terms. *)
Definition plane_plus (p q : Plane) : Plane :=
  mkPlane (zip_with Qcplus (normal_vector p) (normal_vector q))
          (constant_term p + constant_term q)%Qc.

(** Modelled from the spec: subtraction of two hyperplanes, coefficient by
    coefficient and on the constant terms. *)
Definition plane_minus (p q : Plane) : Plane :=
  mkPlane (zip_with Qcminus (normal_vector p) (normal_vector q))
          (constant_term p - constant_term q)%Qc.

(** Modelled from the spec: [plane.dimension]. *)
Definition dimension_of (l : loc) : M Z :=
  let* p := get_plane l in ret (plane_dimension p).

(** Modelled from the spec: [plane[i]], index access to the coefficients. *)
Definition plane_getitem (l : loc) (i : Z) : M Qc :=
  let* p := get_plane l in
  match py_index (length (normal_vector p)) i with
  | Some n =>
      match normal_vector p !! n with
      | Some x => ret x
      | None => raise IndexError
      end
  | None => raise IndexError
  end.

(** Modelled from the spec: [plane * c], a new object. *)
Definition plane_mul (l : loc) (c : Qc) : M loc :=
  let* p := get_plane l in alloc (OPlane (plane_scale p c)).

(** Modelled from the spec: [plane_1 + plane_2], a new object. *)
Definition plane_add (l1 l2 : loc) : M loc :=
  let* p := get_plane l1 in
  let* q := get_plane l2 in
  alloc (OPlane (plane_plus p q)).

(** Modelled from the spec: [plane_1 - plane_2], a new object. *)
Definition plane_sub (l1 l2 : loc) : M loc :=
  let* p := get_plane l1 in
  let* q := get_plane l2 in
  alloc (OPlane (plane_minus p q)).

(** ** [copy.deepcopy]

    Every object reachable from the system is copied once; the memo maps an
    object already copied to its copy, so two entries of the list that are
    one object stay one object in the copy. *)
Abbreviation memo := (list (nat * nat)).

Fixpoint memo_find (m : memo) (l : loc) : option loc :=
  match m with
  | [] => None
  | (k, v) :: m' => if Nat.eqb k l then Some v else memo_find m' l
  end.

Definition deepcopy_plane (l : loc) (s : memo * list loc) : M (memo * list loc) :=
  let '(m, acc) := s in
  match memo_find m l with
  | Some l' => ret (m, acc ++ [l'])
  | None =>
      let* p := get_plane l in
      let* l' := alloc (OPlane p) in
      ret ((l, l') :: m, acc ++ [l'])
  end.

Definition deepcopy (self : LinearSystem) : M LinearSystem :=
  let* ls := get_list (planes self) in
  let* r := for_each ls deepcopy_plane ([], []) in
  let* lst := alloc (OList (snd r)) in
  ret (mkSystem lst (dimension self)).

(** ** [while] loops *)

Inductive ctl (S : Type) : Type :=
  | Continue (s : S)
  | Break (s : S).
Arguments Continue {S} s.
Arguments Break {S} s.

(** [while cond: body]; the body says whether it reached [break]. *)
Fixpoint while_loop {S} (fuel : nat) (cond : S -> bool) (body : S -> M (ctl S))
    (s : S) : M S :=
  match fuel with
  | O => out_of_fuel
  | Datatypes.S fuel' =>
      if cond s then
        let* c := body s in
        match c with
        | Continue s' => while_loop fuel' cond body s'
        | Break s' => ret s'
        end
      else ret s
  end.

(** ** class LinearSystem *)

(** [LinearSystem.__init__(self, planes)] *)
Definition __init__ (planes : loc) : M LinearSystem :=
  try_except_AssertionError
    (let* first := list_getitem planes 0 in
     let* dim := dimension_of first in
     let* ls := get_list planes in
     for_each ls (fun plane _ =>
                    let* d := dimension_of plane in py_assert (d =? dim)) tt;;
     ret (mkSystem planes dim))
    (raise (Exception SAME_DIM_MSG)).

(** [swap_rows(self, index_1, index_2)] *)
Definition swap_rows (self : LinearSystem) (index_1 index_2 : Z) : M unit :=
  let* row_1 := list_getitem (planes self) index_1 in
  let* row_2 := list_getitem (planes self) index_2 in
  list_setitem (planes self) index_1 row_2;;
  list_setitem (planes self) index_2 row_1.

(** [multiply_coefficient_and_row(self, coefficient, row)] *)
Definition multiply_coefficient_and_row (self : LinearSystem) (coefficient : Qc)
    (row : Z) : M unit :=
  let* plane := list_getitem (planes self) row in
  let* plane := plane_mul plane coefficient in
  list_setitem (planes self) row plane.

(** [add_multiple_times_row_to_row(self, coefficient, row_to_add, row_to_be_added_to)] *)
Definition add_multiple_times_row_to_row (self : LinearSystem) (coefficient : Qc)
    (row_to_add row_to_be_added_to : Z) : M unit :=
  let* plane := list_getitem (planes self) row_to_add in
  let* plane := plane_mul plane coefficient in
  let* target := list_getitem (planes self) row_to_be_added_to in
  let* sum := plane_add target plane in
  list_setitem (planes self) row_to_be_added_to sum.

(** [__len__] *)
Definition __len__ (self : LinearSystem) : M Z := list_len (planes self).

(** [__getitem__] *)
Definition __getitem__ (self : LinearSystem) (index : Z) : M loc :=
  list_getitem (planes self) index.

(** [__setitem__] *)
Definition __setitem__ (self : LinearSystem) (index : Z) (plane : loc) : M unit :=
  try_except_AssertionError
    (let* d := dimension_of plane in
     py_assert (d =? dimension self);;
     list_setitem (planes self) index plane)
    (raise (Exception SAME_DIM_MSG)).

(** *** [get_first_nonzero_indexes] *)

(** [try: body except NoNonZeroElements as err: handler(str(err))] *)
Definition try_except_NoNonZeroElements {A} (body : M A) (handler : string -> M A)
    : M A :=
  fun h =>
    match body h with
    | (h', Raise (NoNonZeroElements msg)) => handler msg h'
    | r => r
    end.

(** [indices[i] = k] on the local list of integers. *)
Definition indices_setitem (indices : list Z) (i : nat) (k : Z) : M (list Z) :=
  if (i <? length indices)%nat then ret (<[i := k]> indices) else raise IndexError.

(** [enumerate(xs)] *)
Definition enumerate {A} (xs : list A) : list (nat * A) :=
  combine (seq 0 (length xs)) xs.

Section PivotScan.
(** [plane.py] and [nonzero.py] are not part of the sources: the message
    constant and the method [Plane.first_nonzero_index] are parameters.
    The method either returns an index or raises. *)
Variable NO_NONZERO_ELTS_FOUND_MSG : string.
Variable first_nonzero_index : Plane -> list Qc -> exn + Z.

(** [plane.first_nonzero_index(plane.normal_vector)] *)
Definition call_first_nonzero_index (plane : loc) : M Z :=
  let* p := get_plane plane in
  match first_nonzero_index p (normal_vector p) with
  | inl e => raise e
  | inr k => ret k
  end.

(** Lines 57-63: the body of the loop for the pair [(i, plane)]. *)
Definition scan_body (ip : nat * loc) (indices : list Z) : M (list Z) :=
  try_except_NoNonZeroElements
    (let* k := call_first_nonzero_index (snd ip) in
     indices_setitem indices (fst ip) k)
    (fun msg =>
       if String.eqb msg NO_NONZERO_ELTS_FOUND_MSG
       then ret indices
       else raise (NoNonZeroElements msg)).

(** [get_first_nonzero_indexes(self)] *)
Definition get_first_nonzero_indexes (self : LinearSystem) : M (list Z) :=
  let* num_equations := __len__ self in
  let indices := replicate (Z.to_nat num_equations) (-1) in
  let* ls := get_list (planes self) in
  for_each (enumerate ls) scan_body indices.
End PivotScan.

(** [self.planes[row][dim]] *)
Definition coefficient_at (self : LinearSystem) (row dim : Z) : M Qc :=
  let* plane := list_getitem (planes self) row in
  plane_getitem plane dim.

(** *** [compute_triangular_form] *)

(** Lines 99-103: the search for a row to swap in. *)
Definition swap_search (triangular : LinearSystem) (rows row dim : Z) : M bool :=
  for_each (range (row + 1) (rows - 1))
    (fun next_row swap =>
       let* c := coefficient_at triangular next_row dim in
       if is_pos c then
         swap_rows triangular row next_row;;
         ret true
       else ret swap)
    false.

(** Lines 108-115: the current row clears the rows below it. *)
Definition clear_below (triangular : LinearSystem) (rows row dim : Z)
    (coefficient : Qc) : M unit :=
  for_each (range (row + 1) rows)
    (fun next_row _ =>
       let* coefficient_remove := coefficient_at triangular next_row dim in
       if negb (is_zero coefficient_remove) then
         let* q := py_div coefficient_remove coefficient in
         let factor := (q * Qc_of_Z (-1))%Qc in
         let* cur := list_getitem (planes triangular) row in
         let* reduction_plane := plane_mul cur factor in
         let* nxt := list_getitem (planes triangular) next_row in
         let* sum := plane_add nxt reduction_plane in
         list_setitem (planes triangular) next_row sum
       else ret tt)
    tt.

(** Lines 96-117: one turn of [while dim < dims]. *)
Definition triangular_body (triangular : LinearSystem) (rows row : Z)
    (dim : Z) : M (ctl Z) :=
  let* coefficient := coefficient_at triangular row dim in
  if is_zero coefficient then
    let* swap := swap_search triangular rows row dim in
    if negb swap then ret (Continue (dim + 1)) else ret (Continue dim)
  else
    clear_below triangular rows row dim coefficient;;
    ret (Break dim).

Definition triangular_loops (fuel : nat) (triangular : LinearSystem)
    (rows dims : Z) : M Z :=
  for_each (range 0 (rows - 1))
    (fun row dim =>
       while_loop fuel (fun dim => dim <? dims)
         (triangular_body triangular rows row) dim)
    0.

Definition compute_triangular_form (fuel : nat) (self : LinearSystem)
    : M LinearSystem :=
  let* triangular := deepcopy self in
  let* rows := list_len (planes triangular) in
  let dims := dimension triangular in
  triangular_loops fuel triangular rows dims;;
  ret triangular.

(** *** [compute_rref_form] *)

(** Lines 139-158: the rows under the current one cancel its coefficient. *)
Definition rref_cancel (rref : LinearSystem) (rows row dim : Z)
    (coefficient : Qc) : M unit :=
  for_each (range row (rows - 1))
    (fun range_index _ =>
       let under_row := range_index + 1 in
       let* u := coefficient_at rref under_row dim in
       let under_coeff := round3 u in
       if negb (is_zero under_coeff) then
         let positive := is_neg coefficient in
         let* sub_factor := py_div (Qcabs coefficient) under_coeff in
         let* under := list_getitem (planes rref) under_row in
         let* reduction_plane := plane_mul under sub_factor in
         let* new :=
           if positive then
             let* cur := list_getitem (planes rref) row in
             plane_add cur reduction_plane
           else
             let* cur := list_getitem (planes rref) row in
             plane_sub cur reduction_plane in
         list_setitem (planes rref) row new
       else ret tt)
    tt.

(** Lines 136-161: one turn of the first [while dim > -1]. *)
Definition rref_body (rref : LinearSystem) (rows row : Z) (dim : Z) : M (ctl Z) :=
  let* coefficient := coefficient_at rref row dim in
  (if negb (is_zero coefficient) then
     rref_cancel rref rows row dim coefficient
   else ret tt);;
  ret (Continue (dim - 1)).

(** Lines 134-163; the cursor is set back to [dims] after every row. *)
Definition rref_backward (fuel : nat) (rref : LinearSystem) (rows dims : Z) : M Z :=
  for_each (range_down (rows - 1) (-1))
    (fun row dim =>
       while_loop fuel (fun dim => -1 <? dim) (rref_body rref rows row) dim;;
       ret dims)
    dims.

(** Lines 169-174: one turn of the second [while dim > -1]. *)
Definition normalise_body (rref : LinearSystem) (row : Z) (dim : Z) : M (ctl Z) :=
  let* coefficient := coefficient_at rref row dim in
  (if negb (is_zero coefficient) then
     let* sub_factor := py_div (Qc_of_Z 1) coefficient in
     let* cur := list_getitem (planes rref) row in
     let* scaled := plane_mul cur sub_factor in
     list_setitem (planes rref) row scaled
   else ret tt);;
  ret (Continue (dim - 1)).

(** Lines 166-174; the cursor is whatever the previous row left. *)
Definition rref_normalise (fuel : nat) (rref : LinearSystem) (rows : Z)
    (dim : Z) : M Z :=
  for_each (range_down (rows - 1) (-1))
    (fun row dim =>
       while_loop fuel (fun dim => -1 <? dim) (normalise_body rref row) dim)
    dim.

Definition compute_rref_form (fuel : nat) (self : LinearSystem) : M LinearSystem :=
  let* triangular := compute_triangular_form fuel self in
  let* rref := deepcopy triangular in
  let* rows := list_len (planes rref) in
  let dims := dimension rref - 1 in
  let* dim := rref_backward fuel rref rows dims in
  let* rows := list_len (planes rref) in
  rref_normalise fuel rref rows dim;;
  ret rref.

(** ** Row-level view of the reducers

    The loops of [compute_triangular_form] and [compute_rref_form] only read
    and replace entries of the copy's list.  The functions below are the same
    loops on the sequence of rows itself; the refinement lemmas further down
    show that the methods compute them on the store. *)

Definition row_at (rs : list Plane) (i : Z) : Plane :=
  nth (Z.to_nat i) rs (mkPlane [] (Q2Qc 0)).

Definition coef (rs : list Plane) (i j : Z) : Qc :=
  nth (Z.to_nat j) (normal_vector (row_at rs i)) (Q2Qc 0).

Definition set_row (rs : list Plane) (i : Z) (p : Plane) : list Plane :=
  <[Z.to_nat i := p]> rs.

Fixpoint p_for {A S} (xs : list A) (body : A -> S -> option S) (s : S) : option S :=
  match xs with
  | [] => Some s
  | x :: xs' =>
      match body x s with
      | Some s' => p_for xs' body s'
      | None => None
      end
  end.

Fixpoint p_while {S} (fuel : nat) (cond : S -> bool) (body : S -> ctl S) (s : S)
    : option S :=
  match fuel with
  | O => None
  | Datatypes.S fuel' =>
      if cond s then
        match body s with
        | Continue s' => p_while fuel' cond body s'
        | Break s' => Some s'
        end
      else Some s
  end.

Definition swap_rows_rows (rs : list Plane) (i j : Z) : list Plane :=
  set_row (set_row rs i (row_at rs j)) j (row_at rs i).

Definition swap_search_step (row dim next_row : Z) (s : bool * list Plane)
    : bool * list Plane :=
  if is_pos (coef (snd s) next_row dim)
  then (true, swap_rows_rows (snd s) row next_row)
  else s.

Definition swap_search_rows (rows row dim : Z) (rs : list Plane) : bool * list Plane :=
  fold_left (fun s next_row => swap_search_step row dim next_row s)
    (range (row + 1) (rows - 1)) (false, rs).

Definition clear_step (row dim : Z) (coefficient : Qc) (next_row : Z)
    (rs : list Plane) : list Plane :=
  let coefficient_remove := coef rs next_row dim in
  if negb (is_zero coefficient_remove) then
    let factor := (coefficient_remove / coefficient * Qc_of_Z (-1))%Qc in
    set_row rs next_row
      (plane_plus (row_at rs next_row) (plane_scale (row_at rs row) factor))
  else rs.

Definition clear_below_rows (rows row dim : Z) (coefficient : Qc)
    (rs : list Plane) : list Plane :=
  fold_left (fun rs next_row => clear_step row dim coefficient next_row rs)
    (range (row + 1) rows) rs.

Definition triangular_body_rows (rows row : Z) (s : Z * list Plane)
    : ctl (Z * list Plane) :=
  let dim := fst s in
  let coefficient := coef (snd s) row dim in
  if is_zero coefficient then
    let r := swap_search_rows rows row dim (snd s) in
    if negb (fst r) then Continue (dim + 1, snd r) else Continue (dim, snd r)
  else Break (dim, clear_below_rows rows row dim coefficient (snd s)).

Definition triangular_rows (fuel : nat) (rows dims : Z) (rs : list Plane)
    : option (Z * list Plane) :=
  p_for (range 0 (rows - 1))
    (fun row s =>
       p_while fuel (fun s => fst s <? dims) (triangular_body_rows rows row) s)
    (0, rs).

Definition compute_triangular_form_rows (fuel : nat) (dims : Z) (rs : list Plane)
    : option (list Plane) :=
  match triangular_rows fuel (Z.of_nat (length rs)) dims rs with
  | Some s => Some (snd s)
  | None => None
  end.

Definition rref_cancel_step (row dim : Z) (coefficient : Qc) (range_index : Z)
    (rs : list Plane) : list Plane :=
  let under_row := range_index + 1 in
  let under_coeff := round3 (coef rs under_row dim) in
  if negb (is_zero under_coeff) then
    let sub_factor := (Qcabs coefficient / under_coeff)%Qc in
    let reduction_plane := plane_scale (row_at rs under_row) sub_factor in
    set_row rs row
      (if is_neg coefficient
       then plane_plus (row_at rs row) reduction_plane
       else plane_minus (row_at rs row) reduction_plane)
  else rs.

Definition rref_cancel_rows (rows row dim : Z) (coefficient : Qc)
    (rs : list Plane) : list Plane :=
  fold_left (fun rs range_index => rref_cancel_step row dim coefficient range_index rs)
    (range row (rows - 1)) rs.

Definition rref_body_rows (rows row : Z) (s : Z * list Plane) : ctl (Z * list Plane) :=
  let dim := fst s in
  let coefficient := coef (snd s) row dim in
  Continue (dim - 1,
            if negb (is_zero coefficient)
            then rref_cancel_rows rows row dim coefficient (snd s)
            else snd s).

Definition rref_backward_rows (fuel : nat) (rows dims : Z) (rs : list Plane)
    : option (Z * list Plane) :=
  p_for (range_down (rows - 1) (-1))
    (fun row s =>
       match p_while fuel (fun s => -1 <? fst s) (rref_body_rows rows row) s with
       | Some s' => Some (dims, snd s')
       | None => None
       end)
    (dims, rs).

Definition normalise_body_rows (row : Z) (s : Z * list Plane) : ctl (Z * list Plane) :=
  let dim := fst s in
  let coefficient := coef (snd s) row dim in
  Continue (dim - 1,
            if negb (is_zero coefficient)
            then set_row (snd s) row
                   (plane_scale (row_at (snd s) row) (Qc_of_Z 1 / coefficient)%Qc)
            else snd s).

Definition rref_normalise_rows (fuel : nat) (rows dim : Z) (rs : list Plane)
    : option (Z * list Plane) :=
  p_for (range_down (rows - 1) (-1))
    (fun row s => p_while fuel (fun s => -1 <? fst s) (normalise_body_rows row) s)
    (dim, rs).

Definition compute_rref_form_rows (fuel : nat) (dims : Z) (rs : list Plane)
    : option (list Plane) :=
  match compute_triangular_form_rows fuel dims rs with
  | Some tri =>
      match rref_backward_rows fuel (Z.of_nat (length tri)) (dims - 1) tri with
      | Some s =>
          match rref_normalise_rows fuel (Z.of_nat (length (snd s))) (fst s) (snd s) with
          | Some s' => Some (snd s')
          | None => None
          end
      | None => None
      end
  | None => None
  end.

(** ** Predicates on the store *)

Definition is_plane (h : heap) (l : loc) (p : Plane) : Prop :=
  h !! l = Some (OPlane p).

(** The list at [lst] holds references to plane objects whose values are [rs]. *)
Definition rows_in (h : heap) (lst : loc) (rs : list Plane) : Prop :=
  exists ls, h !! lst = Some (OList ls) /\ Forall2 (is_plane h) ls rs.

(** Every row lives in dimension [d]. *)
Definition same_dimension (d : Z) (rs : list Plane) : Prop :=
  Forall (fun p => plane_dimension p = d) rs.

(** [rs] has [rows] rows, all in dimension [d]. *)
Definition ok (rows d : Z) (rs : list Plane) : Prop :=
  Z.of_nat (length rs) = rows /\ same_dimension d rs.

(** A system as [__init__] leaves it: rows of one dimension, which the
    [dimension] attribute records. *)
Definition system_ok (h : heap) (s : LinearSystem) (rs : list Plane) : Prop :=
  rows_in h (planes s) rs /\ same_dimension (dimension s) rs.

(** The working copy: the list at [lst] and the planes it refers to were all
    allocated after the first [n] objects of the store. *)
Definition work (n : nat) (lst : loc) (h : heap) (rs : list Plane) : Prop :=
  (n <= lst)%nat /\
  exists ls, h !! lst = Some (OList ls) /\
             Forall2 (fun l p => is_plane h l p /\ (n <= l)%nat) ls rs.

(** [h'] extends [h]: it may be longer and differ at the list [lst] only. *)
Definition ext (lst : loc) (h h' : heap) : Prop :=
  (length h <= length h')%nat /\
  forall l, l <> lst -> (l < length h)%nat -> h' !! l = h !! l.

(** The system [t] in the store [h'] shares nothing with the store [h] it was
    computed from: its list and every plane in it are objects that [h] does
    not have. *)
Definition fresh_copy (h h' : heap) (t : LinearSystem) : Prop :=
  (length h <= planes t)%nat /\
  exists ls, h' !! planes t = Some (OList ls) /\
             Forall (fun l => (length h <= l)%nat /\ exists p, is_plane h' l p) ls.

(** What [deepcopy] has recorded so far: every copy is a new object holding
    the value of the object it copies. *)
Definition memo_ok (h0 hc : heap) (m : memo) : Prop :=
  forall k v, memo_find m k = Some v ->
    (length h0 <= v)%nat /\ forall p, is_plane h0 k p -> is_plane hc v p.

(** ** Running a method *)

(** Weakest precondition for normal termination. *)
Definition wp {A} (m : M A) (Q : A -> heap -> Prop) (h : heap) : Prop :=
  match m h with
  | (h', Ret a) => Q a h'
  | _ => False
  end.

(** [m] leaves the first [n] objects of the store alone and removes nothing,
    whatever its outcome. *)
Definition keeps {A} (n : nat) (m : M A) : Prop :=
  forall h, (n <= length h)%nat ->
    take n (fst (m h)) = take n h /\ (length h <= length (fst (m h)))%nat.

(** [m], started on a working copy holding [rs], returns [a] and leaves the
    working copy holding [rs']. *)
Definition refines {A} (n : nat) (lst : loc) (m : M A) (rs : list Plane)
    (a : A) (rs' : list Plane) : Prop :=
  forall h, work n lst h rs ->
    wp m (fun a' h' => a' = a /\ work n lst h' rs' /\ ext lst h h') h.

(** ** What the pivot scan returns *)

(** Index of the first nonzero entry, if there is one. *)
Fixpoint first_nonzero (xs : list Qc) : option nat :=
  match xs with
  | [] => None
  | x :: xs' =>
      if is_zero x then
        match first_nonzero xs' with
        | Some k => Some (S k)
        | None => None
        end
      else Some 0%nat
  end.

(** Modelled from the spec: [Plane.first_nonzero_index] is not part of the
    sources.  The spec describes a first-nonzero-index query with a
    distinguishable "no nonzero elements" signal. *)
Definition first_nonzero_index_model (msg : string) (_ : Plane) (iterable : list Qc)
    : exn + Z :=
  match first_nonzero iterable with
  | Some k => inr (Z.of_nat k)
  | None => inl (NoNonZeroElements msg)
  end.

Definition pivot (p : Plane) : option nat := first_nonzero (normal_vector p).

(** The entry of the scan for one row: the pivot index or the sentinel. *)
Definition pivot_index (p : Plane) : Z :=
  match pivot p with
  | Some k => Z.of_nat k
  | None => -1
  end.

(** The collaborator answers with an index or with the no-nonzero signal. *)
Definition quiet (msg : string) (fni : Plane -> list Qc -> exn + Z) (p : Plane) : Prop :=
  (exists k, fni p (normal_vector p) = inr k)
  \/ fni p (normal_vector p) = inl (NoNonZeroElements msg).

(** The entry the scan keeps for a row the collaborator is quiet on. *)
Definition entry_of (fni : Plane -> list Qc -> exn + Z) (p : Plane) : Z :=
  match fni p (normal_vector p) with
  | inr k => k
  | inl _ => -1
  end.

(** ** Progress of the cursor loop *)

(** One turn of the cursor loop of the triangular reducer either leaves the
    loop, or advances the cursor, or keeps the cursor after a swap that makes
    the next turn leave the loop. *)
Definition turn_makes_progress (rows row : Z) (s : Z * list Plane) : Prop :=
  match triangular_body_rows rows row s with
  | Break _ => True
  | Continue s' =>
      fst s' = fst s + 1
      \/ (fst s' = fst s
          /\ exists s'', triangular_body_rows rows row s' = Break s'')
  end.

(** Turns the cursor loop of the triangular reducer may still need. *)
Definition triangular_measure (d row : Z) (s : Z * list Plane) : nat :=
  if d <=? fst s then 0%nat
  else if is_zero (coef (snd s) row (fst s)) then Z.to_nat (d - fst s + 1)
  else 1%nat.

(** ** Reduced row-echelon form *)

(** The pivot of the row is 1. *)
Definition leading_one (p : Plane) : bool :=
  match pivot p with
  | Some k => bool_decide (normal_vector p !! k = Some (Q2Qc 1))
  | None => true
  end.

(** [q] may sit below [p]: if [q] has a pivot, [p] has one strictly to its left. *)
Definition echelon_pair (p q : Plane) : bool :=
  match pivot q with
  | Some kq =>
      match pivot p with
      | Some kp => (kp <? kq)%nat
      | None => false
      end
  | None => true
  end.

(** The pivot column of [p] is zero in [q]. *)
Definition clear_pair (p q : Plane) : bool :=
  match pivot p with
  | Some k => bool_decide (normal_vector q !! k = Some (Q2Qc 0))
  | None => true
  end.

Definition rref_pair (rs : list Plane) (i j : nat) : bool :=
  match rs !! i, rs !! j with
  | Some p, Some q =>
      (if (i <? j)%nat then echelon_pair p q else true)
      && (if (i =? j)%nat then true else clear_pair p q)
  | _, _ => true
  end.

Definition is_rref (rs : list Plane) : bool :=
  forallb leading_one rs
  && forallb (fun i => forallb (rref_pair rs i) (seq 0 (length rs)))
       (seq 0 (length rs)).

(** ** Reduced row-echelon form, coefficient by coefficient *)

(** Row [i] has its pivot in column [k]. *)
Definition lead (rs : list Plane) (i k : Z) : Prop :=
  0 <= k /\ coef rs i k <> Q2Qc 0 /\ forall c, 0 <= c < k -> coef rs i c = Q2Qc 0.

(** What [is_rref] says about the coefficients. *)
Record rref_facts (rows d : Z) (rs : list Plane) : Prop := mk_rref_facts {
  rf_ok : ok rows d rs;
  rf_lead : forall i c, 0 <= i < rows -> 0 <= c ->
      coef rs i c <> Q2Qc 0 -> exists k, k <= c /\ lead rs i k;
  rf_one : forall i k, 0 <= i < rows -> lead rs i k -> coef rs i k = Q2Qc 1;
  rf_order : forall i j kj, 0 <= i < j -> j < rows -> lead rs j kj ->
      exists ki, lead rs i ki /\ ki < kj;
  rf_clear : forall i j k, 0 <= i < rows -> 0 <= j < rows -> i <> j ->
      lead rs i k -> coef rs j k = Q2Qc 0
}.

(** Every row from [row] on is zero to the left of the cursor. *)
Definition left_clear (rows : Z) (rs : list Plane) (row dim : Z) : Prop :=
  forall r c, row <= r < rows -> 0 <= c < dim -> coef rs r c = Q2Qc 0.

(** Weighted sum of the entries [xs] with the weights [ws]. *)
Fixpoint wsum (ws xs : list Qc) : Qc :=
  match ws, xs with
  | w :: ws', x :: xs' => (w * x + wsum ws' xs')%Qc
  | _, _ => Q2Qc 0
  end.

Definition column (rs : list Plane) (c : Z) : list Qc :=
  map (fun p => nth (Z.to_nat c) (normal_vector p) (Q2Qc 0)) rs.

Definition constants (rs : list Plane) : list Qc := map constant_term rs.

Definition weight (ws : list Qc) (j : Z) : Qc := nth (Z.to_nat j) ws (Q2Qc 0).

(** [cur] is row [row] of [rs] plus the rows of [rs] weighted by [ws]. *)
Definition combination (d : Z) (rs : list Plane) (row : Z) (ws : list Qc)
    (cur : Plane) : Prop :=
  plane_dimension cur = d
  /\ length ws = length rs
  /\ (forall c, 0 <= c < d ->
        nth (Z.to_nat c) (normal_vector cur) (Q2Qc 0)
        = (coef rs row c + wsum ws (column rs c))%Qc)
  /\ constant_term cur
     = (constant_term (row_at rs row) + wsum ws (constants rs))%Qc.

(** State of the backward pass on row [row] before the cursor visits [dim]:
    the row is the original one plus rows below it whose pivots the cursor
    has not passed yet. *)
Definition backward_inv (rows d : Z) (rs : list Plane) (row : Z)
    (s : Z * list Plane) : Prop :=
  fst s < d /\
  exists cur ws,
    snd s = set_row rs row cur
    /\ combination d rs row ws cur
    /\ forall j, 0 <= j < rows -> weight ws j <> Q2Qc 0 ->
         row < j /\ exists k, lead rs j k /\ k <= fst s.

(** State of the cancelling loop at cursor [dim] before it visits the row
    [next]; [c] is the coefficient read before the loop. *)
Definition cancel_inv (rows d : Z) (rs : list Plane) (row dim : Z) (c : Qc)
    (next : Z) (st : list Plane) : Prop :=
  exists cur ws,
    st = set_row rs row cur
    /\ combination d rs row ws cur
    /\ (forall j, 0 <= j < rows -> weight ws j <> Q2Qc 0 ->
          row < j /\ exists k, lead rs j k /\ (k < dim \/ (k = dim /\ next <= j)))
    /\ (forall j, row < j < rows -> next <= j -> lead rs j dim -> weight ws j = c).

(** State of the normalization pass on row [row]: the row is a nonzero
    multiple of the original one, and the factor is 1 once the cursor has
    passed the pivot. *)
Definition normalise_inv (rs : list Plane) (row : Z) (s : Z * list Plane) : Prop :=
  exists f,
    snd s = set_row rs row (plane_scale (row_at rs row) f)
    /\ f <> Q2Qc 0
    /\ (f = Q2Qc 1 \/ exists k, lead rs row k /\ k <= fst s).

(** ** Reading a system back *)

#[global] Instance Plane_eq_dec : EqDecision Plane.
Proof. solve_decision. Defined.

#[global] Instance exn_eq_dec : EqDecision exn.
Proof. intros x y. unfold Decision. decide equality; apply string_dec. Defined.

#[global] Instance obj_eq_dec : EqDecision obj.
Proof. solve_decision. Defined.

#[global] Instance outcome_eq_dec {A} `{EqDecision A} : EqDecision (outcome A).
Proof. solve_decision. Defined.

#[global] Instance ctl_eq_dec {A} `{EqDecision A} : EqDecision (ctl A).
Proof. solve_decision. Defined.

Fixpoint read_planes (h : heap) (ls : list loc) : option (list Plane) :=
  match ls with
  | [] => Some []
  | l :: ls' =>
      match h !! l, read_planes h ls' with
      | Some (OPlane p), Some ps => Some (p :: ps)
      | _, _ => None
      end
  end.

Definition read_rows (h : heap) (lst : loc) : option (list Plane) :=
  match h !! lst with
  | Some (OList ls) => read_planes h ls
  | _ => None
  end.

(** The rows of the system a computation returned. *)
Definition result_rows (r : heap * outcome LinearSystem) : option (list Plane) :=
  match r with
  | (h, Ret s) => read_rows h (planes s)
  | _ => None
  end.

(** ** Sample systems *)

Definition plane_Z (coefficients : list Z) (constant : Z) : Plane :=
  mkPlane (map Qc_of_Z coefficients) (Qc_of_Z constant).

(** A store holding the planes [rs] and then the list of them. *)
Definition store_of (rs : list Plane) : heap :=
  map OPlane rs ++ [OList (seq 0 (length rs))].

Definition system_of (rs : list Plane) (d : Z) : LinearSystem :=
  mkSystem (length rs) d.

(** [2x = 4], [3y = 3], [5z = 5] *)
Definition diagonal_system : list Plane :=
  [plane_Z [2; 0; 0] 4; plane_Z [0; 3; 0] 3; plane_Z [0; 0; 5] 5].

(** [y = 1], [z = 1], [x = 1]: the only pivot for the first column is in the
    last row. *)
Definition crossed_system : list Plane :=
  [plane_Z [0; 1; 0] 1; plane_Z [0; 0; 1] 1; plane_Z [1; 0; 0] 1].

(** [y = 1], [-x = 1], [z = 1]: the candidate below the first row has a
    negative coefficient in the first column. *)
Definition negative_system : list Plane :=
  [plane_Z [0; 1; 0] 1; plane_Z [-1; 0; 0] 1; plane_Z [0; 0; 1] 1].

(** A store whose list refers to a plane of dimension 3 and to one of
    dimension 2. *)
Definition mixed_store : heap :=
  [OPlane (plane_Z [1; 2; 3] 0); OList [0%nat; 2%nat]; OPlane (plane_Z [1; 2] 0)].

(** The unique-solution scenario of the spec. *)
Definition scenario_system : list Plane :=
  [plane_Z [1; 1; 1] 1; plane_Z [0; 1; 1] 2; plane_Z [1; 1; 2] 3].

(** A system in reduced row-echelon form with a free column. *)
Definition reduced_system : list Plane :=
  [plane_Z [1; 0; 2] 7; plane_Z [0; 1; 3] 9; plane_Z [0; 0; 0] 0].

(** ** Solutions of a system *)

(** Modelled from the spec: a hyperplane is the set of the points [x] with
    [normal_vector . x = constant_term].  A point shorter than the
    coefficient sequence counts as zero in the coordinates it lacks. *)
Definition satisfies (x : list Qc) (p : Plane) : Prop :=
  wsum (normal_vector p) x = constant_term p.

#[global] Instance satisfies_dec x p : Decision (satisfies x p).
Proof. unfold satisfies. apply _. Defined.

(** [x] solves every equation of the system. *)
Definition solution (x : list Qc) (rs : list Plane) : Prop :=
  Forall (satisfies x) rs.

#[global] Instance solution_dec x rs : Decision (solution x rs).
Proof. unfold solution. apply _. Defined.

Definition same_solutions (rs rs' : list Plane) : Prop :=
  forall x, solution x rs <-> solution x rs'.

(** ** What a method leaves true of the store *)

(** [m] keeps [P], whatever its outcome. *)
Definition stable {A} (P : heap -> Prop) (m : M A) : Prop :=
  forall h, P h -> P (fst (m h)).

(** The object at [lst] is a list of [n] entries. *)
Definition list_of_length (lst : loc) (n : nat) (h : heap) : Prop :=
  exists ls, h !! lst = Some (OList ls) /\ length ls = n.

(** ** [__str__] *)

Definition newline : string := String (Ascii.ascii_of_nat 10) EmptyString.

(** [str(n)] for an integer that is not negative: its decimal digits. *)
Definition str_nat (n : nat) : string :=
  DecimalString.NilZero.string_of_uint (Nat.to_uint n).

(** [sep.join(xs)] *)
Fixpoint join (sep : string) (xs : list string) : string :=
  match xs with
  | [] => EmptyString
  | x :: xs' =>
      match xs' with
      | [] => x
      | _ :: _ => String.append x (String.append sep (join sep xs'))
      end
  end.

Section Str.
(** [plane.py] is not part of the sources: the text [format] puts in for a
    plane, [str(p)], is a parameter. *)
Variable plane_str : Plane -> string.

(** ['Equation {}: {}'.format(i + 1, p)] *)
Definition equation_line (i : nat) (p : Plane) : string :=
  String.append "Equation "
    (String.append (str_nat (i + 1)) (String.append ": " (plane_str p))).

(** [__str__(self)]; the local variable [ret] of the source is [ret_0]. *)
Definition __str__ (self : LinearSystem) : M string :=
  let ret_0 := String.append "Linear System:" newline in
  let* ls := get_list (planes self) in
  let* temp :=
    for_each (enumerate ls)
      (fun ip temp =>
         let* p := get_plane (snd ip) in
         ret (temp ++ [equation_line (fst ip) p]))
      [] in
  ret (String.append ret_0 (join newline temp)).
End Str.

(** * The reducers on Python's numbers

    The store-level embedding above computes with exact rationals: it is
    the class run on coefficients of type [fractions.Fraction], whose [/] is
    exact.  On [int] and [float] coefficients Python's [/] returns a binary64
    float, rounded to nearest with ties to even, and every later operation
    rounds again.  The module below gives the three kinds of number with
    Python's coercions and runs the two reducers on them.  Rows are values
    here: the reducers work on a private copy and only ever replace an entry
    of its list by a new plane, so no aliasing is involved (the store-level
    embedding covers that). *)
Module PyNum.

Inductive num : Type :=
  | Int (z : Z)
  | Float (f : PrimFloat.float)
  | Fraction (q : Qc).

Inductive error : Type :=
  | IndexError
  | ZeroDivisionError
  | OverflowError.

Inductive result (A : Type) : Type :=
  | Ok (a : A)
  | Raised (e : error)
  | OutOfFuel.
Arguments Ok {A} a.
Arguments Raised {A} e.
Arguments OutOfFuel {A}.

Definition bind {A B} (m : result A) (k : A -> result B) : result B :=
  match m with
  | Ok a => k a
  | Raised e => Raised e
  | OutOfFuel => OutOfFuel
  end.

Declare Scope num_scope.
Delimit Scope num_scope with num.
Notation "'let*' x ':=' m 'in' k" := (bind m (fun x => k))
  (at level 10, x pattern, m at level 100, k at level 200) : num_scope.
Local Open Scope num_scope.

(** ** binary64 *)

(** [float(z)]: the binary64 value nearest to the integer, ties to even;
    infinite when the integer is out of range. *)
Definition float_of_Z (z : Z) : PrimFloat.float :=
  FloatOps.SF2Prim (SpecFloat.binary_normalize FloatOps.prec FloatOps.emax z 0 false).

(** The binary64 value nearest to [a / b] for [b <> 0], ties to even.  The
    quotient is cut to at least 64 significant bits, the last of which
    records whether anything was cut off, and then rounded once.  A zero
    quotient takes the sign of the divisor. *)
Definition float_of_quotient (a b : Z) : PrimFloat.float :=
  let a' := Z.abs a in
  let b' := Z.abs b in
  let k := Z.max 0 (64 + Z.log2 b' - Z.log2 a') in
  let q := (a' * 2 ^ k) / b' in
  let r := (a' * 2 ^ k) mod b' in
  let m := 2 * q + (if r =? 0 then 0 else 1) in
  let s := Z.sgn a * Z.sgn b in
  FloatOps.SF2Prim
    (SpecFloat.binary_normalize FloatOps.prec FloatOps.emax (s * m) (- k - 1) (b <? 0)).

(** The exact value of a finite float, as a fraction. *)
Definition Q_of_finite (s : bool) (m : positive) (e : Z) : Q :=
  let n := if s then Zneg m else Zpos m in
  if 0 <=? e then inject_Z (n * 2 ^ e) else Qmake n (Z.to_pos (2 ^ (- e))).

(** [round(f, 3)] on a float: the exact value is rounded to three decimals,
    ties to even, and the decimal result is read back as the nearest float.
    Zeros, infinities and nan are returned as they are, and a result that
    rounds to zero keeps the sign. *)
Definition float_round3 (f : PrimFloat.float) : PrimFloat.float :=
  match FloatOps.Prim2SF f with
  | SpecFloat.S754_finite s m e =>
      let k := round_half_even (Qmult (Q_of_finite s m e) (inject_Z 1000)) in
      if k =? 0 then (if s then PrimFloat.opp PrimFloat.zero else PrimFloat.zero)
      else float_of_quotient k 1000
  | _ => f
  end.

(** ** Arithmetic *)

(** [int / int] *)
Definition int_truediv (a b : Z) : result PrimFloat.float :=
  if b =? 0 then Raised ZeroDivisionError
  else
    let f := float_of_quotient a b in
    if PrimFloat.is_infinity f then Raised OverflowError else Ok f.

(** [float(x)] *)
Definition to_float (x : num) : result PrimFloat.float :=
  match x with
  | Int z =>
      let f := float_of_Z z in
      if PrimFloat.is_infinity f then Raised OverflowError else Ok f
  | Float f => Ok f
  | Fraction q => int_truediv (Qnum q) (Zpos (Qden q))
  end.

(** [+], [-] and [*]: two integers give an integer; a float on either side
    makes the other side a float; otherwise the result is a fraction. *)
Definition arith (on_int : Z -> Z -> Z)
    (on_float : PrimFloat.float -> PrimFloat.float -> PrimFloat.float)
    (on_fraction : Qc -> Qc -> Qc) (a b : num) : result num :=
  match a, b with
  | Int x, Int y => Ok (Int (on_int x y))
  | Int x, Fraction q => Ok (Fraction (on_fraction (Qc_of_Z x) q))
  | Fraction p, Int y => Ok (Fraction (on_fraction p (Qc_of_Z y)))
  | Fraction p, Fraction q => Ok (Fraction (on_fraction p q))
  | _, _ =>
      let* x := to_float a in
      let* y := to_float b in
      Ok (Float (on_float x y))
  end.

Definition add : num -> num -> result num := arith Z.add PrimFloat.add Qcplus.
Definition sub : num -> num -> result num := arith Z.sub PrimFloat.sub Qcminus.
Definition mul : num -> num -> result num := arith Z.mul PrimFloat.mul Qcmult.

Definition fraction_truediv (p q : Qc) : result num :=
  if is_zero q then Raised ZeroDivisionError else Ok (Fraction (p / q)%Qc).

(** [a / b]: two integers give the correctly rounded float. *)
Definition truediv (a b : num) : result num :=
  match a, b with
  | Int x, Int y => let* f := int_truediv x y in Ok (Float f)
  | Int x, Fraction q => fraction_truediv (Qc_of_Z x) q
  | Fraction p, Int y => fraction_truediv p (Qc_of_Z y)
  | Fraction p, Fraction q => fraction_truediv p q
  | _, _ =>
      let* x := to_float a in
      let* y := to_float b in
      if PrimFloat.eqb y PrimFloat.zero then Raised ZeroDivisionError
      else Ok (Float (PrimFloat.div x y))
  end.

(** [abs(a)] *)
Definition abs (a : num) : num :=
  match a with
  | Int z => Int (Z.abs z)
  | Float f => Float (PrimFloat.abs f)
  | Fraction q => Fraction (Qcabs q)
  end.

(** [round(a, 3)]: an integer is returned as it is. *)
Definition py_round3 (a : num) : num :=
  match a with
  | Int z => Int z
  | Float f => Float (float_round3 f)
  | Fraction q => Fraction (round3 q)
  end.

(** [a == 0] *)
Definition eq_0 (a : num) : bool :=
  match a with
  | Int z => z =? 0
  | Float f => PrimFloat.eqb f PrimFloat.zero
  | Fraction q => is_zero q
  end.

(** [a != 0] *)
Definition ne_0 (a : num) : bool := negb (eq_0 a).

(** [a > 0] *)
Definition gt_0 (a : num) : bool :=
  match a with
  | Int z => 0 <? z
  | Float f => PrimFloat.ltb PrimFloat.zero f
  | Fraction q => is_pos q
  end.

(** [a < 0] *)
Definition lt_0 (a : num) : bool :=
  match a with
  | Int z => z <? 0
  | Float f => PrimFloat.ltb f PrimFloat.zero
  | Fraction q => is_neg q
  end.

(** ** Sequences *)

Fixpoint map_result {A B} (f : A -> result B) (xs : list A) : result (list B) :=
  match xs with
  | [] => Ok []
  | x :: xs' =>
      let* y := f x in
      let* ys := map_result f xs' in
      Ok (y :: ys)
  end.

Fixpoint zip_result {A B C} (f : A -> B -> result C) (xs : list A) (ys : list B)
    : result (list C) :=
  match xs, ys with
  | x :: xs', y :: ys' =>
      let* z := f x y in
      let* zs := zip_result f xs' ys' in
      Ok (z :: zs)
  | _, _ => Ok []
  end.

(** [lst[i]] *)
Definition getitem {A} (lst : list A) (i : Z) : result A :=
  match py_index (length lst) i with
  | Some n =>
      match lst !! n with
      | Some x => Ok x
      | None => Raised IndexError
      end
  | None => Raised IndexError
  end.

(** [lst[i] = v] *)
Definition setitem {A} (lst : list A) (i : Z) (v : A) : result (list A) :=
  match py_index (length lst) i with
  | Some n => Ok (<[n := v]> lst)
  | None => Raised IndexError
  end.

(** [for x in xs: body], threading the loop-carried variables [s]. *)
Fixpoint for_each {A S} (xs : list A) (body : A -> S -> result S) (s : S) : result S :=
  match xs with
  | [] => Ok s
  | x :: xs' => let* s' := body x s in for_each xs' body s'
  end.

(** [while cond: body]; the body says whether it reached [break]. *)
Fixpoint while_loop {S} (fuel : nat) (cond : S -> bool) (body : S -> result (ctl S))
    (s : S) : result S :=
  match fuel with
  | O => OutOfFuel
  | Datatypes.S fuel' =>
      if cond s then
        let* c := body s in
        match c with
        | Continue s' => while_loop fuel' cond body s'
        | Break s' => Ok s'
        end
      else Ok s
  end.

(** ** The hyperplane collaborator *)

(** Modelled from the spec: the coefficients, an indexable sequence, and the
    constant term. *)
Record Plane : Type := mkPlane {
  normal_vector : list num;
  constant_term : num
}.

(** Modelled from the spec: [plane * c], on every coefficient and on the
    constant term. *)
Definition plane_mul (p : Plane) (c : num) : result Plane :=
  let* v := map_result (fun x => mul x c) (normal_vector p) in
  let* k := mul (constant_term p) c in
  Ok (mkPlane v k).

(** Modelled from the spec: [plane_1 + plane_2], coefficient by coefficient
    and on the constant terms. *)
Definition plane_add (p q : Plane) : result Plane :=
  let* v := zip_result add (normal_vector p) (normal_vector q) in
  let* k := add (constant_term p) (constant_term q) in
  Ok (mkPlane v k).

(** Modelled from the spec: [plane_1 - plane_2]. *)
Definition plane_sub (p q : Plane) : result Plane :=
  let* v := zip_result sub (normal_vector p) (normal_vector q) in
  let* k := sub (constant_term p) (constant_term q) in
  Ok (mkPlane v k).

(** Modelled from the spec: [plane[i]], index access to the coefficients. *)
Definition plane_getitem (p : Plane) (i : Z) : result num :=
  getitem (normal_vector p) i.

(** ** class LinearSystem *)

Record LinearSystem : Type := mkSystem {
  planes : list Plane;
  dimension : Z
}.

(** The system after an assignment to an entry of [self.planes]. *)
Definition with_planes (self : LinearSystem) (ps : list Plane) : LinearSystem :=
  mkSystem ps (dimension self).

(** [self.planes[index] = plane] *)
Definition planes_setitem (self : LinearSystem) (index : Z) (plane : Plane)
    : result LinearSystem :=
  let* ps := setitem (planes self) index plane in
  Ok (with_planes self ps).

(** [deepcopy(self)]: rows are values, the copy is the system itself. *)
Definition deepcopy (self : LinearSystem) : LinearSystem := self.

(** [swap_rows(self, index_1, index_2)] *)
Definition swap_rows (self : LinearSystem) (index_1 index_2 : Z) : result LinearSystem :=
  let* row_1 := getitem (planes self) index_1 in
  let* row_2 := getitem (planes self) index_2 in
  let* self := planes_setitem self index_1 row_2 in
  planes_setitem self index_2 row_1.

(** [self.planes[row][dim]] *)
Definition coefficient_at (self : LinearSystem) (row dim : Z) : result num :=
  let* plane := getitem (planes self) row in
  plane_getitem plane dim.

(** *** [compute_triangular_form] *)

(** Lines 99-103: the search for a row to swap in. *)
Definition swap_search (triangular : LinearSystem) (rows row dim : Z)
    : result (bool * LinearSystem) :=
  for_each (range (row + 1) (rows - 1))
    (fun next_row s =>
       let triangular := snd s in
       let* c := coefficient_at triangular next_row dim in
       if gt_0 c then
         let* triangular := swap_rows triangular row next_row in
         Ok (true, triangular)
       else Ok s)
    (false, triangular).

(** Lines 108-115: the current row clears the rows below it. *)
Definition clear_below (triangular : LinearSystem) (rows row dim : Z)
    (coefficient : num) : result LinearSystem :=
  for_each (range (row + 1) rows)
    (fun next_row triangular =>
       let* coefficient_remove := coefficient_at triangular next_row dim in
       if ne_0 coefficient_remove then
         let* q := truediv coefficient_remove coefficient in
         let* factor := mul q (Int (-1)) in
         let* cur := getitem (planes triangular) row in
         let* reduction_plane := plane_mul cur factor in
         let* nxt := getitem (planes triangular) next_row in
         let* sum := plane_add nxt reduction_plane in
         planes_setitem triangular next_row sum
       else Ok triangular)
    triangular.

(** Lines 96-117: one turn of [while dim < dims]; the state is the cursor
    and the working copy. *)
Definition triangular_body (rows row : Z) (s : Z * LinearSystem)
    : result (ctl (Z * LinearSystem)) :=
  let dim := fst s in
  let triangular := snd s in
  let* coefficient := coefficient_at triangular row dim in
  if eq_0 coefficient then
    let* r := swap_search triangular rows row dim in
    if negb (fst r) then Ok (Continue (dim + 1, snd r)) else Ok (Continue (dim, snd r))
  else
    let* triangular := clear_below triangular rows row dim coefficient in
    Ok (Break (dim, triangular)).

Definition triangular_loops (fuel : nat) (triangular : LinearSystem)
    (rows dims : Z) : result (Z * LinearSystem) :=
  for_each (range 0 (rows - 1))
    (fun row s =>
       while_loop fuel (fun s => fst s <? dims) (triangular_body rows row) s)
    (0, triangular).

Definition compute_triangular_form (fuel : nat) (self : LinearSystem)
    : result LinearSystem :=
  let triangular := deepcopy self in
  let rows := Z.of_nat (length (planes triangular)) in
  let dims := dimension triangular in
  let* s := triangular_loops fuel triangular rows dims in
  Ok (snd s).

(** *** [compute_rref_form] *)

(** Lines 139-158: the rows under the current one cancel its coefficient. *)
Definition rref_cancel (rref : LinearSystem) (rows row dim : Z)
    (coefficient : num) : result LinearSystem :=
  for_each (range row (rows - 1))
    (fun range_index rref =>
       let under_row := range_index + 1 in
       let* u := coefficient_at rref under_row dim in
       let under_coeff := py_round3 u in
       if ne_0 under_coeff then
         let positive := lt_0 coefficient in
         let* sub_factor := truediv (abs coefficient) under_coeff in
         let* under := getitem (planes rref) under_row in
         let* reduction_plane := plane_mul under sub_factor in
         let* new :=
           if positive then
             let* cur := getitem (planes rref) row in
             plane_add cur reduction_plane
           else
             let* cur := getitem (planes rref) row in
             plane_sub cur reduction_plane in
         planes_setitem rref row new
       else Ok rref)
    rref.

(** Lines 136-161: one turn of the first [while dim > -1]. *)
Definition rref_body (rows row : Z) (s : Z * LinearSystem)
    : result (ctl (Z * LinearSystem)) :=
  let dim := fst s in
  let rref := snd s in
  let* coefficient := coefficient_at rref row dim in
  let* rref :=
    if ne_0 coefficient then rref_cancel rref rows row dim coefficient
    else Ok rref in
  Ok (Continue (dim - 1, rref)).

(** Lines 134-163; the cursor is set back to [dims] after every row. *)
Definition rref_backward (fuel : nat) (rref : LinearSystem) (rows dims : Z)
    : result (Z * LinearSystem) :=
  for_each (range_down (rows - 1) (-1))
    (fun row s =>
       let* s' := while_loop fuel (fun s => -1 <? fst s) (rref_body rows row) s in
       Ok (dims, snd s'))
    (dims, rref).

(** Lines 169-174: one turn of the second [while dim > -1]. *)
Definition normalise_body (row : Z) (s : Z * LinearSystem)
    : result (ctl (Z * LinearSystem)) :=
  let dim := fst s in
  let rref := snd s in
  let* coefficient := coefficient_at rref row dim in
  let* rref :=
    if ne_0 coefficient then
      let* sub_factor := truediv (Int 1) coefficient in
      let* cur := getitem (planes rref) row in
      let* scaled := plane_mul cur sub_factor in
      planes_setitem rref row scaled
    else Ok rref in
  Ok (Continue (dim - 1, rref)).

(** Lines 166-174; the cursor is whatever the previous row left. *)
Definition rref_normalise (fuel : nat) (rref : LinearSystem) (rows : Z) (dim : Z)
    : result (Z * LinearSystem) :=
  for_each (range_down (rows - 1) (-1))
    (fun row s => while_loop fuel (fun s => -1 <? fst s) (normalise_body row) s)
    (dim, rref).

Definition compute_rref_form (fuel : nat) (self : LinearSystem) : result LinearSystem :=
  let* triangular := compute_triangular_form fuel self in
  let rref := deepcopy triangular in
  let rows := Z.of_nat (length (planes rref)) in
  let dims := dimension rref - 1 in
  let* s := rref_backward fuel rref rows dims in
  let rref := snd s in
  let rows := Z.of_nat (length (planes rref)) in
  let* s := rref_normalise fuel rref rows (fst s) in
  Ok (snd s).

(** ** Sample systems *)

(** A plane with [int] coefficients. *)
Definition plane_int (coefficients : list Z) (constant : Z) : Plane :=
  mkPlane (map Int coefficients) (Int constant).

(** A plane with [float] coefficients, each the float of an integer. *)
Definition plane_float (coefficients : list Z) (constant : Z) : Plane :=
  mkPlane (map (fun z => Float (float_of_Z z)) coefficients)
          (Float (float_of_Z constant)).

End PyNum.

(** ** Fractions in, fractions out *)

(** A row of exact rationals as a row of Python [Fraction]s. *)
Definition lift (p : Plane) : PyNum.Plane :=
  PyNum.mkPlane (map PyNum.Fraction (normal_vector p)) (PyNum.Fraction (constant_term p)).

Definition lifts (rs : list Plane) : list PyNum.Plane := map lift rs.

(** The system of dimension [d] with the rows [rs], all fractions. *)
Definition fraction_system (d : Z) (rs : list Plane) : PyNum.LinearSystem :=
  PyNum.mkSystem (lifts rs) d.

(** A loop state of the row-level view, a value next to the rows, as the
    state of the same loop on fractions. *)
Definition fraction_state {A} (d : Z) (s : A * list Plane) : A * PyNum.LinearSystem :=
  (fst s, fraction_system d (snd s)).

(** * Reasoning about the monad *)

Lemma wp_ret {A} (a : A) Q h : Q a h -> wp (ret a) Q h.
Proof. done. Qed.

Lemma wp_bind {A B} (m : M A) (k : A -> M B) Q h :
  wp m (fun a h' => wp (k a) Q h') h -> wp (bind m k) Q h.
Proof.
  unfold wp, bind. destruct (m h) as [h' [a|e|]]; done.
Qed.

Lemma wp_mono {A} (m : M A) (Q Q' : A -> heap -> Prop) h :
  wp m Q h -> (forall a h', Q a h' -> Q' a h') -> wp m Q' h.
Proof.
  unfold wp. destruct (m h) as [h' [a|e|]]; auto.
Qed.

Lemma wp_run {A} (m : M A) Q h :
  wp m Q h -> exists h' a, m h = (h', Ret a) /\ Q a h'.
Proof.
  unfold wp. destruct (m h) as [h' [a|e|]]; try done. eauto.
Qed.

Lemma run_wp {A} (m : M A) (Q : A -> heap -> Prop) h h' a :
  m h = (h', Ret a) -> Q a h' -> wp m Q h.
Proof. unfold wp. by intros ->. Qed.

(** ** Extension of the store *)

Lemma ext_refl lst h : ext lst h h.
Proof. split; auto. Qed.

Lemma ext_trans lst h1 h2 h3 : ext lst h1 h2 -> ext lst h2 h3 -> ext lst h1 h3.
Proof.
  intros [Hl1 H1] [Hl2 H2]. split; [lia|].
  intros l Hne Hlt. rewrite H2 by (auto; lia). auto.
Qed.

Lemma ext_alloc lst h o : ext lst h (h ++ [o]).
Proof.
  split; [rewrite length_app; lia|].
  intros l _ Hlt. by rewrite lookup_app_l.
Qed.

Lemma ext_insert lst h o : ext lst h (<[lst := o]> h).
Proof.
  split; [by rewrite length_insert|].
  intros l Hne _. by rewrite list_lookup_insert_ne.
Qed.

Lemma ext_take lst n h h' :
  ext lst h h' -> (n <= lst)%nat -> (n <= length h)%nat -> take n h' = take n h.
Proof.
  intros [Hlen H] Hn Hh. apply list_eq. intros i.
  destruct (decide (i < n)%nat) as [Hi|Hi].
  - rewrite !lookup_take_lt by done. apply H; lia.
  - rewrite !lookup_take_ge by lia. done.
Qed.

(** ** Indices *)

Lemma py_index_in_range size i :
  0 <= i < Z.of_nat size -> py_index size i = Some (Z.to_nat i).
Proof.
  intros [H0 H1]. unfold py_index.
  destruct (Z.leb_spec 0 i); [|lia].
  destruct (Z.ltb_spec i (Z.of_nat size)); [|lia]. done.
Qed.

Lemma lookup_row_at (rs : list Plane) i :
  0 <= i < Z.of_nat (length rs) -> rs !! Z.to_nat i = Some (row_at rs i).
Proof.
  intros Hi. unfold row_at.
  destruct (nth_lookup_or_length rs (Z.to_nat i) (mkPlane [] (Q2Qc 0))) as [H|H];
    [done|lia].
Qed.

Lemma lookup_coef (rs : list Plane) i j :
  0 <= j < plane_dimension (row_at rs i) ->
  normal_vector (row_at rs i) !! Z.to_nat j = Some (coef rs i j).
Proof.
  unfold plane_dimension, coef. intros Hj.
  destruct (nth_lookup_or_length (normal_vector (row_at rs i)) (Z.to_nat j) (Q2Qc 0))
    as [H|H]; [done|lia].
Qed.

Lemma length_set_row rs i p : length (set_row rs i p) = length rs.
Proof. apply length_insert. Qed.

Lemma row_at_set_row_eq rs i p :
  0 <= i < Z.of_nat (length rs) -> row_at (set_row rs i p) i = p.
Proof.
  intros Hi. unfold row_at, set_row. apply nth_lookup_Some.
  apply list_lookup_insert_eq. lia.
Qed.

Lemma row_at_set_row_ne rs i j p :
  0 <= i -> 0 <= j -> i <> j -> row_at (set_row rs i p) j = row_at rs j.
Proof.
  intros Hi Hj Hne. unfold row_at, set_row.
  rewrite !nth_lookup, list_lookup_insert_ne by lia. done.
Qed.

(** ** The working copy *)

Lemma is_plane_alloc (h : heap) l p o : is_plane h l p -> is_plane (h ++ [o]) l p.
Proof. apply lookup_app_l_Some. Qed.

Lemma is_plane_new (h : heap) p : is_plane (h ++ [OPlane p]) (length h) p.
Proof.
  unfold is_plane. rewrite lookup_app_r by lia.
  by rewrite Nat.sub_diag.
Qed.

Lemma work_bounds n lst (h : heap) rs :
  work n lst h rs -> (n <= lst)%nat /\ (lst < length h)%nat.
Proof.
  intros [Hn (ls & Hl & _)]. split; [done|]. by eapply lookup_lt_Some.
Qed.

Lemma work_alloc n lst (h : heap) rs o :
  work n lst h rs -> work n lst (h ++ [o]) rs.
Proof.
  intros [Hn (ls & Hl & Hf)]. split; [done|]. exists ls. split.
  - by apply lookup_app_l_Some.
  - eapply Forall2_impl; [|exact Hf]. intros l p [Hp Hle].
    split; [by apply is_plane_alloc|done].
Qed.

Lemma work_rows_in n lst (h : heap) rs : work n lst h rs -> rows_in h lst rs.
Proof.
  intros [_ (ls & Hl & Hf)]. exists ls. split; [done|].
  eapply Forall2_impl; [|exact Hf]. by intros l p [Hp _].
Qed.

(** ** Weakest preconditions of the store primitives *)

Lemma wp_get_list (h : heap) l ls Q :
  h !! l = Some (OList ls) -> Q ls h -> wp (get_list l) Q h.
Proof. intros Hl HQ. unfold wp, get_list. by rewrite Hl. Qed.

Lemma wp_get_plane (h : heap) l p Q :
  is_plane h l p -> Q p h -> wp (get_plane l) Q h.
Proof. intros Hl HQ. unfold wp, get_plane. by rewrite Hl. Qed.

Lemma wp_list_len n lst (h : heap) rs Q :
  work n lst h rs -> Q (Z.of_nat (length rs)) h -> wp (list_len lst) Q h.
Proof.
  intros [_ (ls & Hl & Hf)] HQ. unfold list_len.
  apply wp_bind. eapply wp_get_list; [done|]. apply wp_ret.
  by rewrite (Forall2_length Hf).
Qed.

Lemma wp_list_getitem n lst (h : heap) rs i Q :
  work n lst h rs ->
  0 <= i < Z.of_nat (length rs) ->
  (forall l, is_plane h l (row_at rs i) -> (n <= l)%nat -> Q l h) ->
  wp (list_getitem lst i) Q h.
Proof.
  intros [_ (ls & Hl & Hf)] Hi HQ. unfold list_getitem.
  apply wp_bind. eapply wp_get_list; [done|].
  pose proof (Forall2_length Hf) as Hlen.
  rewrite py_index_in_range by lia.
  pose proof (lookup_row_at rs i Hi) as Hr.
  destruct (Forall2_lookup_r _ _ _ _ _ Hf Hr) as (l & Hll & Hp & Hle).
  rewrite Hll. apply wp_ret. auto.
Qed.

Lemma wp_plane_getitem (h : heap) l p j Q :
  is_plane h l p ->
  0 <= j < plane_dimension p ->
  Q (nth (Z.to_nat j) (normal_vector p) (Q2Qc 0)) h ->
  wp (plane_getitem l j) Q h.
Proof.
  intros Hp Hj HQ. unfold plane_getitem.
  apply wp_bind. eapply wp_get_plane; [done|].
  unfold plane_dimension in Hj.
  rewrite py_index_in_range by lia.
  destruct (nth_lookup_or_length (normal_vector p) (Z.to_nat j) (Q2Qc 0)) as [H|H];
    [|lia].
  rewrite H. by apply wp_ret.
Qed.

Lemma wp_coefficient_at n s (h : heap) rs i j Q :
  work n (planes s) h rs ->
  0 <= i < Z.of_nat (length rs) ->
  0 <= j < plane_dimension (row_at rs i) ->
  Q (coef rs i j) h ->
  wp (coefficient_at s i j) Q h.
Proof.
  intros Hw Hi Hj HQ. unfold coefficient_at.
  apply wp_bind. eapply wp_list_getitem; [done..|].
  intros l Hl _. eapply wp_plane_getitem; done.
Qed.

Lemma wp_plane_mul (h : heap) l p c Q :
  is_plane h l p ->
  Q (length h) (h ++ [OPlane (plane_scale p c)]) ->
  wp (plane_mul l c) Q h.
Proof.
  intros Hp HQ. unfold plane_mul.
  apply wp_bind. eapply wp_get_plane; [done|]. done.
Qed.

Lemma wp_plane_add (h : heap) l1 l2 p q Q :
  is_plane h l1 p -> is_plane h l2 q ->
  Q (length h) (h ++ [OPlane (plane_plus p q)]) ->
  wp (plane_add l1 l2) Q h.
Proof.
  intros Hp Hq HQ. unfold plane_add.
  apply wp_bind. eapply wp_get_plane; [done|].
  apply wp_bind. eapply wp_get_plane; [done|]. done.
Qed.

Lemma wp_plane_sub (h : heap) l1 l2 p q Q :
  is_plane h l1 p -> is_plane h l2 q ->
  Q (length h) (h ++ [OPlane (plane_minus p q)]) ->
  wp (plane_sub l1 l2) Q h.
Proof.
  intros Hp Hq HQ. unfold plane_sub.
  apply wp_bind. eapply wp_get_plane; [done|].
  apply wp_bind. eapply wp_get_plane; [done|]. done.
Qed.

Lemma wp_py_div a b Q (h : heap) :
  is_zero b = false -> Q (a / b)%Qc h -> wp (py_div a b) Q h.
Proof. intros Hb HQ. unfold py_div. rewrite Hb. by apply wp_ret. Qed.

Lemma wp_list_setitem n lst (h : heap) rs i l p Q :
  work n lst h rs ->
  0 <= i < Z.of_nat (length rs) ->
  is_plane h l p -> (n <= l)%nat ->
  (forall h', work n lst h' (set_row rs i p) -> ext lst h h' -> Q tt h') ->
  wp (list_setitem lst i l) Q h.
Proof.
  intros Hw Hi Hp Hle HQ.
  destruct (work_bounds _ _ _ _ Hw) as [Hn Hlt].
  destruct Hw as [_ (ls & Hl & Hf)].
  unfold list_setitem.
  apply wp_bind. eapply wp_get_list; [done|].
  pose proof (Forall2_length Hf) as Hlen.
  rewrite py_index_in_range by lia.
  unfold wp. apply HQ; [|apply ext_insert].
  split; [done|]. exists (<[Z.to_nat i := l]> ls). split.
  - by apply list_lookup_insert_eq.
  - assert (Hst : forall l' p', is_plane h l' p' ->
              is_plane (<[lst := OList (<[Z.to_nat i := l]> ls)]> h) l' p').
    { intros l' p' Hp'. unfold is_plane.
      rewrite list_lookup_insert_ne; [done|].
      intros ->. unfold is_plane in Hp'. congruence. }
    unfold set_row. apply Forall2_insert; [|auto].
    eapply Forall2_impl; [|exact Hf]. intros l' p' [Hp' Hle']. auto.
Qed.

(** ** Refinement: the methods compute the row-level functions *)

Lemma refines_ret {A} n lst (a : A) rs : refines n lst (ret a) rs a rs.
Proof. intros h Hw. apply wp_ret. auto using ext_refl. Qed.

Lemma refines_bind {A B} n lst (m : M A) (k : A -> M B) rs a rs1 b rs2 :
  refines n lst m rs a rs1 ->
  refines n lst (k a) rs1 b rs2 ->
  refines n lst (bind m k) rs b rs2.
Proof.
  intros Hm Hk h Hw. apply wp_bind.
  eapply wp_mono; [apply Hm, Hw|].
  intros a' h' (-> & Hw' & He).
  eapply wp_mono; [apply Hk, Hw'|].
  intros b' h'' (-> & Hw'' & He'). eauto using ext_trans.
Qed.

Lemma refines_read {A} n lst (m : M A) rs a :
  (forall h Q, work n lst h rs -> Q a h -> wp m Q h) ->
  refines n lst m rs a rs.
Proof. intros H h Hw. apply H; auto using ext_refl. Qed.

Lemma refines_for_each {A S} n lst (J : S -> list Plane -> Prop)
    (body : A -> S -> M S) (pbody : A -> S * list Plane -> option (S * list Plane)) :
  forall xs,
  (forall x s rs s' rs', In x xs -> J s rs -> pbody x (s, rs) = Some (s', rs') ->
     refines n lst (body x s) rs s' rs' /\ J s' rs') ->
  forall s rs s' rs', J s rs -> p_for xs pbody (s, rs) = Some (s', rs') ->
    refines n lst (for_each xs body s) rs s' rs' /\ J s' rs'.
Proof.
  induction xs as [|x xs IH]; intros Hbody s rs s' rs' HJ Hp; simpl in *.
  - injection Hp as <- <-. split; [apply refines_ret|done].
  - destruct (pbody x (s, rs)) as [[s1 rs1]|] eqn:E; [|done].
    destruct (Hbody x s rs s1 rs1) as [Hr HJ1]; auto.
    assert (Hrest : forall y s rs s' rs', In y xs -> J s rs ->
              pbody y (s, rs) = Some (s', rs') ->
              refines n lst (body y s) rs s' rs' /\ J s' rs').
    { intros; eapply Hbody; eauto. }
    destruct (IH Hrest s1 rs1 s' rs') as [Hr' HJ']; auto.
    split; [|done]. eapply refines_bind; eauto.
Qed.

Lemma refines_while {S} n lst (J : S -> list Plane -> Prop) (cond : S -> bool)
    (body : S -> M (ctl S)) (pbody : S * list Plane -> ctl (S * list Plane)) :
  (forall s rs, J s rs -> cond s = true ->
     match pbody (s, rs) with
     | Continue (s', rs') => refines n lst (body s) rs (Continue s') rs' /\ J s' rs'
     | Break (s', rs') => refines n lst (body s) rs (Break s') rs' /\ J s' rs'
     end) ->
  forall fuel s rs s' rs', J s rs ->
    p_while fuel (fun s => cond (fst s)) pbody (s, rs) = Some (s', rs') ->
    refines n lst (while_loop fuel cond body s) rs s' rs' /\ J s' rs'.
Proof.
  intros Hbody. induction fuel as [|fuel IH]; intros s rs s' rs' HJ Hp; simpl in *.
  - done.
  - destruct (cond s) eqn:Ec.
    + specialize (Hbody s rs HJ Ec).
      destruct (pbody (s, rs)) as [[s1 rs1]|[s1 rs1]].
      * destruct Hbody as [Hr HJ1].
        destruct (IH s1 rs1 s' rs' HJ1 Hp) as [Hr' HJ'].
        split; [|done]. eapply refines_bind; [exact Hr|]. exact Hr'.
      * destruct Hbody as [Hr HJ1]. injection Hp as <- <-.
        split; [|done]. eapply refines_bind; [exact Hr|]. apply refines_ret.
    + injection Hp as <- <-. split; [apply refines_ret|done].
Qed.

Lemma refines_coefficient_at n s rs i j :
  0 <= i < Z.of_nat (length rs) ->
  0 <= j < plane_dimension (row_at rs i) ->
  refines n (planes s) (coefficient_at s i j) rs (coef rs i j) rs.
Proof.
  intros Hi Hj. apply refines_read. intros h Q Hw HQ.
  eapply wp_coefficient_at; eauto.
Qed.

Lemma refines_swap_rows n s rs i j :
  0 <= i < Z.of_nat (length rs) ->
  0 <= j < Z.of_nat (length rs) ->
  refines n (planes s) (swap_rows s i j) rs tt (swap_rows_rows rs i j).
Proof.
  intros Hi Hj h Hw. unfold swap_rows.
  apply wp_bind. eapply wp_list_getitem; [done..|]. intros l1 Hl1 Hn1.
  apply wp_bind. eapply wp_list_getitem; [done..|]. intros l2 Hl2 Hn2.
  apply wp_bind. eapply wp_list_setitem; [done..|]. intros h1 Hw1 He1.
  assert (Hl1' : is_plane h1 l1 (row_at rs i)).
  { destruct He1 as [_ He1]. unfold is_plane. rewrite He1; [done| |by eapply lookup_lt_Some].
    intros ->. destruct Hw as [_ (ls & Hls & _)]. unfold is_plane in Hl1. congruence. }
  eapply wp_list_setitem; [exact Hw1|by rewrite length_set_row|exact Hl1'|done|].
  intros h2 Hw2 He2. split; [done|]. split; [exact Hw2|]. eauto using ext_trans.
Qed.

(** [lst[j] = lst[j] + lst[i] * factor], as lines 113-115 do it. *)
Lemma refines_add_scaled n lst rs i j factor :
  0 <= i < Z.of_nat (length rs) ->
  0 <= j < Z.of_nat (length rs) ->
  refines n lst
    (let* cur := list_getitem lst i in
     let* reduction_plane := plane_mul cur factor in
     let* nxt := list_getitem lst j in
     let* sum := plane_add nxt reduction_plane in
     list_setitem lst j sum)
    rs tt
    (set_row rs j (plane_plus (row_at rs j) (plane_scale (row_at rs i) factor))).
Proof.
  intros Hi Hj h Hw.
  destruct (work_bounds _ _ _ _ Hw) as [Hn Hlt].
  apply wp_bind. eapply wp_list_getitem; [done..|]. intros l1 Hl1 Hn1.
  apply wp_bind. eapply wp_plane_mul; [done|].
  pose proof (work_alloc _ _ _ _ (OPlane (plane_scale (row_at rs i) factor)) Hw) as Hw1.
  set (h1 := h ++ [OPlane (plane_scale (row_at rs i) factor)]) in *.
  apply wp_bind. eapply wp_list_getitem; [exact Hw1|done|]. intros l2 Hl2 Hn2.
  apply wp_bind. eapply wp_plane_add; [exact Hl2|apply is_plane_new|].
  pose proof (work_alloc _ _ _ _
    (OPlane (plane_plus (row_at rs j) (plane_scale (row_at rs i) factor))) Hw1) as Hw2.
  set (h2 := h1 ++ _) in *.
  eapply wp_list_setitem; [exact Hw2|done|apply is_plane_new| |].
  { subst h1. rewrite length_app. lia. }
  intros h3 Hw3 He3. split; [done|]. split; [exact Hw3|].
  eapply ext_trans; [|exact He3].
  eapply ext_trans; apply ext_alloc.
Qed.

(** ** Ranges and row-level loops *)

Lemma in_range a b x : In x (range a b) <-> a <= x < b.
Proof.
  unfold range. rewrite in_map_iff. split.
  - intros (i & <- & Hi). apply in_seq in Hi. lia.
  - intros Hx. exists (Z.to_nat (x - a)). split; [lia|]. apply in_seq. lia.
Qed.

Lemma in_range_down a b x : In x (range_down a b) <-> b < x <= a.
Proof.
  unfold range_down. rewrite in_map_iff. split.
  - intros (i & <- & Hi). apply in_seq in Hi. lia.
  - intros Hx. exists (Z.to_nat (a - x)). split; [lia|]. apply in_seq. lia.
Qed.

Lemma p_for_total {A S} (f : A -> S -> S) xs s :
  p_for xs (fun x s => Some (f x s)) s = Some (fold_left (fun s x => f x s) xs s).
Proof. revert s. induction xs as [|x xs IH]; intros s; simpl; auto. Qed.

Lemma p_for_unit {A} (f : A -> list Plane -> list Plane) xs rs :
  p_for xs (fun x (s : unit * list Plane) => Some (tt, f x (snd s))) (tt, rs)
  = Some (tt, fold_left (fun rs x => f x rs) xs rs).
Proof. revert rs. induction xs as [|x xs IH]; intros rs; simpl; auto. Qed.

(** ** Dimensions are kept *)

Lemma plane_dimension_scale p c : plane_dimension (plane_scale p c) = plane_dimension p.
Proof. unfold plane_dimension, plane_scale. simpl. by rewrite length_map. Qed.

Lemma plane_dimension_plus p q :
  plane_dimension q = plane_dimension p ->
  plane_dimension (plane_plus p q) = plane_dimension p.
Proof.
  unfold plane_dimension, plane_plus. simpl. intros H.
  rewrite length_zip_with. lia.
Qed.

Lemma plane_dimension_minus p q :
  plane_dimension q = plane_dimension p ->
  plane_dimension (plane_minus p q) = plane_dimension p.
Proof.
  unfold plane_dimension, plane_minus. simpl. intros H.
  rewrite length_zip_with. lia.
Qed.

Lemma ok_row_at rows d rs i :
  ok rows d rs -> 0 <= i < rows -> plane_dimension (row_at rs i) = d.
Proof.
  intros [Hlen Hd] Hi. unfold same_dimension in Hd.
  rewrite Forall_lookup in Hd. eapply Hd. apply lookup_row_at. lia.
Qed.

Lemma ok_set_row rows d rs i p :
  ok rows d rs -> plane_dimension p = d -> ok rows d (set_row rs i p).
Proof.
  intros [Hlen Hd] Hp. split; [by rewrite length_set_row|].
  unfold same_dimension, set_row. by apply Forall_insert.
Qed.

Lemma ok_swap_rows_rows rows d rs i j :
  ok rows d rs -> 0 <= i < rows -> 0 <= j < rows -> ok rows d (swap_rows_rows rs i j).
Proof.
  intros Hok Hi Hj. unfold swap_rows_rows.
  apply ok_set_row; [apply ok_set_row; [done|]|]; eapply ok_row_at; eauto.
Qed.

Create HintDb linsys.
#[local] Hint Resolve ok_row_at ok_set_row ok_swap_rows_rows : linsys.

(** ** The triangular reducer refines its row-level view *)

Section Refinement.
Variables (n : nat) (t : LinearSystem) (rows d : Z).

Lemma refines_swap_search_step row dim next_row swap rs :
  ok rows d rs -> 0 <= row < rows -> 0 <= next_row < rows -> 0 <= dim < d ->
  refines n (planes t)
    (let* c := coefficient_at t next_row dim in
     if is_pos c then swap_rows t row next_row;; ret true else ret swap)
    rs
    (fst (swap_search_step row dim next_row (swap, rs)))
    (snd (swap_search_step row dim next_row (swap, rs)))
  /\ ok rows d (snd (swap_search_step row dim next_row (swap, rs))).
Proof.
  intros Hok Hrow Hnext Hdim. pose proof Hok as [Hlen _].
  unfold swap_search_step. simpl.
  destruct (is_pos (coef rs next_row dim)) eqn:E; simpl.
  - split; [|auto with linsys].
    eapply refines_bind.
    { apply refines_coefficient_at; [lia|]. erewrite ok_row_at; eauto. }
    rewrite E. eapply refines_bind; [apply refines_swap_rows; lia|apply refines_ret].
  - split; [|done].
    eapply refines_bind.
    { apply refines_coefficient_at; [lia|]. erewrite ok_row_at; eauto. }
    rewrite E. apply refines_ret.
Qed.

Lemma refines_swap_search row dim rs :
  ok rows d rs -> 0 <= row < rows -> 0 <= dim < d ->
  refines n (planes t) (swap_search t rows row dim) rs
    (fst (swap_search_rows rows row dim rs))
    (snd (swap_search_rows rows row dim rs))
  /\ ok rows d (snd (swap_search_rows rows row dim rs)).
Proof.
  intros Hok Hrow Hdim. unfold swap_search, swap_search_rows.
  eapply (refines_for_each n (planes t) (fun _ rs => ok rows d rs) _
            (fun next_row s => Some (swap_search_step row dim next_row s))).
  - intros x s rs0 s' rs' Hin HJ Heq. apply in_range in Hin.
    injection Heq as Heq.
    pose proof (refines_swap_search_step row dim x s rs0 HJ) as H.
    rewrite Heq in H. simpl in H. apply H; lia.
  - exact Hok.
  - rewrite p_for_total. f_equal.
    by destruct (fold_left _ _ _).
Qed.

Lemma refines_py_div a b rs :
  is_zero b = false ->
  refines n (planes t) (py_div a b) rs (a / b)%Qc rs.
Proof.
  intros Hb. apply refines_read. intros h Q _ HQ. by apply wp_py_div.
Qed.

Lemma ok_clear_step row dim c next_row rs :
  ok rows d rs -> 0 <= row < rows -> 0 <= next_row < rows ->
  ok rows d (clear_step row dim c next_row rs).
Proof.
  intros Hok Hrow Hnext. unfold clear_step.
  destruct (negb _); [|done].
  apply ok_set_row; [done|].
  rewrite plane_dimension_plus; [eauto with linsys|].
  rewrite plane_dimension_scale.
  erewrite !ok_row_at; eauto.
Qed.

Lemma refines_clear_below row dim c rs :
  ok rows d rs -> 0 <= row < rows -> 0 <= dim < d -> is_zero c = false ->
  refines n (planes t) (clear_below t rows row dim c) rs tt
    (clear_below_rows rows row dim c rs)
  /\ ok rows d (clear_below_rows rows row dim c rs).
Proof.
  intros Hok Hrow Hdim Hc. unfold clear_below, clear_below_rows.
  eapply (refines_for_each n (planes t) (fun _ rs => ok rows d rs) _
            (fun next_row s => Some (tt, clear_step row dim c next_row (snd s)))).
  - intros x [] rs0 s' rs' Hin HJ Heq. apply in_range in Hin.
    injection Heq as <- <-. simpl.
    split; [|apply ok_clear_step; auto; lia].
    pose proof HJ as [Hlen _].
    eapply refines_bind.
    { apply refines_coefficient_at; [lia|]. erewrite ok_row_at; eauto; lia. }
    unfold clear_step.
    destruct (negb (is_zero (coef rs0 x dim))); [|apply refines_ret].
    eapply refines_bind; [by apply refines_py_div|].
    apply refines_add_scaled; lia.
  - exact Hok.
  - apply p_for_unit.
Qed.

Lemma refines_triangular_body row dim rs :
  ok rows d rs -> 0 <= row < rows -> 0 <= dim < d ->
  match triangular_body_rows rows row (dim, rs) with
  | Continue (dim', rs') =>
      refines n (planes t) (triangular_body t rows row dim) rs (Continue dim') rs'
      /\ (ok rows d rs' /\ 0 <= dim')
  | Break (dim', rs') =>
      refines n (planes t) (triangular_body t rows row dim) rs (Break dim') rs'
      /\ (ok rows d rs' /\ 0 <= dim')
  end.
Proof.
  intros Hok Hrow Hdim. pose proof Hok as [Hlen _].
  assert (Hc : refines n (planes t) (coefficient_at t row dim) rs (coef rs row dim) rs).
  { apply refines_coefficient_at; [lia|]. erewrite ok_row_at; eauto. }
  unfold triangular_body_rows, triangular_body. simpl.
  destruct (is_zero (coef rs row dim)) eqn:Ez.
  - destruct (refines_swap_search row dim rs Hok Hrow Hdim) as [Hs Hok'].
    destruct (swap_search_rows rows row dim rs) as [swap rs']. simpl in *.
    destruct swap; simpl.
    + split; [|split; [done|lia]].
      eapply refines_bind; [exact Hc|]. rewrite Ez.
      eapply refines_bind; [exact Hs|]. apply refines_ret.
    + split; [|split; [done|lia]].
      eapply refines_bind; [exact Hc|]. rewrite Ez.
      eapply refines_bind; [exact Hs|]. apply refines_ret.
  - destruct (refines_clear_below row dim (coef rs row dim) rs) as [Hs Hok']; auto.
    split; [|split; [done|lia]].
    eapply refines_bind; [exact Hc|]. rewrite Ez.
    eapply refines_bind; [exact Hs|]. apply refines_ret.
Qed.

Lemma refines_triangular_loops fuel rs dim' rs' :
  ok rows d rs ->
  triangular_rows fuel rows d rs = Some (dim', rs') ->
  refines n (planes t) (triangular_loops fuel t rows d) rs dim' rs'
  /\ (ok rows d rs' /\ 0 <= dim').
Proof.
  intros Hok Hp. unfold triangular_loops, triangular_rows in *.
  eapply (refines_for_each n (planes t) (fun dim rs => ok rows d rs /\ 0 <= dim) _
            (fun row s => p_while fuel (fun s => fst s <? d)
                            (triangular_body_rows rows row) s)).
  - intros row dim rs0 dim1 rs1 Hin [HJ Hd0] Heq. apply in_range in Hin.
    eapply (refines_while n (planes t) (fun dim rs => ok rows d rs /\ 0 <= dim)
              (fun dim => dim <? d)); [|split; eauto|exact Heq].
    intros dim2 rs2 [HJ2 Hd2] Hcond. apply Z.ltb_lt in Hcond.
    apply refines_triangular_body; auto; lia.
  - split; [exact Hok|lia].
  - exact Hp.
Qed.
End Refinement.

(** ** The RREF reducer refines its row-level view *)

(** Lines 153-158: [lst[row] = lst[row] +/- lst[under_row] * sub_factor]. *)
Lemma refines_cancel_block n lst rs row under_row sub_factor (positive : bool) :
  0 <= row < Z.of_nat (length rs) ->
  0 <= under_row < Z.of_nat (length rs) ->
  refines n lst
    (let* under := list_getitem lst under_row in
     let* reduction_plane := plane_mul under sub_factor in
     let* new :=
       if positive then
         let* cur := list_getitem lst row in
         plane_add cur reduction_plane
       else
         let* cur := list_getitem lst row in
         plane_sub cur reduction_plane in
     list_setitem lst row new)
    rs tt
    (set_row rs row
       (if positive
        then plane_plus (row_at rs row) (plane_scale (row_at rs under_row) sub_factor)
        else plane_minus (row_at rs row) (plane_scale (row_at rs under_row) sub_factor))).
Proof.
  intros Hi Hj h Hw.
  destruct (work_bounds _ _ _ _ Hw) as [Hn Hlt].
  apply wp_bind. eapply wp_list_getitem; [done..|]. intros l1 Hl1 Hn1.
  apply wp_bind. eapply wp_plane_mul; [done|].
  pose proof (work_alloc _ _ _ _
    (OPlane (plane_scale (row_at rs under_row) sub_factor)) Hw) as Hw1.
  set (h1 := h ++ [OPlane (plane_scale (row_at rs under_row) sub_factor)]) in *.
  assert (Hlen1 : (n <= length h1)%nat) by (subst h1; rewrite length_app; lia).
  destruct positive.
  - apply wp_bind. apply wp_bind.
    eapply wp_list_getitem; [exact Hw1|done|]. intros l2 Hl2 Hn2.
    eapply wp_plane_add; [exact Hl2|apply is_plane_new|].
    eapply wp_list_setitem; [eapply work_alloc, Hw1|done|apply is_plane_new|lia|].
    intros h3 Hw3 He3. split; [done|]. split; [exact Hw3|].
    eapply ext_trans; [|exact He3]. eapply ext_trans; apply ext_alloc.
  - apply wp_bind. apply wp_bind.
    eapply wp_list_getitem; [exact Hw1|done|]. intros l2 Hl2 Hn2.
    eapply wp_plane_sub; [exact Hl2|apply is_plane_new|].
    eapply wp_list_setitem; [eapply work_alloc, Hw1|done|apply is_plane_new|lia|].
    intros h3 Hw3 He3. split; [done|]. split; [exact Hw3|].
    eapply ext_trans; [|exact He3]. eapply ext_trans; apply ext_alloc.
Qed.

(** Lines 172-173: [lst[row] = lst[row] * sub_factor]. *)
Lemma refines_scale_block n lst rs row sub_factor :
  0 <= row < Z.of_nat (length rs) ->
  refines n lst
    (let* cur := list_getitem lst row in
     let* scaled := plane_mul cur sub_factor in
     list_setitem lst row scaled)
    rs tt
    (set_row rs row (plane_scale (row_at rs row) sub_factor)).
Proof.
  intros Hi h Hw.
  destruct (work_bounds _ _ _ _ Hw) as [Hn Hlt].
  apply wp_bind. eapply wp_list_getitem; [done..|]. intros l1 Hl1 Hn1.
  apply wp_bind. eapply wp_plane_mul; [done|].
  eapply wp_list_setitem; [eapply work_alloc, Hw|done|apply is_plane_new|lia|].
  intros h3 Hw3 He3. split; [done|]. split; [exact Hw3|].
  eapply ext_trans; [|exact He3]. apply ext_alloc.
Qed.

Section RrefRefinement.
Variables (n : nat) (r : LinearSystem) (rows d : Z).

Lemma ok_rref_cancel_step row dim c range_index rs :
  ok rows d rs -> 0 <= row < rows -> 0 <= range_index + 1 < rows ->
  ok rows d (rref_cancel_step row dim c range_index rs).
Proof.
  intros Hok Hrow Hnext. unfold rref_cancel_step.
  destruct (negb _); [|done].
  apply ok_set_row; [done|].
  destruct (is_neg c).
  - rewrite plane_dimension_plus; [eauto with linsys|].
    rewrite plane_dimension_scale. erewrite !ok_row_at; eauto.
  - rewrite plane_dimension_minus; [eauto with linsys|].
    rewrite plane_dimension_scale. erewrite !ok_row_at; eauto.
Qed.

Lemma refines_rref_cancel row dim c rs :
  ok rows d rs -> 0 <= row < rows -> 0 <= dim < d ->
  refines n (planes r) (rref_cancel r rows row dim c) rs tt
    (rref_cancel_rows rows row dim c rs)
  /\ ok rows d (rref_cancel_rows rows row dim c rs).
Proof.
  intros Hok Hrow Hdim. unfold rref_cancel, rref_cancel_rows.
  eapply (refines_for_each n (planes r) (fun _ rs => ok rows d rs) _
            (fun ri s => Some (tt, rref_cancel_step row dim c ri (snd s)))).
  - intros x [] rs0 s' rs' Hin HJ Heq. apply in_range in Hin.
    injection Heq as <- <-. simpl.
    split; [|apply ok_rref_cancel_step; auto; lia].
    pose proof HJ as [Hlen _].
    eapply refines_bind.
    { apply refines_coefficient_at; [lia|]. erewrite ok_row_at; eauto; lia. }
    unfold rref_cancel_step.
    destruct (is_zero (round3 (coef rs0 (x + 1) dim))) eqn:Ez; simpl;
      [apply refines_ret|].
    eapply refines_bind; [by apply refines_py_div|].
    apply refines_cancel_block; lia.
  - exact Hok.
  - apply p_for_unit.
Qed.

Lemma refines_rref_body row dim rs :
  ok rows d rs -> 0 <= row < rows -> 0 <= dim < d ->
  match rref_body_rows rows row (dim, rs) with
  | Continue (dim', rs') =>
      refines n (planes r) (rref_body r rows row dim) rs (Continue dim') rs'
      /\ (ok rows d rs' /\ dim' < d)
  | Break (dim', rs') =>
      refines n (planes r) (rref_body r rows row dim) rs (Break dim') rs'
      /\ (ok rows d rs' /\ dim' < d)
  end.
Proof.
  intros Hok Hrow Hdim. pose proof Hok as [Hlen _].
  assert (Hc : refines n (planes r) (coefficient_at r row dim) rs (coef rs row dim) rs).
  { apply refines_coefficient_at; [lia|]. erewrite ok_row_at; eauto. }
  unfold rref_body_rows, rref_body. simpl.
  destruct (is_zero (coef rs row dim)) eqn:Ez; simpl.
  - split; [|split; [done|lia]].
    eapply refines_bind; [exact Hc|]. rewrite Ez. simpl.
    eapply refines_bind; apply refines_ret.
  - destruct (refines_rref_cancel row dim (coef rs row dim) rs) as [Hs Hok']; auto.
    split; [|split; [done|lia]].
    eapply refines_bind; [exact Hc|]. rewrite Ez. simpl.
    eapply refines_bind; [exact Hs|]. apply refines_ret.
Qed.

Lemma refines_rref_backward fuel rs dim' rs' :
  ok rows d rs ->
  rref_backward_rows fuel rows (d - 1) rs = Some (dim', rs') ->
  refines n (planes r) (rref_backward fuel r rows (d - 1)) rs dim' rs'
  /\ (ok rows d rs' /\ dim' < d).
Proof.
  intros Hok Hp. unfold rref_backward, rref_backward_rows in *.
  eapply (refines_for_each n (planes r) (fun dim rs => ok rows d rs /\ dim < d) _
            (fun row s =>
               match p_while fuel (fun s => -1 <? fst s) (rref_body_rows rows row) s with
               | Some s' => Some (d - 1, snd s')
               | None => None
               end)).
  - intros row dim rs0 dim1 rs1 Hin [HJ Hd0] Heq. apply in_range_down in Hin.
    destruct (p_while _ _ _ _) as [[dim2 rs2]|] eqn:Ew; [|done].
    injection Heq as <- <-. simpl.
    destruct (refines_while n (planes r) (fun dim rs => ok rows d rs /\ dim < d)
                (fun dim => -1 <? dim) (rref_body r rows row) (rref_body_rows rows row))
      with (fuel := fuel) (s := dim) (rs := rs0) (s' := dim2) (rs' := rs2)
      as [Hr [HJ' _]]; auto.
    { intros dim3 rs3 [HJ3 Hd3] Hcond. apply Z.ltb_lt in Hcond.
      apply refines_rref_body; auto; lia. }
    split; [|split; [done|lia]].
    eapply refines_bind; [exact Hr|apply refines_ret].
  - split; [exact Hok|lia].
  - exact Hp.
Qed.

Lemma refines_normalise_body row dim rs :
  ok rows d rs -> 0 <= row < rows -> 0 <= dim < d ->
  match normalise_body_rows row (dim, rs) with
  | Continue (dim', rs') =>
      refines n (planes r) (normalise_body r row dim) rs (Continue dim') rs'
      /\ (ok rows d rs' /\ dim' < d)
  | Break (dim', rs') =>
      refines n (planes r) (normalise_body r row dim) rs (Break dim') rs'
      /\ (ok rows d rs' /\ dim' < d)
  end.
Proof.
  intros Hok Hrow Hdim. pose proof Hok as [Hlen _].
  assert (Hc : refines n (planes r) (coefficient_at r row dim) rs (coef rs row dim) rs).
  { apply refines_coefficient_at; [lia|]. erewrite ok_row_at; eauto. }
  unfold normalise_body_rows, normalise_body. simpl.
  destruct (is_zero (coef rs row dim)) eqn:Ez; simpl.
  - split; [|split; [done|lia]].
    eapply refines_bind; [exact Hc|]. rewrite Ez. simpl.
    eapply refines_bind; apply refines_ret.
  - split.
    + eapply refines_bind; [exact Hc|]. rewrite Ez. simpl.
      eapply refines_bind; [|apply refines_ret].
      eapply refines_bind; [by apply refines_py_div|].
      apply refines_scale_block. lia.
    + split; [|lia]. apply ok_set_row; [done|].
      rewrite plane_dimension_scale. eauto with linsys.
Qed.

Lemma refines_rref_normalise fuel dim rs dim' rs' :
  ok rows d rs -> dim < d ->
  rref_normalise_rows fuel rows dim rs = Some (dim', rs') ->
  refines n (planes r) (rref_normalise fuel r rows dim) rs dim' rs'
  /\ (ok rows d rs' /\ dim' < d).
Proof.
  intros Hok Hdim Hp. unfold rref_normalise, rref_normalise_rows in *.
  eapply (refines_for_each n (planes r) (fun dim rs => ok rows d rs /\ dim < d) _
            (fun row s =>
               p_while fuel (fun s => -1 <? fst s) (normalise_body_rows row) s)).
  - intros row dim0 rs0 dim1 rs1 Hin [HJ Hd0] Heq. apply in_range_down in Hin.
    eapply (refines_while n (planes r) (fun dim rs => ok rows d rs /\ dim < d)
              (fun dim => -1 <? dim)); [|split; eauto|exact Heq].
    intros dim3 rs3 [HJ3 Hd3] Hcond. apply Z.ltb_lt in Hcond.
    apply refines_normalise_body; auto; lia.
  - split; [exact Hok|lia].
  - exact Hp.
Qed.
End RrefRefinement.

(** ** [deepcopy] *)

Lemma wp_deepcopy_planes (h0 : heap) :
  forall ls rs, Forall2 (is_plane h0) ls rs ->
  forall m acc accrs (hc : heap),
    (exists extra, hc = h0 ++ extra) ->
    memo_ok h0 hc m ->
    Forall2 (fun l p => is_plane hc l p /\ (length h0 <= l)%nat) acc accrs ->
    wp (for_each ls deepcopy_plane (m, acc))
       (fun r h' =>
          (exists extra, h' = h0 ++ extra) /\
          Forall2 (fun l p => is_plane h' l p /\ (length h0 <= l)%nat)
                  (snd r) (accrs ++ rs))
       hc.
Proof.
  induction 1 as [|l p ls rs Hp Hf IH]; intros m acc accrs hc Hpre Hm Hacc; simpl.
  - apply wp_ret. simpl. rewrite app_nil_r. auto.
  - apply wp_bind. destruct (memo_find m l) as [l'|] eqn:Em.
    + apply wp_ret.
      replace (accrs ++ p :: rs) with ((accrs ++ [p]) ++ rs)
        by (by rewrite <- app_assoc).
      apply IH; [done..|].
      apply Forall2_app; [done|]. destruct (Hm l l' Em) as [Hle Hpl].
      constructor; [auto|constructor].
    + destruct Hpre as [extra ->].
      apply wp_bind. eapply wp_get_plane; [by apply lookup_app_l_Some|].
      apply wp_bind. unfold wp at 1. simpl. apply wp_ret.
      replace (accrs ++ p :: rs) with ((accrs ++ [p]) ++ rs)
        by (by rewrite <- app_assoc).
      apply IH.
      * exists (extra ++ [OPlane p]). by rewrite app_assoc.
      * intros k v. simpl. destruct (Nat.eqb_spec l k) as [->|Hne].
        -- intros [= <-]. split; [rewrite length_app; lia|].
           intros p' Hp'. unfold is_plane in Hp, Hp'.
           assert (p' = p) as -> by congruence. apply is_plane_new.
        -- intros Hk. destruct (Hm k v Hk) as [Hle Hpl].
           split; [done|]. intros p' Hp'. by apply is_plane_alloc, Hpl.
      * apply Forall2_app.
        -- eapply Forall2_impl; [|exact Hacc]. intros a b [Ha Hb].
           split; [by apply is_plane_alloc|done].
        -- constructor; [|constructor].
           split; [apply is_plane_new|rewrite length_app; lia].
Qed.

Lemma work_weaken n n' lst (h : heap) rs :
  (n' <= n)%nat -> work n lst h rs -> work n' lst h rs.
Proof.
  intros Hle [Hn (ls & Hl & Hf)]. split; [lia|]. exists ls. split; [done|].
  eapply Forall2_impl; [|exact Hf]. intros l p [Hp Hl']. split; [done|lia].
Qed.

Lemma wp_deepcopy (h : heap) s rs (Q : LinearSystem -> heap -> Prop) :
  rows_in h (planes s) rs ->
  (forall h' lst, work (length h) lst h' rs -> (exists extra, h' = h ++ extra) ->
     Q (mkSystem lst (dimension s)) h') ->
  wp (deepcopy s) Q h.
Proof.
  intros (ls & Hl & Hf) HQ. unfold deepcopy.
  apply wp_bind. eapply wp_get_list; [done|].
  apply wp_bind.
  eapply wp_mono.
  { apply (wp_deepcopy_planes h ls rs Hf [] [] [] h).
    - exists []. by rewrite app_nil_r.
    - intros k v. done.
    - constructor. }
  intros [m copies] h' [[extra ->] Hcopies]. simpl in *.
  apply wp_bind. unfold wp at 1. simpl. apply wp_ret.
  apply HQ.
  - split; [rewrite length_app; lia|]. exists copies. split.
    + rewrite lookup_app_r by lia. by rewrite Nat.sub_diag.
    + eapply Forall2_impl; [|exact Hcopies]. intros a b [Ha Hb].
      split; [by apply is_plane_alloc|done].
  - exists (extra ++ [OList copies]). by rewrite app_assoc.
Qed.

(** ** The two methods on a well-formed system *)

Lemma wp_compute_triangular_form fuel (h : heap) s rs rs' :
  system_ok h s rs ->
  compute_triangular_form_rows fuel (dimension s) rs = Some rs' ->
  wp (compute_triangular_form fuel s)
     (fun t h' =>
        dimension t = dimension s /\
        work (length h) (planes t) h' rs' /\
        take (length h) h' = h /\
        ok (Z.of_nat (length rs)) (dimension s) rs')
     h.
Proof.
  intros [Hrows Hdim] Hp. unfold compute_triangular_form.
  unfold compute_triangular_form_rows in Hp.
  destruct (triangular_rows _ _ _ _) as [[dim' rs1]|] eqn:Et; [|done].
  injection Hp as <-. simpl.
  apply wp_bind. eapply wp_deepcopy; [done|]. intros h1 lst Hw [extra ->].
  apply wp_bind. eapply wp_list_len; [done|]. simpl.
  apply wp_bind.
  destruct (refines_triangular_loops (length h) (mkSystem lst (dimension s))
              (Z.of_nat (length rs)) (dimension s) fuel rs dim' rs1)
    as [Hr [Hok _]]; [by split|done|].
  eapply wp_mono; [apply Hr, Hw|].
  intros a h2 (-> & Hw2 & He). apply wp_ret. simpl.
  split; [done|]. split; [done|]. split; [|done].
  destruct (work_bounds _ _ _ _ Hw2) as [Hn _].
  rewrite (ext_take _ _ _ _ He Hn) by (rewrite length_app; lia).
  apply take_app_length.
Qed.

Lemma wp_compute_rref_form fuel (h : heap) s rs rs' :
  system_ok h s rs ->
  compute_rref_form_rows fuel (dimension s) rs = Some rs' ->
  wp (compute_rref_form fuel s)
     (fun t h' =>
        dimension t = dimension s /\
        work (length h) (planes t) h' rs' /\
        take (length h) h' = h /\
        ok (Z.of_nat (length rs)) (dimension s) rs')
     h.
Proof.
  intros Hsys Hp. unfold compute_rref_form.
  unfold compute_rref_form_rows in Hp.
  destruct (compute_triangular_form_rows _ _ _) as [tri|] eqn:Et; [|done].
  destruct (rref_backward_rows _ _ _ _) as [[dim1 rs1]|] eqn:Eb; [|done].
  simpl in Hp.
  destruct (rref_normalise_rows _ _ _ _) as [[dim2 rs2]|] eqn:En; [|done].
  injection Hp as <-. simpl.
  apply wp_bind.
  eapply wp_mono; [eapply wp_compute_triangular_form; eauto|].
  intros t h1 (Hdt & Hw1 & Hfr1 & Hok1). pose proof Hok1 as [Hlen1 _].
  assert (Hh1 : (length h <= length h1)%nat).
  { rewrite <- Hfr1 at 1. rewrite length_take. lia. }
  apply wp_bind. eapply wp_deepcopy; [by eapply work_rows_in|].
  intros h2 lst Hw2 [extra ->].
  apply wp_bind. eapply wp_list_len; [done|]. simpl. rewrite Hdt.
  apply wp_bind.
  destruct (refines_rref_backward (length h1) (mkSystem lst (dimension s))
              (Z.of_nat (length tri)) (dimension s) fuel tri dim1 rs1)
    as [Hr [Hok2 Hd1]]; [by rewrite Hlen1|done|].
  eapply wp_mono; [apply Hr, Hw2|].
  intros a h3 (-> & Hw3 & He3). simpl.
  apply wp_bind. eapply wp_list_len; [done|].
  apply wp_bind.
  pose proof Hok2 as [Hlen2 _].
  destruct (refines_rref_normalise (length h1) (mkSystem lst (dimension s))
              (Z.of_nat (length tri)) (dimension s) fuel dim1 rs1 dim2 rs2)
    as [Hr' [Hok3 _]]; [done|done|by rewrite <- Hlen2|].
  rewrite Hlen2.
  eapply wp_mono; [apply Hr', Hw3|].
  intros a h4 (-> & Hw4 & He4). apply wp_ret. simpl.
  split; [done|]. split; [by eapply work_weaken|]. split; [|by rewrite <- Hlen1].
  destruct (work_bounds _ _ _ _ Hw4) as [Hn _].
  pose proof (ext_trans _ _ _ _ He3 He4) as He.
  assert (Hfr : take (length h1) h4 = h1).
  { rewrite (ext_take _ _ _ _ He Hn) by (rewrite length_app; lia).
    apply take_app_length. }
  transitivity (take (length h) (take (length h1) h4)).
  { rewrite take_take. f_equal. lia. }
  rewrite Hfr. exact Hfr1.
Qed.

(** * Termination of the row-level loops *)

Lemma p_while_inv {S} (I : S -> Prop) cond (body : S -> ctl S) :
  (forall s, I s -> cond s = true ->
     match body s with Continue s' => I s' | Break s' => I s' end) ->
  forall fuel s s', I s -> p_while fuel cond body s = Some s' -> I s'.
Proof.
  intros Hbody. induction fuel as [|fuel IH]; intros s s' HI Hp; simpl in *; [done|].
  destruct (cond s) eqn:Ec; [|by injection Hp as <-].
  specialize (Hbody s HI Ec).
  destruct (body s) as [s1|s1]; [eauto|by injection Hp as <-].
Qed.

Lemma p_while_terminates {S} (I : S -> Prop) (mu : S -> nat) cond (body : S -> ctl S) :
  (forall s, I s -> cond s = true ->
     match body s with
     | Continue s' => I s' /\ (mu s' < mu s)%nat
     | Break _ => True
     end) ->
  forall fuel s, I s -> (mu s < fuel)%nat -> is_Some (p_while fuel cond body s).
Proof.
  intros Hbody. induction fuel as [|fuel IH]; intros s HI Hmu; simpl; [lia|].
  destruct (cond s) eqn:Ec; [|eauto].
  specialize (Hbody s HI Ec).
  destruct (body s) as [s1|s1]; [|eauto].
  destruct Hbody as [HI1 Hlt]. apply IH; [done|lia].
Qed.

Lemma p_for_terminates {A S} (I : S -> Prop) (body : A -> S -> option S) xs :
  (forall x s, In x xs -> I s -> exists s', body x s = Some s' /\ I s') ->
  forall s, I s -> exists s', p_for xs body s = Some s' /\ I s'.
Proof.
  induction xs as [|x xs IH]; intros Hbody s HI; simpl; [eauto|].
  destruct (Hbody x s) as (s1 & -> & HI1); [by left|done|].
  apply IH; [|done]. intros y s0 Hy. apply Hbody. by right.
Qed.

Lemma is_pos_not_zero x : is_pos x = true -> is_zero x = false.
Proof.
  unfold is_pos, is_zero. intros H. apply bool_decide_eq_true in H.
  apply bool_decide_eq_false. intros ->. by apply Qclt_not_eq in H.
Qed.

Section RowLevel.
Variables (rows d : Z).

Lemma ok_swap_search_rows row dim rs :
  ok rows d rs -> 0 <= row < rows -> 0 <= dim < d ->
  ok rows d (snd (swap_search_rows rows row dim rs)).
Proof. intros. by eapply (refines_swap_search 0%nat (mkSystem 0%nat 0)). Qed.

Lemma ok_clear_below_rows row dim c rs :
  ok rows d rs -> 0 <= row < rows ->
  ok rows d (clear_below_rows rows row dim c rs).
Proof.
  intros Hok Hrow. unfold clear_below_rows.
  assert (H : forall xs rs, (forall x, In x xs -> 0 <= x < rows) -> ok rows d rs ->
            ok rows d (fold_left (fun rs nr => clear_step row dim c nr rs) xs rs)).
  { induction xs as [|x xs IH]; intros rs0 Hxs Hrs; simpl; [done|].
    apply IH; [intros; apply Hxs; by right|].
    apply ok_clear_step; auto. apply Hxs. by left. }
  apply H; [|done]. intros x Hx. apply in_range in Hx. lia.
Qed.

Lemma ok_rref_cancel_rows row dim c rs :
  ok rows d rs -> 0 <= row < rows ->
  ok rows d (rref_cancel_rows rows row dim c rs).
Proof.
  intros Hok Hrow. unfold rref_cancel_rows.
  assert (H : forall xs rs, (forall x, In x xs -> 0 <= x + 1 < rows) -> ok rows d rs ->
            ok rows d (fold_left (fun rs ri => rref_cancel_step row dim c ri rs) xs rs)).
  { induction xs as [|x xs IH]; intros rs0 Hxs Hrs; simpl; [done|].
    apply IH; [intros; apply Hxs; by right|].
    apply ok_rref_cancel_step; auto. apply Hxs. by left. }
  apply H; [|done]. intros x Hx. apply in_range in Hx. lia.
Qed.

(** A swap leaves a positive coefficient under the cursor. *)
Lemma swap_search_rows_found row dim rs :
  ok rows d rs -> 0 <= row < rows ->
  fst (swap_search_rows rows row dim rs) = true ->
  is_pos (coef (snd (swap_search_rows rows row dim rs)) row dim) = true.
Proof.
  intros Hok Hrow. unfold swap_search_rows.
  assert (H : forall xs s,
            (forall x, In x xs -> row < x < rows) ->
            ok rows d (snd s) ->
            (fst s = true -> is_pos (coef (snd s) row dim) = true) ->
            fst (fold_left (fun s nr => swap_search_step row dim nr s) xs s) = true ->
            is_pos (coef (snd (fold_left (fun s nr => swap_search_step row dim nr s) xs s))
                      row dim) = true).
  { induction xs as [|x xs IH]; intros s Hxs Hs Hinv; simpl; [done|].
    assert (Hx : row < x < rows) by (apply Hxs; by left).
    apply IH; [intros; apply Hxs; by right| |].
    - unfold swap_search_step. destruct (is_pos (coef (snd s) x dim)); [|done].
      simpl. apply ok_swap_rows_rows; auto; lia.
    - unfold swap_search_step. destruct (is_pos (coef (snd s) x dim)) eqn:E; [|done].
      simpl. intros _. destruct Hs as [Hlen _].
      unfold coef, swap_rows_rows.
      rewrite row_at_set_row_ne by lia.
      rewrite row_at_set_row_eq by lia. exact E. }
  apply H; [|done|]. 2: { simpl. done. } intros x Hx. apply in_range in Hx. lia.
Qed.

Lemma triangular_body_rows_ok row s :
  ok rows d (snd s) /\ 0 <= fst s -> 0 <= row < rows -> fst s < d ->
  match triangular_body_rows rows row s with
  | Continue s' => (ok rows d (snd s') /\ 0 <= fst s')
                   /\ (triangular_measure d row s' < triangular_measure d row s)%nat
  | Break s' => ok rows d (snd s') /\ 0 <= fst s'
  end.
Proof.
  intros [Hok Hd0] Hrow Hd. destruct s as [dim rs]. simpl in *.
  unfold triangular_body_rows. simpl.
  destruct (is_zero (coef rs row dim)) eqn:Ez.
  - pose proof (ok_swap_search_rows row dim rs Hok Hrow ltac:(lia)) as Hok'.
    pose proof (swap_search_rows_found row dim rs Hok Hrow) as Hfound.
    destruct (swap_search_rows rows row dim rs) as [swap rs']. simpl in *.
    unfold triangular_measure. simpl. rewrite Ez.
    destruct (Z.leb_spec d dim); [lia|].
    destruct swap; simpl.
    + split; [split; [done|lia]|].
      destruct (Z.leb_spec d dim); [lia|].
      rewrite (is_pos_not_zero _ (Hfound eq_refl)). lia.
    + split; [split; [done|lia]|].
      destruct (Z.leb_spec d (dim + 1)); [lia|].
      destruct (is_zero (coef rs' row (dim + 1))); lia.
  - simpl. split; [|lia]. by apply ok_clear_below_rows.
Qed.

Lemma ok_dimension_nonneg row rs :
  ok rows d rs -> 0 <= row < rows -> 0 <= d.
Proof.
  intros Hok Hrow. rewrite <- (ok_row_at rows d rs row Hok Hrow).
  unfold plane_dimension. lia.
Qed.

Lemma triangular_while_terminates fuel row dim rs :
  ok rows d rs -> 0 <= row < rows -> 0 <= dim ->
  d + 2 <= Z.of_nat fuel ->
  exists s', p_while fuel (fun s => fst s <? d) (triangular_body_rows rows row) (dim, rs)
             = Some s' /\ (ok rows d (snd s') /\ 0 <= fst s').
Proof.
  intros Hok Hrow Hdim Hfuel.
  pose proof (ok_dimension_nonneg row rs Hok Hrow) as Hd.
  set (I := fun s : Z * list Plane => ok rows d (snd s) /\ 0 <= fst s).
  destruct (p_while_terminates I (triangular_measure d row)
              (fun s => fst s <? d) (triangular_body_rows rows row)) with
    (fuel := fuel) (s := (dim, rs)) as [s' Hs'].
  - intros s HI Hc. apply Z.ltb_lt in Hc.
    pose proof (triangular_body_rows_ok row s HI Hrow Hc) as H.
    destruct (triangular_body_rows rows row s); [exact H|done].
  - by split.
  - unfold triangular_measure. simpl.
    destruct (Z.leb_spec d dim); [lia|]. destruct (is_zero (coef rs row dim)); lia.
  - exists s'. split; [done|].
    apply (p_while_inv I (fun s => fst s <? d) (triangular_body_rows rows row))
      with (fuel := fuel) (s := (dim, rs)); [|by split|exact Hs'].
    intros s HI Hc. apply Z.ltb_lt in Hc.
    pose proof (triangular_body_rows_ok row s HI Hrow Hc) as H.
    destruct (triangular_body_rows rows row s); [apply H|exact H].
Qed.

Lemma triangular_rows_terminates fuel rs :
  ok rows d rs -> d + 2 <= Z.of_nat fuel ->
  exists s', triangular_rows fuel rows d rs = Some s'
             /\ (ok rows d (snd s') /\ 0 <= fst s').
Proof.
  intros Hok Hfuel. unfold triangular_rows.
  apply (p_for_terminates (fun s => ok rows d (snd s) /\ 0 <= fst s)).
  - intros row [dim rs0] Hin [Hok0 Hd0]. apply in_range in Hin.
    apply triangular_while_terminates; auto; lia.
  - by split.
Qed.

(** The cursor loops of the RREF reducer count down. *)
Lemma countdown_terminates (body : Z * list Plane -> ctl (Z * list Plane))
    (I : Z * list Plane -> Prop) fuel s :
  (forall s, I s -> 0 <= fst s ->
     exists rs', body s = Continue (fst s - 1, rs') /\ I (fst s - 1, rs')) ->
  I s -> fst s + 2 <= Z.of_nat fuel -> 1 <= Z.of_nat fuel ->
  exists s', p_while fuel (fun s => -1 <? fst s) body s = Some s' /\ I s'.
Proof.
  intros Hbody HI Hfuel Hfuel1.
  destruct (p_while_terminates I (fun s => Z.to_nat (fst s + 1))
              (fun s => -1 <? fst s) body) with (fuel := fuel) (s := s) as [s' Hs'].
  - intros s0 HI0 Hc. apply Z.ltb_lt in Hc.
    destruct (Hbody s0 HI0) as (rs' & -> & HI'); [lia|].
    split; [done|]. simpl. lia.
  - done.
  - lia.
  - exists s'. split; [done|].
    apply (p_while_inv I (fun s => -1 <? fst s) body)
      with (fuel := fuel) (s := s); [|exact HI|exact Hs'].
    intros s0 HI0 Hc. apply Z.ltb_lt in Hc.
    destruct (Hbody s0 HI0) as (rs' & -> & HI'); [lia|]. done.
Qed.

Lemma rref_backward_rows_terminates fuel rs :
  ok rows d rs -> d + 1 <= Z.of_nat fuel ->
  exists s', rref_backward_rows fuel rows (d - 1) rs = Some s'
             /\ (ok rows d (snd s') /\ fst s' < d).
Proof.
  intros Hok Hfuel. unfold rref_backward_rows.
  apply (p_for_terminates (fun s => ok rows d (snd s) /\ fst s < d)).
  - intros row [dim rs0] Hin [Hok0 Hd0]. apply in_range_down in Hin.
    simpl in *.
    pose proof (ok_dimension_nonneg row rs0 Hok0 ltac:(lia)) as Hd.
    destruct (countdown_terminates (rref_body_rows rows row)
                (fun s => ok rows d (snd s) /\ fst s < d) fuel (dim, rs0))
      as (s' & -> & Hok' & _).
    + intros [dim1 rs1] [Hok1 Hd1] Hd1'. simpl in *.
      unfold rref_body_rows. simpl. eexists. split; [reflexivity|].
      simpl. split; [|lia].
      destruct (negb _); [|done]. apply ok_rref_cancel_rows; auto; lia.
    + by split.
    + simpl. lia.
    + lia.
    + eexists. split; [reflexivity|]. simpl. split; [done|lia].
  - simpl. split; [done|lia].
Qed.

Lemma rref_normalise_rows_terminates fuel dim rs :
  ok rows d rs -> dim < d -> d + 1 <= Z.of_nat fuel ->
  exists s', rref_normalise_rows fuel rows dim rs = Some s'
             /\ (ok rows d (snd s') /\ fst s' < d).
Proof.
  intros Hok Hdim Hfuel. unfold rref_normalise_rows.
  apply (p_for_terminates (fun s => ok rows d (snd s) /\ fst s < d)).
  - intros row [dim0 rs0] Hin [Hok0 Hd0]. apply in_range_down in Hin.
    simpl in *.
    pose proof (ok_dimension_nonneg row rs0 Hok0 ltac:(lia)) as Hd.
    apply countdown_terminates.
    + intros [dim1 rs1] [Hok1 Hd1] Hd1'. simpl in *.
      unfold normalise_body_rows. simpl. eexists. split; [reflexivity|].
      simpl. split; [|lia].
      destruct (negb _); [|done]. apply ok_set_row; [done|].
      rewrite plane_dimension_scale. eapply ok_row_at; eauto. lia.
    + by split.
    + simpl in *. lia.
    + lia.
  - by split.
Qed.
End RowLevel.

Lemma compute_triangular_form_rows_terminates fuel d rs :
  same_dimension d rs -> d + 2 <= Z.of_nat fuel ->
  exists rs', compute_triangular_form_rows fuel d rs = Some rs'
              /\ ok (Z.of_nat (length rs)) d rs'.
Proof.
  intros Hd Hfuel. unfold compute_triangular_form_rows.
  destruct (triangular_rows_terminates (Z.of_nat (length rs)) d fuel rs)
    as ([dim' rs'] & -> & Hok & _); [by split|done|]. eauto.
Qed.

Lemma compute_rref_form_rows_terminates fuel d rs :
  same_dimension d rs -> d + 2 <= Z.of_nat fuel ->
  exists rs', compute_rref_form_rows fuel d rs = Some rs'
              /\ ok (Z.of_nat (length rs)) d rs'.
Proof.
  intros Hd Hfuel. unfold compute_rref_form_rows.
  destruct (compute_triangular_form_rows_terminates fuel d rs Hd Hfuel)
    as (tri & -> & Hok). pose proof Hok as [Hlen _].
  rewrite Hlen.
  destruct (rref_backward_rows_terminates (Z.of_nat (length rs)) d fuel tri)
    as ([dim1 rs1] & -> & Hok1 & Hd1); [done|lia|]. simpl in *.
  pose proof Hok1 as [Hlen1 _]. rewrite Hlen1.
  destruct (rref_normalise_rows_terminates (Z.of_nat (length rs)) d fuel dim1 rs1)
    as ([dim2 rs2] & -> & Hok2 & _); [done|done|lia|]. eauto.
Qed.

(** * Construction and row replacement *)

Lemma run_bind_ret {A B} (m : M A) (k : A -> M B) (h h' : heap) a :
  m h = (h', Ret a) -> bind m k h = k a h'.
Proof. unfold bind. by intros ->. Qed.

Lemma run_bind_raise {A B} (m : M A) (k : A -> M B) (h h' : heap) e :
  m h = (h', Raise e) -> bind m k h = (h', Raise e).
Proof. unfold bind. by intros ->. Qed.

Lemma run_get_list (h : heap) l ls :
  h !! l = Some (OList ls) -> get_list l h = (h, Ret ls).
Proof. unfold get_list. by intros ->. Qed.

Lemma run_dimension_of (h : heap) l p :
  is_plane h l p -> dimension_of l h = (h, Ret (plane_dimension p)).
Proof. unfold dimension_of, bind, get_plane, is_plane. by intros ->. Qed.

(** The loop of line 20-21 on rows that agree with [dim]. *)
Lemma init_loop_same (h : heap) dim ls ps :
  Forall2 (is_plane h) ls ps ->
  Forall (fun q => plane_dimension q = dim) ps ->
  for_each ls (fun plane _ => let* d := dimension_of plane in py_assert (d =? dim)) tt h
  = (h, Ret tt).
Proof.
  induction 1 as [|l p ls ps Hp Hf IH]; intros Hall; simpl; [done|].
  inversion Hall as [|? ? Hd Hrest]; subst.
  erewrite run_bind_ret; [|erewrite run_bind_ret; [|by apply run_dimension_of]].
  - by apply IH.
  - by rewrite Z.eqb_refl.
Qed.

(** The same loop when some row disagrees. *)
Lemma init_loop_mismatch (h : heap) dim ls ps :
  Forall2 (is_plane h) ls ps ->
  Exists (fun q => plane_dimension q <> dim) ps ->
  for_each ls (fun plane _ => let* d := dimension_of plane in py_assert (d =? dim)) tt h
  = (h, Raise AssertionError).
Proof.
  induction 1 as [|l p ls ps Hp Hf IH]; intros Hex; simpl.
  - by apply Exists_nil in Hex.
  - destruct (Z.eqb_spec (plane_dimension p) dim) as [Heq|Hne].
    + erewrite run_bind_ret; [|erewrite run_bind_ret; [|by apply run_dimension_of]].
      * apply IH. apply Exists_cons in Hex as [Hex|Hex]; [done|exact Hex].
      * apply Z.eqb_eq in Heq. by rewrite Heq.
    + rewrite (run_bind_raise _ _ h h AssertionError); [reflexivity|].
      erewrite run_bind_ret; [|by apply run_dimension_of].
      apply Z.eqb_neq in Hne. by rewrite Hne.
Qed.

Lemma run_init_first (h : heap) lst l ls :
  h !! lst = Some (OList (l :: ls)) -> list_getitem lst 0 h = (h, Ret l).
Proof.
  intros Hl. unfold list_getitem.
  erewrite run_bind_ret; [|by apply run_get_list]. done.
Qed.

Lemma py_index_lt size i n : py_index size i = Some n -> (n < size)%nat.
Proof.
  unfold py_index.
  destruct ((0 <=? i) && (i <? Z.of_nat size)) eqn:E1.
  - intros [= <-]. apply andb_prop in E1 as [Ha Hb].
    apply Z.leb_le in Ha. apply Z.ltb_lt in Hb. lia.
  - destruct ((- Z.of_nat size <=? i) && (i <? 0)) eqn:E2; [|done].
    intros [= <-]. apply andb_prop in E2 as [Ha Hb].
    apply Z.leb_le in Ha. apply Z.ltb_lt in Hb. lia.
Qed.

Lemma init_mismatch (h : heap) lst p ps :
  rows_in h lst (p :: ps) ->
  Exists (fun q => plane_dimension q <> plane_dimension p) ps ->
  __init__ lst h = (h, Raise (Exception SAME_DIM_MSG)).
Proof.
  intros (ls & Hl & Hf) Hex.
  inversion Hf as [|l ? ls' ? Hp Hf']; subst.
  unfold __init__, try_except_AssertionError.
  erewrite run_bind_ret; [|by eapply run_init_first].
  erewrite run_bind_ret; [|by apply run_dimension_of].
  erewrite run_bind_ret; [|by apply run_get_list].
  rewrite (run_bind_raise _ _ h h AssertionError); [reflexivity|].
  eapply init_loop_mismatch; [exact Hf|]. by apply Exists_cons_tl.
Qed.

Lemma init_same (h : heap) lst p ps :
  rows_in h lst (p :: ps) ->
  Forall (fun q => plane_dimension q = plane_dimension p) ps ->
  __init__ lst h = (h, Ret (mkSystem lst (plane_dimension p))).
Proof.
  intros (ls & Hl & Hf) Hall.
  inversion Hf as [|l ? ls' ? Hp Hf']; subst.
  unfold __init__, try_except_AssertionError.
  erewrite run_bind_ret; [|by eapply run_init_first].
  erewrite run_bind_ret; [|by apply run_dimension_of].
  erewrite run_bind_ret; [|by apply run_get_list].
  rewrite (run_bind_ret _ _ h h tt); [reflexivity|].
  eapply init_loop_same; [exact Hf|]. by constructor.
Qed.

(** What [__init__] returns is a well-formed system. *)
Lemma init_system_ok (h h' : heap) lst s p ps :
  rows_in h lst (p :: ps) ->
  __init__ lst h = (h', Ret s) ->
  h' = h /\ system_ok h s (p :: ps).
Proof.
  intros Hrows Hrun.
  destruct (Forall_Exists_dec (fun q => plane_dimension q = plane_dimension p)
              (fun q => Z.eq_dec (plane_dimension q) (plane_dimension p)) ps)
    as [Hall|Hex].
  - rewrite (init_same h lst p ps Hrows Hall) in Hrun.
    injection Hrun as <- <-. split; [done|]. split; [done|].
    simpl. by constructor.
  - rewrite (init_mismatch h lst p ps Hrows Hex) in Hrun. done.
Qed.

(** * The pivot scan *)

Section PivotScanFacts.
Variable MSG : string.
Variable fni : Plane -> list Qc -> exn + Z.

Lemma scan_body_run (h : heap) i l p indices :
  is_plane h l p -> (i < length indices)%nat ->
  (scan_body MSG fni) (i, l) indices h
  = (h, match fni p (normal_vector p) with
        | inr k => Ret (<[i := k]> indices)
        | inl (NoNonZeroElements msg) =>
            if String.eqb msg MSG then Ret indices
            else Raise (NoNonZeroElements msg)
        | inl e => Raise e
        end).
Proof.
  intros Hp Hi. unfold is_plane in Hp. apply Nat.ltb_lt in Hi.
  cbv [scan_body try_except_NoNonZeroElements bind call_first_nonzero_index
       get_plane indices_setitem ret raise fst snd].
  rewrite Hp.
  destruct (fni p (normal_vector p)) as [e|k].
  - destruct e; try done. by destruct (String.eqb msg MSG).
  - by rewrite Hi.
Qed.

Lemma scan_loop_heap (h : heap) ls ps :
  Forall2 (is_plane h) ls ps ->
  forall k indices, length indices = (k + length ls)%nat ->
    fst (for_each (combine (seq k (length ls)) ls) (scan_body MSG fni) indices h) = h.
Proof.
  induction 1 as [|l p ls ps Hp Hf IH]; intros k indices Hlen; simpl in *; [done|].
  unfold bind at 1. rewrite (scan_body_run h k l p indices Hp) by lia.
  destruct (fni p (normal_vector p)) as [e|x].
  - destruct e; try done. destruct (String.eqb msg MSG); [|done].
    apply IH. lia.
  - apply IH. rewrite length_insert. lia.
Qed.

Lemma scan_loop_quiet (h : heap) ls ps :
  Forall2 (is_plane h) ls ps ->
  Forall (quiet MSG fni) ps ->
  forall filled,
    for_each (combine (seq (length filled) (length ls)) ls) (scan_body MSG fni)
      (filled ++ replicate (length ls) (-1)) h
    = (h, Ret (filled ++ map (entry_of fni) ps)).
Proof.
  induction 1 as [|l p ls ps Hp Hf IH]; intros Hq filled; simpl in *; [done|].
  inversion Hq as [|? ? Hqp Hqs]; subst.
  unfold bind at 1. rewrite (scan_body_run h _ l p _ Hp)
    by (rewrite length_app; simpl; lia).
  assert (Hnext : forall x,
    for_each (combine (seq (S (length filled)) (length ls)) ls) (scan_body MSG fni)
      ((filled ++ [x]) ++ replicate (length ls) (-1)) h
    = (h, Ret (filled ++ x :: map (entry_of fni) ps))).
  { intros x. specialize (IH Hqs (filled ++ [x])).
    rewrite length_app in IH. simpl in IH.
    rewrite Nat.add_1_r in IH. rewrite IH. by rewrite <- app_assoc. }
  unfold entry_of at 1.
  destruct Hqp as [[x Hx]|Hsig].
  - rewrite Hx.
    replace (<[length filled := x]> (filled ++ -1 :: replicate (length ls) (-1)))
      with ((filled ++ [x]) ++ replicate (length ls) (-1)); [apply Hnext|].
    rewrite <- app_assoc. simpl.
    replace (length filled) with (length filled + 0)%nat at 1 by lia.
    by rewrite insert_app_r.
  - rewrite Hsig. rewrite String.eqb_refl.
    replace (filled ++ -1 :: replicate (length ls) (-1))
      with ((filled ++ [-1]) ++ replicate (length ls) (-1))
      by (by rewrite <- app_assoc).
    apply Hnext.
Qed.

Lemma scan_loop_raise (h : heap) pre p post e :
  Forall (quiet MSG fni) pre ->
  fni p (normal_vector p) = inl e ->
  e <> NoNonZeroElements MSG ->
  forall ls, Forall2 (is_plane h) ls (pre ++ p :: post) ->
  forall k indices, length indices = (k + length ls)%nat ->
    snd (for_each (combine (seq k (length ls)) ls) (scan_body MSG fni) indices h) = Raise e.
Proof.
  intros Hq He Hne. induction Hq as [|q pre Hqq Hq IH]; intros ls Hf k indices Hlen.
  - inversion Hf as [|l ? ls' ? Hp Hf']; subst. simpl in *.
    unfold bind at 1. rewrite (scan_body_run h k l p indices Hp) by lia.
    rewrite He. destruct e; try done.
    destruct (String.eqb_spec msg MSG) as [->|]; [done|done].
  - inversion Hf as [|l ? ls' ? Hp Hf']; subst. simpl in *.
    unfold bind at 1. rewrite (scan_body_run h k l q indices Hp) by lia.
    destruct Hqq as [[x Hx]|Hsig].
    + rewrite Hx. apply IH; [done|]. rewrite length_insert. lia.
    + rewrite Hsig, String.eqb_refl. apply IH; [done|]. lia.
Qed.
End PivotScanFacts.

Lemma first_nonzero_None xs :
  first_nonzero xs = None -> Forall (fun x => x = Q2Qc 0) xs.
Proof.
  induction xs as [|x xs IH]; simpl; [constructor|].
  unfold is_zero. destruct (bool_decide_reflect (x = Q2Qc 0)) as [->|Hx]; [|done].
  destruct (first_nonzero xs); [done|]. intros _. constructor; auto.
Qed.

Lemma first_nonzero_Some xs k :
  first_nonzero xs = Some k ->
  (exists x, xs !! k = Some x /\ x <> Q2Qc 0)
  /\ forall j, (j < k)%nat -> xs !! j = Some (Q2Qc 0).
Proof.
  revert k. induction xs as [|x xs IH]; intros k; simpl; [done|].
  unfold is_zero. destruct (bool_decide_reflect (x = Q2Qc 0)) as [->|Hx].
  - destruct (first_nonzero xs) as [k'|]; [|done]. intros [= <-].
    destruct (IH k' eq_refl) as [Hk Hlt]. split; [exact Hk|].
    intros [|j] Hj; [done|]. simpl. apply Hlt. lia.
  - intros [= <-]. split; [eauto|]. intros j Hj. lia.
Qed.

Lemma quiet_model msg p : quiet msg (first_nonzero_index_model msg) p.
Proof.
  unfold quiet, first_nonzero_index_model.
  destruct (first_nonzero (normal_vector p)); eauto.
Qed.

Lemma entry_of_model msg p :
  entry_of (first_nonzero_index_model msg) p = pivot_index p.
Proof.
  unfold entry_of, first_nonzero_index_model, pivot_index, pivot.
  by destruct (first_nonzero (normal_vector p)).
Qed.

(** * A system in reduced row-echelon form is a fixed point *)

Lemma round3_0 : round3 (Q2Qc 0) = Q2Qc 0.
Proof. apply (bool_decide_unpack _). vm_compute. exact I. Qed.

Lemma round3_1 : round3 (Q2Qc 1) = Q2Qc 1.
Proof. apply (bool_decide_unpack _). vm_compute. exact I. Qed.

Lemma is_zero_true x : is_zero x = true <-> x = Q2Qc 0.
Proof. unfold is_zero. apply bool_decide_eq_true. Qed.

Lemma is_zero_false x : is_zero x = false <-> x <> Q2Qc 0.
Proof. unfold is_zero. apply bool_decide_eq_false. Qed.

Lemma round3_nonzero x : is_zero (round3 x) = false -> x <> Q2Qc 0.
Proof.
  intros H ->. apply is_zero_false in H. apply H, round3_0.
Qed.

(** ** Weighted sums *)

Lemma wsum_zero ws xs :
  (forall i w x, ws !! i = Some w -> xs !! i = Some x -> (w * x)%Qc = Q2Qc 0) ->
  wsum ws xs = Q2Qc 0.
Proof.
  revert xs. induction ws as [|w ws IH]; intros [|x xs] H; simpl; try done.
  rewrite (H 0%nat w x eq_refl eq_refl).
  rewrite IH; [ring|]. intros i w' x' Hw Hx. by apply (H (S i)).
Qed.

Lemma wsum_insert ws xs i w x v :
  ws !! i = Some w -> xs !! i = Some x ->
  wsum (<[i := v]> ws) xs = (wsum ws xs + (v - w) * x)%Qc.
Proof.
  revert xs i. induction ws as [|w0 ws IH]; intros [|x0 xs] [|i] Hw Hx;
    simpl in *; try done.
  - injection Hw as ->. injection Hx as ->. ring.
  - rewrite (IH xs i Hw Hx). ring.
Qed.

Lemma wsum_single ws xs i w x :
  ws !! i = Some w -> xs !! i = Some x ->
  (forall j w' x', j <> i -> ws !! j = Some w' -> xs !! j = Some x' ->
     (w' * x')%Qc = Q2Qc 0) ->
  wsum ws xs = (w * x)%Qc.
Proof.
  intros Hw Hx Hrest.
  pose proof (wsum_insert ws xs i w x (Q2Qc 0) Hw Hx) as Hins.
  rewrite wsum_zero in Hins.
  - assert (E : wsum ws xs = ((wsum ws xs + (Q2Qc 0 - w) * x) + w * x)%Qc) by ring.
    rewrite <- Hins in E. rewrite E. ring.
  - intros j w' x' Hw' Hx'. destruct (decide (j = i)) as [->|Hne].
    + rewrite list_lookup_insert_eq in Hw' by (by eapply lookup_lt_Some).
      injection Hw' as <-. ring.
    + rewrite list_lookup_insert_ne in Hw' by done. eauto.
Qed.

Lemma nth_column rs j c :
  nth (Z.to_nat j) (column rs c) (Q2Qc 0) = coef rs j c.
Proof.
  unfold column, coef, row_at. rewrite !nth_lookup, list_lookup_fmap.
  destruct (rs !! Z.to_nat j); simpl; [|by destruct (Z.to_nat c)].
  by rewrite nth_lookup.
Qed.

Lemma lookup_column rs j c x :
  column rs c !! j = Some x -> x = coef rs (Z.of_nat j) c.
Proof.
  intros H. rewrite <- nth_column, Nat2Z.id. by erewrite nth_lookup_Some.
Qed.

Lemma lookup_weight ws j w : ws !! j = Some w -> w = weight ws (Z.of_nat j).
Proof.
  intros H. unfold weight. rewrite Nat2Z.id. by erewrite nth_lookup_Some.
Qed.

Lemma weight_lookup ws j :
  0 <= j < Z.of_nat (length ws) -> ws !! Z.to_nat j = Some (weight ws j).
Proof.
  intros Hj. unfold weight.
  destruct (nth_lookup_or_length ws (Z.to_nat j) (Q2Qc 0)) as [H|H]; [done|lia].
Qed.

Lemma weight_insert_eq ws j v :
  0 <= j < Z.of_nat (length ws) -> weight (<[Z.to_nat j := v]> ws) j = v.
Proof.
  intros Hj. unfold weight. apply nth_lookup_Some.
  apply list_lookup_insert_eq. lia.
Qed.

Lemma weight_insert_ne ws i j v :
  0 <= i -> 0 <= j -> i <> j -> weight (<[Z.to_nat i := v]> ws) j = weight ws j.
Proof.
  intros Hi Hj Hne. unfold weight.
  rewrite !nth_lookup, list_lookup_insert_ne by lia. done.
Qed.

Lemma weight_replicate n j : weight (replicate n (Q2Qc 0)) j = Q2Qc 0.
Proof.
  unfold weight. rewrite nth_lookup.
  destruct (replicate n (Q2Qc 0) !! Z.to_nat j) eqn:E; [|done].
  apply lookup_replicate in E as [-> _]. done.
Qed.

(** ** Planes, coefficient by coefficient *)

Lemma nth_plane_scale p f c :
  nth c (normal_vector (plane_scale p f)) (Q2Qc 0)
  = (nth c (normal_vector p) (Q2Qc 0) * f)%Qc.
Proof.
  unfold plane_scale. simpl. rewrite !nth_lookup, list_lookup_fmap.
  destruct (normal_vector p !! c); simpl; [done|ring].
Qed.

Lemma nth_plane_plus p q c :
  plane_dimension q = plane_dimension p ->
  nth c (normal_vector (plane_plus p q)) (Q2Qc 0)
  = (nth c (normal_vector p) (Q2Qc 0) + nth c (normal_vector q) (Q2Qc 0))%Qc.
Proof.
  unfold plane_plus, plane_dimension. simpl. intros Hd.
  rewrite !nth_lookup, lookup_zip_with.
  destruct (normal_vector p !! c) eqn:Ep, (normal_vector q !! c) eqn:Eq; simpl;
    try done; try ring.
  - apply lookup_lt_Some in Ep. apply lookup_ge_None in Eq. lia.
  - apply lookup_lt_Some in Eq. apply lookup_ge_None in Ep. lia.
Qed.

Lemma nth_plane_minus p q c :
  plane_dimension q = plane_dimension p ->
  nth c (normal_vector (plane_minus p q)) (Q2Qc 0)
  = (nth c (normal_vector p) (Q2Qc 0) - nth c (normal_vector q) (Q2Qc 0))%Qc.
Proof.
  unfold plane_minus, plane_dimension. simpl. intros Hd.
  rewrite !nth_lookup, lookup_zip_with.
  destruct (normal_vector p !! c) eqn:Ep, (normal_vector q !! c) eqn:Eq; simpl;
    try done; try ring.
  - apply lookup_lt_Some in Ep. apply lookup_ge_None in Eq. lia.
  - apply lookup_lt_Some in Eq. apply lookup_ge_None in Ep. lia.
Qed.

Lemma plane_ext p q :
  plane_dimension p = plane_dimension q ->
  (forall c, 0 <= c < plane_dimension p ->
     nth (Z.to_nat c) (normal_vector p) (Q2Qc 0)
     = nth (Z.to_nat c) (normal_vector q) (Q2Qc 0)) ->
  constant_term p = constant_term q ->
  p = q.
Proof.
  destruct p as [np cp], q as [nq cq]. unfold plane_dimension. simpl.
  intros Hd Hn ->. f_equal. apply list_eq. intros i.
  destruct (decide (i < length np)%nat) as [Hi|Hi].
  - specialize (Hn (Z.of_nat i) ltac:(lia)). rewrite Nat2Z.id in Hn.
    rewrite !nth_lookup in Hn.
    destruct (lookup_lt_is_Some_2 np i Hi) as [x Hx].
    destruct (lookup_lt_is_Some_2 nq i ltac:(lia)) as [y Hy].
    rewrite Hx, Hy in *. simpl in Hn. by rewrite Hn.
  - rewrite !lookup_ge_None_2 by lia. done.
Qed.

Lemma plane_scale_1 p : plane_scale p (Q2Qc 1) = p.
Proof.
  destruct p as [np cp]. unfold plane_scale. simpl. f_equal.
  - rewrite <- (map_id np) at 2. apply map_ext. intros x. ring.
  - ring.
Qed.

Lemma plane_scale_scale p f g :
  plane_scale (plane_scale p f) g = plane_scale p (f * g)%Qc.
Proof.
  destruct p as [np cp]. unfold plane_scale. simpl. f_equal.
  - rewrite map_map. apply map_ext. intros x. ring.
  - ring.
Qed.

Lemma set_row_same rs i :
  0 <= i < Z.of_nat (length rs) -> set_row rs i (row_at rs i) = rs.
Proof.
  intros Hi. unfold set_row. apply list_insert_id. by apply lookup_row_at.
Qed.

Lemma set_row_set_row rs i p q :
  set_row (set_row rs i p) i q = set_row rs i q.
Proof. unfold set_row. apply list_insert_insert_eq. Qed.

Lemma coef_set_row_eq rs i p c :
  0 <= i < Z.of_nat (length rs) ->
  coef (set_row rs i p) i c = nth (Z.to_nat c) (normal_vector p) (Q2Qc 0).
Proof. intros Hi. unfold coef. by rewrite row_at_set_row_eq. Qed.

Lemma coef_set_row_ne rs i j p c :
  0 <= i -> 0 <= j -> i <> j -> coef (set_row rs i p) j c = coef rs j c.
Proof. intros Hi Hj Hne. unfold coef. by rewrite row_at_set_row_ne. Qed.

(** ** From the boolean check to the coefficients *)

Lemma pivot_lead rs i k :
  pivot (row_at rs i) = Some k -> lead rs i (Z.of_nat k).
Proof.
  unfold pivot, lead, coef. intros Hp.
  destruct (first_nonzero_Some _ _ Hp) as [(x & Hx & Hnz) Hlt].
  split; [lia|]. split.
  - rewrite Nat2Z.id. by rewrite (nth_lookup_Some _ _ _ _ Hx).
  - intros c Hc. apply nth_lookup_Some. apply Hlt. lia.
Qed.

Lemma nonzero_pivot rs i c :
  0 <= c -> coef rs i c <> Q2Qc 0 ->
  exists k, pivot (row_at rs i) = Some k /\ (k <= Z.to_nat c)%nat.
Proof.
  unfold pivot, coef. intros Hc Hnz.
  destruct (first_nonzero (normal_vector (row_at rs i))) as [k|] eqn:E.
  - exists k. split; [done|].
    destruct (first_nonzero_Some _ _ E) as [_ Hlt].
    destruct (decide (k <= Z.to_nat c)%nat) as [|Hgt]; [done|].
    exfalso. apply Hnz. apply nth_lookup_Some. apply Hlt. lia.
  - exfalso. apply Hnz. pose proof (first_nonzero_None _ E) as Hall.
    rewrite nth_lookup.
    destruct (normal_vector (row_at rs i) !! Z.to_nat c) as [x|] eqn:Ex; [|done].
    rewrite Forall_lookup in Hall. by apply (Hall _ _ Ex).
Qed.

Lemma lead_pivot rs i k :
  lead rs i k -> pivot (row_at rs i) = Some (Z.to_nat k).
Proof.
  intros (Hk & Hnz & Hlt).
  destruct (nonzero_pivot rs i k Hk Hnz) as (k' & Hp & Hle).
  rewrite Hp. f_equal.
  destruct (decide (k' = Z.to_nat k)) as [|Hne]; [done|].
  exfalso. destruct (pivot_lead rs i k' Hp) as (_ & Hnz' & _).
  apply Hnz'. apply Hlt. lia.
Qed.

Lemma lead_unique rs i k k' : lead rs i k -> lead rs i k' -> k = k'.
Proof.
  intros H H'. pose proof H as (Hk & _). pose proof H' as (Hk' & _).
  apply lead_pivot in H, H'. rewrite H in H'. injection H' as H'. lia.
Qed.

Lemma is_rref_unpack rs :
  is_rref rs = true ->
  (forall i p, rs !! i = Some p -> leading_one p = true)
  /\ (forall i j p q, rs !! i = Some p -> rs !! j = Some q ->
        (i < j)%nat -> echelon_pair p q = true)
  /\ (forall i j p q, rs !! i = Some p -> rs !! j = Some q ->
        i <> j -> clear_pair p q = true).
Proof.
  unfold is_rref. intros H. apply andb_prop in H as [H1 H2].
  rewrite forallb_forall in H1, H2.
  assert (Hpair : forall i j p q, rs !! i = Some p -> rs !! j = Some q ->
            rref_pair rs i j = true).
  { intros i j p q Hi Hj.
    apply lookup_lt_Some in Hi, Hj.
    assert (Hin : In i (seq 0 (length rs))) by (apply in_seq; lia).
    pose proof (H2 i Hin) as Hrow. rewrite forallb_forall in Hrow.
    apply Hrow. apply in_seq. lia. }
  split; [|split].
  - intros i p Hi. apply H1. apply list_elem_of_In. by eapply list_elem_of_lookup_2.
  - intros i j p q Hi Hj Hlt. pose proof (Hpair i j p q Hi Hj) as Hp.
    unfold rref_pair in Hp. rewrite Hi, Hj in Hp.
    apply andb_prop in Hp as [Hp _].
    apply Nat.ltb_lt in Hlt. by rewrite Hlt in Hp.
  - intros i j p q Hi Hj Hne. pose proof (Hpair i j p q Hi Hj) as Hp.
    unfold rref_pair in Hp. rewrite Hi, Hj in Hp.
    apply andb_prop in Hp as [_ Hp].
    apply Nat.eqb_neq in Hne. by rewrite Hne in Hp.
Qed.

Lemma is_rref_facts rows d rs :
  ok rows d rs -> is_rref rs = true -> rref_facts rows d rs.
Proof.
  intros Hok Hr. pose proof Hok as [Hlen _].
  destruct (is_rref_unpack rs Hr) as (Hone & Hord & Hclr).
  constructor; [done|..].
  - intros i c Hi Hc Hnz.
    destruct (nonzero_pivot rs i c Hc Hnz) as (k & Hp & Hle).
    exists (Z.of_nat k). split; [lia|]. by apply pivot_lead.
  - intros i k Hi Hl. pose proof Hl as (Hk & _).
    pose proof (lead_pivot rs i k Hl) as Hp.
    pose proof (Hone _ _ (lookup_row_at rs i ltac:(lia))) as H1.
    unfold leading_one in H1. rewrite Hp in H1.
    apply bool_decide_eq_true in H1. unfold coef. by apply nth_lookup_Some.
  - intros i j kj Hi Hj Hl.
    pose proof (lead_pivot rs j kj Hl) as Hp.
    pose proof (Hord _ _ _ _ (lookup_row_at rs i ltac:(lia))
                  (lookup_row_at rs j ltac:(lia)) ltac:(lia)) as H1.
    unfold echelon_pair in H1. rewrite Hp in H1.
    destruct (pivot (row_at rs i)) as [ki|] eqn:Ei; [|done].
    apply Nat.ltb_lt in H1. destruct Hl as (Hk & _).
    exists (Z.of_nat ki). split; [by apply pivot_lead|lia].
  - intros i j k Hi Hj Hne Hl.
    pose proof (lead_pivot rs i k Hl) as Hp.
    pose proof (Hclr _ _ _ _ (lookup_row_at rs i ltac:(lia))
                  (lookup_row_at rs j ltac:(lia)) ltac:(lia)) as H1.
    unfold clear_pair in H1. rewrite Hp in H1.
    apply bool_decide_eq_true in H1. unfold coef. by apply nth_lookup_Some.
Qed.

(** ** Loops over ranges *)

Lemma range_nil a b : b <= a -> range a b = [].
Proof. intros H. unfold range. by replace (Z.to_nat (b - a)) with 0%nat by lia. Qed.

Lemma range_cons a b : a < b -> range a b = a :: range (a + 1) b.
Proof.
  intros H. unfold range.
  replace (Z.to_nat (b - a)) with (S (Z.to_nat (b - (a + 1)))) by lia.
  simpl. f_equal; [lia|].
  rewrite <- seq_shift, map_map. apply map_ext. intros i. lia.
Qed.

Lemma range_down_nil a b : a <= b -> range_down a b = [].
Proof. intros H. unfold range_down. by replace (Z.to_nat (a - b)) with 0%nat by lia. Qed.

Lemma range_down_cons a b : b < a -> range_down a b = a :: range_down (a - 1) b.
Proof.
  intros H. unfold range_down.
  replace (Z.to_nat (a - b)) with (S (Z.to_nat (a - 1 - b))) by lia.
  simpl. f_equal; [lia|].
  rewrite <- seq_shift, map_map. apply map_ext. intros i. lia.
Qed.

Lemma p_for_range_inv {S} (I : Z -> S -> Prop) (body : Z -> S -> option S) b :
  (forall x s s', x < b -> I x s -> body x s = Some s' -> I (x + 1) s') ->
  forall n a s s', n = Z.to_nat (b - a) -> I a s ->
    p_for (range a b) body s = Some s' -> I (Z.max a b) s'.
Proof.
  intros Hbody. induction n as [|n IH]; intros a s s' Hn HI Hp.
  - rewrite range_nil in Hp by lia. injection Hp as <-.
    by replace (Z.max a b) with a by lia.
  - rewrite range_cons in Hp by lia. simpl in Hp.
    destruct (body a s) as [s1|] eqn:E; [|done].
    replace (Z.max a b) with (Z.max (a + 1) b) by lia.
    apply (IH (a + 1) s1 s'); [lia| |done].
    apply (Hbody a s s1); [lia|done|done].
Qed.

Lemma p_for_range_down_inv {S} (I : Z -> S -> Prop) (body : Z -> S -> option S) b :
  (forall x s s', b < x -> I x s -> body x s = Some s' -> I (x - 1) s') ->
  forall n a s s', n = Z.to_nat (a - b) -> I a s ->
    p_for (range_down a b) body s = Some s' -> I (Z.min a b) s'.
Proof.
  intros Hbody. induction n as [|n IH]; intros a s s' Hn HI Hp.
  - rewrite range_down_nil in Hp by lia. injection Hp as <-.
    by replace (Z.min a b) with a by lia.
  - rewrite range_down_cons in Hp by lia. simpl in Hp.
    destruct (body a s) as [s1|] eqn:E; [|done].
    replace (Z.min a b) with (Z.min (a - 1) b) by lia.
    apply (IH (a - 1) s1 s'); [lia| |done].
    apply (Hbody a s s1); [lia|done|done].
Qed.

Lemma fold_left_range_inv {S} (I : Z -> S -> Prop) (f : S -> Z -> S) b :
  (forall x s, x < b -> I x s -> I (x + 1) (f s x)) ->
  forall n a s, n = Z.to_nat (b - a) -> I a s ->
    I (Z.max a b) (fold_left f (range a b) s).
Proof.
  intros Hf. induction n as [|n IH]; intros a s Hn HI.
  - rewrite range_nil by lia. simpl. by replace (Z.max a b) with a by lia.
  - rewrite range_cons by lia. simpl.
    replace (Z.max a b) with (Z.max (a + 1) b) by lia.
    apply IH; [lia|]. apply Hf; [lia|done].
Qed.

Lemma fold_left_fixed {A S} (f : S -> A -> S) xs s :
  (forall x, In x xs -> f s x = s) -> fold_left f xs s = s.
Proof.
  induction xs as [|x xs IH]; intros H; simpl; [done|].
  rewrite (H x) by (by left). apply IH. intros y Hy. apply H. by right.
Qed.

Lemma p_while_exit {S} cond (body : S -> ctl S) :
  (forall s, exists s', body s = Continue s') ->
  forall fuel s s', p_while fuel cond body s = Some s' -> cond s' = false.
Proof.
  intros Hbody. induction fuel as [|fuel IH]; intros s s' Hp; simpl in *; [done|].
  destruct (cond s) eqn:Ec; [|by injection Hp as <-].
  destruct (Hbody s) as [s1 Hs1]. rewrite Hs1 in Hp. eauto.
Qed.

Lemma is_pos_0 : is_pos (Q2Qc 0) = false.
Proof. reflexivity. Qed.

(** ** The triangular reducer on a reduced system *)

Section Reduced.
Variables (rows d : Z) (rs : list Plane).
Hypothesis Hfacts : rref_facts rows d rs.

Lemma below_zero row dim r :
  left_clear rows rs row dim -> 0 <= row < r -> r < rows -> 0 <= dim ->
  coef rs r dim = Q2Qc 0.
Proof.
  intros Hinv Hrow Hr Hdim.
  destruct (decide (coef rs r dim = Q2Qc 0)) as [|Hnz]; [done|]. exfalso.
  destruct (rf_lead _ _ _ Hfacts r dim ltac:(lia) Hdim Hnz) as (k & Hk & Hl).
  destruct (rf_order _ _ _ Hfacts row r k ltac:(lia) Hr Hl) as (ki & Hli & Hlt).
  destruct Hli as (Hki & Hnzi & _). apply Hnzi. apply Hinv; lia.
Qed.

Lemma swap_search_rows_reduced row dim :
  left_clear rows rs row dim -> 0 <= row < rows -> 0 <= dim ->
  swap_search_rows rows row dim rs = (false, rs).
Proof.
  intros Hinv Hrow Hdim. unfold swap_search_rows.
  apply fold_left_fixed. intros x Hx. apply in_range in Hx.
  unfold swap_search_step. simpl.
  rewrite (below_zero row dim x) by (auto; lia). by rewrite is_pos_0.
Qed.

Lemma clear_below_rows_reduced row dim c :
  left_clear rows rs row dim -> 0 <= row < rows -> 0 <= dim ->
  clear_below_rows rows row dim c rs = rs.
Proof.
  intros Hinv Hrow Hdim. unfold clear_below_rows.
  apply fold_left_fixed. intros x Hx. apply in_range in Hx.
  unfold clear_step.
  rewrite (below_zero row dim x) by (auto; lia). reflexivity.
Qed.

Lemma triangular_body_rows_reduced row dim :
  left_clear rows rs row dim -> 0 <= row < rows -> 0 <= dim ->
  match triangular_body_rows rows row (dim, rs) with
  | Continue s' => snd s' = rs /\ 0 <= fst s' /\ left_clear rows rs row (fst s')
  | Break s' => snd s' = rs /\ 0 <= fst s' /\ left_clear rows rs row (fst s')
  end.
Proof.
  intros Hinv Hrow Hdim. unfold triangular_body_rows. simpl.
  destruct (is_zero (coef rs row dim)) eqn:Ez.
  - rewrite swap_search_rows_reduced by done. simpl.
    split; [done|]. split; [lia|].
    intros r c Hr Hc. destruct (decide (c = dim)) as [->|Hne]; [|apply Hinv; lia].
    destruct (decide (r = row)) as [->|Hner].
    + by apply is_zero_true.
    + apply (below_zero row dim r); auto; lia.
  - rewrite clear_below_rows_reduced by done. simpl. auto.
Qed.

Lemma triangular_while_reduced fuel row dim s' :
  left_clear rows rs row dim -> 0 <= row < rows -> 0 <= dim ->
  p_while fuel (fun s => fst s <? d) (triangular_body_rows rows row) (dim, rs) = Some s' ->
  snd s' = rs /\ 0 <= fst s' /\ left_clear rows rs row (fst s').
Proof.
  intros Hinv Hrow Hdim Hw.
  apply (p_while_inv
           (fun s => snd s = rs /\ 0 <= fst s /\ left_clear rows rs row (fst s))
           (fun s => fst s <? d) (triangular_body_rows rows row))
    with (fuel := fuel) (s := (dim, rs)); [|by auto|exact Hw].
  intros [dim0 st0] (Hst0 & Hdim0 & Hinv0) _. simpl in *. subst st0.
  pose proof (triangular_body_rows_reduced row dim0 Hinv0 Hrow Hdim0) as H.
  by destruct (triangular_body_rows rows row (dim0, rs)).
Qed.

Lemma triangular_rows_reduced fuel s' :
  triangular_rows fuel rows d rs = Some s' -> snd s' = rs.
Proof.
  intros Hp. unfold triangular_rows in Hp.
  pose (I := fun (row : Z) (s : Z * list Plane) =>
               0 <= row /\ snd s = rs /\ 0 <= fst s
               /\ left_clear rows rs row (fst s)).
  assert (HI : I (Z.max 0 (rows - 1)) s').
  { eapply (p_for_range_inv I _ (rows - 1)); [|reflexivity| |exact Hp].
    - intros row [dim st] s1 Hrow (Hrow0 & Hst & Hdim & Hinv) Hw.
      simpl in *. subst st.
      destruct (triangular_while_reduced fuel row dim s1 Hinv ltac:(lia) Hdim Hw)
        as (Hs1 & Hd1 & Hinv1).
      split; [lia|]. split; [done|]. split; [done|].
      intros r c Hr Hc. apply Hinv1; lia.
    - split; [lia|]. split; [done|]. split; [simpl; lia|].
      intros r c Hr Hc. simpl in Hc. lia. }
  apply HI.
Qed.

Lemma compute_triangular_form_rows_reduced fuel :
  d + 2 <= Z.of_nat fuel ->
  compute_triangular_form_rows fuel d rs = Some rs.
Proof.
  intros Hfuel. pose proof (rf_ok _ _ _ Hfacts) as [Hlen Hdim].
  destruct (compute_triangular_form_rows_terminates fuel d rs Hdim Hfuel)
    as (rs' & Hrs' & _).
  rewrite Hrs'. f_equal.
  unfold compute_triangular_form_rows in Hrs'. rewrite Hlen in Hrs'.
  destruct (triangular_rows fuel rows d rs) as [s'|] eqn:E; [|done].
  injection Hrs' as <-. by apply (triangular_rows_reduced fuel).
Qed.
End Reduced.

(** ** The normalization pass on a reduced system *)

Section ReducedNormalise.
Variables (rows d : Z) (rs : list Plane).
Hypothesis Hfacts : rref_facts rows d rs.

Lemma normalise_inv_start row dim :
  0 <= row < rows -> normalise_inv rs row (dim, rs).
Proof.
  intros Hrow. pose proof (rf_ok _ _ _ Hfacts) as [Hlen _].
  exists (Q2Qc 1). simpl. split; [|split; [done|by left]].
  rewrite plane_scale_1. symmetry. apply set_row_same. lia.
Qed.

Lemma normalise_body_rows_reduced row s :
  0 <= row < rows -> 0 <= fst s -> normalise_inv rs row s ->
  exists s', normalise_body_rows row s = Continue s' /\ normalise_inv rs row s'.
Proof.
  intros Hrow Hdim (f & Hst & Hf & Hk). destruct s as [dim st]. simpl in *. subst st.
  pose proof (rf_ok _ _ _ Hfacts) as [Hlen _].
  unfold normalise_body_rows. simpl. eexists. split; [reflexivity|].
  rewrite coef_set_row_eq by lia. rewrite nth_plane_scale.
  fold (coef rs row dim).
  destruct (is_zero (coef rs row dim * f)) eqn:Ez; simpl.
  - exists f. simpl. split; [done|]. split; [done|].
    destruct Hk as [Hk|(k & Hl & Hle)]; [by left|]. right. exists k. split; [done|].
    destruct (decide (k = dim)) as [->|]; [|lia]. exfalso.
    apply is_zero_true in Ez.
    rewrite (rf_one _ _ _ Hfacts row dim Hrow Hl) in Ez.
    apply Hf. rewrite <- Ez. ring.
  - apply is_zero_false in Ez.
    assert (Hx : coef rs row dim <> Q2Qc 0).
    { intros Hx. apply Ez. rewrite Hx. ring. }
    exists (f * (Qc_of_Z 1 / (coef rs row dim * f)))%Qc. simpl.
    rewrite row_at_set_row_eq by lia.
    rewrite set_row_set_row, plane_scale_scale.
    split; [done|]. split.
    + intros H0. apply Qcmult_integral in H0 as [H0|H0]; [done|].
      unfold Qcdiv in H0. apply Qcmult_integral in H0 as [H0|H0]; [done|].
      apply Ez. rewrite <- (Qcmult_1_l (coef rs row dim * f)).
      rewrite <- (Qcmult_inv_l (coef rs row dim * f) Ez) at 1.
      rewrite H0. ring.
    + destruct (rf_lead _ _ _ Hfacts row dim Hrow ltac:(lia) Hx) as (k & Hle & Hl).
      destruct (decide (k = dim)) as [->|]; [|right; exists k; split; [done|lia]].
      left. rewrite (rf_one _ _ _ Hfacts row dim Hrow Hl).
      change (Qc_of_Z 1) with (Q2Qc 1). field. done.
Qed.

Lemma normalise_while_reduced fuel row dim s' :
  0 <= row < rows ->
  p_while fuel (fun s => -1 <? fst s) (normalise_body_rows row) (dim, rs) = Some s' ->
  snd s' = rs.
Proof.
  intros Hrow Hw. pose proof (rf_ok _ _ _ Hfacts) as [Hlen _].
  assert (Hinv : normalise_inv rs row s').
  { apply (p_while_inv (normalise_inv rs row) (fun s => -1 <? fst s)
             (normalise_body_rows row)) with (fuel := fuel) (s := (dim, rs));
      [|by apply normalise_inv_start|exact Hw].
    intros s Hs Hc. apply Z.ltb_lt in Hc.
    destruct (normalise_body_rows_reduced row s Hrow ltac:(lia) Hs) as (s1 & -> & Hs1).
    exact Hs1. }
  assert (Hexit : (-1 <? fst s') = false).
  { apply (p_while_exit (fun s => -1 <? fst s) (normalise_body_rows row))
      with (fuel := fuel) (s := (dim, rs)); [|exact Hw].
    intros s. unfold normalise_body_rows. eauto. }
  apply Z.ltb_ge in Hexit.
  destruct Hinv as (f & Hst & Hf & [->|(k & (Hk0 & _) & Hle)]); [|lia].
  rewrite Hst, plane_scale_1. apply set_row_same. lia.
Qed.

Lemma rref_normalise_rows_reduced fuel dim s' :
  rref_normalise_rows fuel rows dim rs = Some s' -> snd s' = rs.
Proof.
  intros Hp. unfold rref_normalise_rows in Hp.
  pose (I := fun (row : Z) (s : Z * list Plane) => row < rows /\ snd s = rs).
  assert (HI : I (Z.min (rows - 1) (-1)) s').
  { eapply (p_for_range_down_inv I _ (-1)); [|reflexivity| |exact Hp].
    - intros row [dim0 st] s1 Hrow (Hlt & Hst) Hw. simpl in *. subst st.
      split; [lia|]. apply (normalise_while_reduced fuel row dim0); [lia|done].
    - split; [lia|done]. }
  apply HI.
Qed.
End ReducedNormalise.

(** ** The backward pass on a reduced system *)

Section ReducedBackward.
Variables (rows d : Z) (rs : list Plane).
Hypothesis Hfacts : rref_facts rows d rs.

Lemma lead_lt_dimension j k : 0 <= j < rows -> lead rs j k -> k < d.
Proof.
  intros Hj (Hk & Hnz & _).
  destruct (decide (k < d)) as [|Hge]; [done|]. exfalso. apply Hnz.
  unfold coef. apply nth_overflow.
  pose proof (ok_row_at rows d rs j (rf_ok _ _ _ Hfacts) Hj) as Hd.
  unfold plane_dimension in Hd. lia.
Qed.

Lemma wsum_replicate n xs : wsum (replicate n (Q2Qc 0)) xs = Q2Qc 0.
Proof.
  apply wsum_zero. intros i w x Hw _.
  apply lookup_replicate in Hw as [-> _]. ring.
Qed.

Lemma combination_start row :
  0 <= row < rows ->
  combination d rs row (replicate (length rs) (Q2Qc 0)) (row_at rs row).
Proof.
  intros Hrow. split; [|split; [|split]].
  - eapply ok_row_at; [apply Hfacts|done].
  - apply length_replicate.
  - intros c Hc. rewrite wsum_replicate. unfold coef. ring.
  - rewrite wsum_replicate. ring.
Qed.

(** In the pivot column of a row below, the coefficient of the current row
    is the weight of that row. *)
Lemma combination_pivot_column row ws cur j k :
  combination d rs row ws cur ->
  0 <= row < j -> j < rows -> lead rs j k ->
  nth (Z.to_nat k) (normal_vector cur) (Q2Qc 0) = weight ws j.
Proof.
  intros (Hd & Hlen & Hco & _) Hrow Hj Hl.
  pose proof (rf_ok _ _ _ Hfacts) as [Hrows _].
  pose proof Hl as (Hk & _).
  pose proof (lead_lt_dimension j k ltac:(lia) Hl) as Hkd.
  rewrite Hco by lia.
  rewrite (rf_clear _ _ _ Hfacts j row k) by (auto; lia).
  rewrite (wsum_single ws (column rs k) (Z.to_nat j) (weight ws j) (coef rs j k)).
  - rewrite (rf_one _ _ _ Hfacts j k) by (auto; lia). ring.
  - apply weight_lookup. lia.
  - rewrite <- nth_column. unfold column.
    destruct (nth_lookup_or_length
                (map (fun p => nth (Z.to_nat k) (normal_vector p) (Q2Qc 0)) rs)
                (Z.to_nat j) (Q2Qc 0)) as [H|H]; [done|].
    rewrite length_map in H. lia.
  - intros j' w' x' Hne Hw' Hx'.
    apply lookup_column in Hx'. subst x'.
    apply lookup_lt_Some in Hw'.
    rewrite (rf_clear _ _ _ Hfacts j (Z.of_nat j') k) by (auto; lia). ring.
Qed.

Lemma combination_done row ws cur :
  combination d rs row ws cur -> 0 <= row < rows ->
  (forall j, 0 <= j < rows -> weight ws j = Q2Qc 0) ->
  cur = row_at rs row.
Proof.
  intros (Hd & Hlen & Hco & Hct) Hrow Hw.
  pose proof (rf_ok _ _ _ Hfacts) as [Hrows _].
  assert (Hz : forall xs, wsum ws xs = Q2Qc 0).
  { intros xs. apply wsum_zero. intros i w x Hi _.
    pose proof (lookup_lt_Some _ _ _ Hi) as Hlt.
    apply lookup_weight in Hi. rewrite Hi, Hw by lia. ring. }
  apply plane_ext.
  - rewrite Hd. symmetry. eapply ok_row_at; [apply Hfacts|done].
  - intros c Hc. rewrite Hco by lia. rewrite Hz. unfold coef. ring.
  - rewrite Hct, Hz. ring.
Qed.

Lemma combination_plus row ws cur u g :
  combination d rs row ws cur -> 0 <= u < rows ->
  combination d rs row (<[Z.to_nat u := (weight ws u + g)%Qc]> ws)
    (plane_plus cur (plane_scale (row_at rs u) g)).
Proof.
  intros (Hd & Hlen & Hco & Hct) Hu.
  pose proof (rf_ok _ _ _ Hfacts) as [Hrows _].
  pose proof (ok_row_at rows d rs u (rf_ok _ _ _ Hfacts) Hu) as Hdu.
  assert (Hdim : plane_dimension (plane_scale (row_at rs u) g) = plane_dimension cur).
  { rewrite plane_dimension_scale. congruence. }
  split; [|split; [|split]].
  - rewrite plane_dimension_plus; done.
  - by rewrite length_insert.
  - intros c Hc. rewrite nth_plane_plus by done. rewrite nth_plane_scale.
    rewrite Hco by done.
    rewrite (wsum_insert ws (column rs c) (Z.to_nat u) (weight ws u) (coef rs u c)).
    + unfold coef. ring.
    + apply weight_lookup. lia.
    + rewrite <- nth_column. unfold column.
      destruct (nth_lookup_or_length
                  (map (fun p => nth (Z.to_nat c) (normal_vector p) (Q2Qc 0)) rs)
                  (Z.to_nat u) (Q2Qc 0)) as [H|H]; [done|].
      rewrite length_map in H. lia.
  - simpl. rewrite Hct.
    rewrite (wsum_insert ws (constants rs) (Z.to_nat u) (weight ws u)
               (constant_term (row_at rs u))).
    + ring.
    + apply weight_lookup. lia.
    + unfold constants. rewrite list_lookup_fmap.
      rewrite lookup_row_at by lia. done.
Qed.

Lemma plane_minus_plus p q :
  plane_dimension q = plane_dimension p ->
  plane_minus p q = plane_plus p (plane_scale q (- Q2Qc 1)%Qc).
Proof.
  intros Hd. apply plane_ext.
  - rewrite plane_dimension_minus, plane_dimension_plus;
      rewrite ?plane_dimension_scale; done.
  - intros c Hc. rewrite nth_plane_minus by done.
    rewrite nth_plane_plus by (by rewrite plane_dimension_scale).
    rewrite nth_plane_scale. ring.
  - simpl. ring.
Qed.

Lemma combination_minus row ws cur u g :
  combination d rs row ws cur -> 0 <= u < rows ->
  combination d rs row (<[Z.to_nat u := (weight ws u + - g)%Qc]> ws)
    (plane_minus cur (plane_scale (row_at rs u) g)).
Proof.
  intros Hc Hu. pose proof Hc as (Hd & _).
  pose proof (ok_row_at rows d rs u (rf_ok _ _ _ Hfacts) Hu) as Hdu.
  rewrite plane_minus_plus by (rewrite plane_dimension_scale; congruence).
  rewrite plane_scale_scale.
  replace (g * - Q2Qc 1)%Qc with (- g)%Qc by ring.
  by apply combination_plus.
Qed.

Lemma is_neg_true x : is_neg x = true -> (Qcabs x = - x)%Qc.
Proof.
  unfold is_neg. intros H. apply bool_decide_eq_true in H.
  apply Qcabs_neg. by apply Qclt_le_weak.
Qed.

Lemma is_neg_false x : is_neg x = false -> Qcabs x = x.
Proof.
  unfold is_neg. intros H. apply bool_decide_eq_false in H.
  apply Qcabs_pos. by apply Qcnot_lt_le.
Qed.

Lemma rref_cancel_step_reduced row dim c x st :
  0 <= row <= x -> x < rows - 1 -> 0 <= dim ->
  cancel_inv rows d rs row dim c (x + 1) st ->
  cancel_inv rows d rs row dim c (x + 1 + 1) (rref_cancel_step row dim c x st).
Proof.
  intros Hrow Hx Hdim (cur & ws & -> & Hco & Hw & Hc).
  pose proof (rf_ok _ _ _ Hfacts) as [Hrows _].
  pose proof Hco as (_ & Hlen & _).
  unfold rref_cancel_step.
  rewrite coef_set_row_ne by lia.
  destruct (is_zero (round3 (coef rs (x + 1) dim))) eqn:Ez; simpl.
  - exists cur, ws. split; [done|]. split; [done|]. split.
    + intros j Hj Hnz. destruct (Hw j Hj Hnz) as (Hrj & k & Hl & Hk).
      split; [done|]. exists k. split; [done|].
      destruct Hk as [Hk|[-> Hk]]; [by left|]. right. split; [done|].
      destruct (decide (j = x + 1)) as [->|]; [|lia]. exfalso.
      rewrite (rf_one _ _ _ Hfacts (x + 1) dim) in Ez by (auto; lia).
      rewrite round3_1 in Ez. done.
    + intros j Hj Hn Hl. apply Hc; [done|lia|done].
  - pose proof (round3_nonzero _ Ez) as Hnz.
    destruct (rf_lead _ _ _ Hfacts (x + 1) dim ltac:(lia) Hdim Hnz) as (k & Hk & Hl).
    rewrite (row_at_set_row_ne rs row (x + 1)) by lia.
    rewrite row_at_set_row_eq by lia.
    rewrite set_row_set_row.
    set (g0 := (Qcabs c / round3 (coef rs (x + 1) dim))%Qc).
    set (g := if is_neg c then g0 else (- g0)%Qc).
    exists (if is_neg c
            then plane_plus cur (plane_scale (row_at rs (x + 1)) g0)
            else plane_minus cur (plane_scale (row_at rs (x + 1)) g0)),
           (<[Z.to_nat (x + 1) := (weight ws (x + 1) + g)%Qc]> ws).
    split; [done|]. split.
    { subst g. destruct (is_neg c).
      - apply combination_plus; [done|lia].
      - apply combination_minus; [done|lia]. }
    assert (Hcancel : k = dim -> (weight ws (x + 1) + g)%Qc = Q2Qc 0).
    { intros ->.
      rewrite (Hc (x + 1)) by (auto; lia).
      subst g g0.
      rewrite (rf_one _ _ _ Hfacts (x + 1) dim) by (auto; lia).
      rewrite round3_1.
      destruct (is_neg c) eqn:En.
      - rewrite (is_neg_true _ En). field. discriminate.
      - rewrite (is_neg_false _ En). field. discriminate. }
    split.
    + intros j Hj Hnzj.
      destruct (decide (j = x + 1)) as [->|Hne].
      * rewrite weight_insert_eq in Hnzj by lia.
        split; [lia|]. exists k. split; [done|].
        destruct (decide (k = dim)) as [Hkd|]; [|left; lia].
        exfalso. by apply Hnzj, Hcancel.
      * rewrite weight_insert_ne in Hnzj by lia.
        destruct (Hw j Hj Hnzj) as (Hrj & k' & Hl' & Hk').
        split; [done|]. exists k'. split; [done|].
        destruct Hk' as [Hk'|[-> Hk']]; [by left|]. right. split; [done|lia].
    + intros j Hj Hn Hlj. rewrite weight_insert_ne by lia.
      apply Hc; [done|lia|done].
Qed.

Lemma rref_cancel_rows_reduced row dim c st :
  0 <= row < rows -> 0 <= dim ->
  cancel_inv rows d rs row dim c (row + 1) st ->
  cancel_inv rows d rs row dim c rows (rref_cancel_rows rows row dim c st).
Proof.
  intros Hrow Hdim Hinv. unfold rref_cancel_rows.
  pose (I := fun (x : Z) (st : list Plane) =>
               row <= x /\ cancel_inv rows d rs row dim c (x + 1) st).
  assert (HI : I (Z.max row (rows - 1))
                 (fold_left (fun st ri => rref_cancel_step row dim c ri st)
                    (range row (rows - 1)) st)).
  { apply (fold_left_range_inv I) with (n := Z.to_nat (rows - 1 - row));
      [|reflexivity|by split; [lia|]].
    intros x st0 Hx [Hrx Hst0]. split; [lia|].
    apply rref_cancel_step_reduced; [lia|lia|done|done]. }
  destruct HI as [_ HI].
  by replace (Z.max row (rows - 1) + 1) with rows in HI by lia.
Qed.

Lemma backward_inv_start row dim :
  0 <= row < rows -> dim < d -> backward_inv rows d rs row (dim, rs).
Proof.
  intros Hrow Hdim. pose proof (rf_ok _ _ _ Hfacts) as [Hrows _].
  split; [done|].
  exists (row_at rs row), (replicate (length rs) (Q2Qc 0)).
  split; [|split].
  - simpl. symmetry. apply set_row_same. lia.
  - by apply combination_start.
  - intros j Hj Hnz. exfalso. apply Hnz, weight_replicate.
Qed.

Lemma rref_body_rows_reduced row s :
  0 <= row < rows -> 0 <= fst s -> backward_inv rows d rs row s ->
  exists s', rref_body_rows rows row s = Continue s'
             /\ backward_inv rows d rs row s'.
Proof.
  intros Hrow Hdim0 [Hdimd (cur & ws & Hst & Hco & Hw)].
  destruct s as [dim st]. simpl in *. subst st.
  pose proof (rf_ok _ _ _ Hfacts) as [Hrows _].
  unfold rref_body_rows. simpl. eexists. split; [reflexivity|].
  rewrite coef_set_row_eq by lia.
  set (c := nth (Z.to_nat dim) (normal_vector cur) (Q2Qc 0)).
  assert (Hpiv : forall j, row < j < rows -> lead rs j dim -> weight ws j = c).
  { intros j Hj Hl. subst c. symmetry.
    apply (combination_pivot_column row ws cur j dim); auto; lia. }
  split; [simpl; lia|].
  destruct (is_zero c) eqn:Ez; simpl.
  - exists cur, ws. split; [done|]. split; [done|].
    intros j Hj Hnz. destruct (Hw j Hj Hnz) as (Hrj & k & Hl & Hk).
    split; [done|]. exists k. split; [done|].
    destruct (decide (k = dim)) as [->|]; [|lia]. exfalso.
    apply Hnz. rewrite (Hpiv j) by (auto; lia). by apply is_zero_true.
  - destruct (rref_cancel_rows_reduced row dim c (set_row rs row cur) Hrow Hdim0)
      as (cur' & ws' & Hst' & Hco' & Hw' & _).
    { exists cur, ws. split; [done|]. split; [done|]. split.
      - intros j Hj Hnz. destruct (Hw j Hj Hnz) as (Hrj & k & Hl & Hk).
        split; [done|]. exists k. split; [done|].
        destruct (decide (k = dim)) as [->|]; [right; split; [done|lia]|left; lia].
      - intros j Hj _ Hl. by apply Hpiv. }
    exists cur', ws'. split; [done|]. split; [done|].
    intros j Hj Hnz. destruct (Hw' j Hj Hnz) as (Hrj & k & Hl & Hk).
    split; [done|]. exists k. split; [done|].
    destruct Hk as [Hk|[_ Hk]]; lia.
Qed.

Lemma rref_while_reduced fuel row dim s' :
  0 <= row < rows -> dim < d ->
  p_while fuel (fun s => -1 <? fst s) (rref_body_rows rows row) (dim, rs) = Some s' ->
  snd s' = rs.
Proof.
  intros Hrow Hdim Hw. pose proof (rf_ok _ _ _ Hfacts) as [Hrows _].
  assert (Hinv : backward_inv rows d rs row s').
  { apply (p_while_inv (backward_inv rows d rs row) (fun s => -1 <? fst s)
             (rref_body_rows rows row)) with (fuel := fuel) (s := (dim, rs));
      [|by apply backward_inv_start|exact Hw].
    intros s Hs Hc. apply Z.ltb_lt in Hc.
    destruct (rref_body_rows_reduced row s Hrow ltac:(lia) Hs) as (s1 & -> & Hs1).
    exact Hs1. }
  assert (Hexit : (-1 <? fst s') = false).
  { apply (p_while_exit (fun s => -1 <? fst s) (rref_body_rows rows row))
      with (fuel := fuel) (s := (dim, rs)); [|exact Hw].
    intros s. unfold rref_body_rows. eauto. }
  apply Z.ltb_ge in Hexit.
  destruct Hinv as [_ (cur & ws & Hst & Hco & Hws)].
  rewrite Hst.
  rewrite (combination_done row ws cur Hco Hrow); [apply set_row_same; lia|].
  intros j Hj. destruct (decide (weight ws j = Q2Qc 0)) as [|Hnz]; [done|].
  destruct (Hws j Hj Hnz) as (_ & k & (Hk0 & _) & Hk). lia.
Qed.

Lemma rref_backward_rows_reduced fuel s' :
  rref_backward_rows fuel rows (d - 1) rs = Some s' -> s' = (d - 1, rs).
Proof.
  intros Hp. unfold rref_backward_rows in Hp.
  pose (I := fun (row : Z) (s : Z * list Plane) => row < rows /\ s = (d - 1, rs)).
  assert (HI : I (Z.min (rows - 1) (-1)) s').
  { eapply (p_for_range_down_inv I _ (-1)); [|reflexivity| |exact Hp].
    - intros row s s1 Hrow (Hlt & ->) Hw.
      destruct (p_while _ _ _ _) as [s2|] eqn:E; [|done].
      injection Hw as <-. split; [lia|]. f_equal.
      apply (rref_while_reduced fuel row (d - 1)); [lia|lia|done].
    - split; [lia|done]. }
  apply HI.
Qed.
End ReducedBackward.

(** ** The whole reducer *)

Lemma compute_rref_form_rows_reduced fuel d rs :
  same_dimension d rs -> is_rref rs = true -> d + 2 <= Z.of_nat fuel ->
  compute_rref_form_rows fuel d rs = Some rs.
Proof.
  intros Hdim Hr Hfuel.
  assert (Hfacts : rref_facts (Z.of_nat (length rs)) d rs)
    by (by apply is_rref_facts).
  destruct (compute_rref_form_rows_terminates fuel d rs Hdim Hfuel)
    as (rs' & Hrs' & _).
  rewrite Hrs'. f_equal.
  unfold compute_rref_form_rows in Hrs'.
  rewrite (compute_triangular_form_rows_reduced _ _ _ Hfacts fuel Hfuel) in Hrs'.
  destruct (rref_backward_rows _ _ _ _) as [s1|] eqn:E1; [|done].
  apply (rref_backward_rows_reduced _ _ _ Hfacts) in E1. subst s1. simpl in Hrs'.
  destruct (rref_normalise_rows _ _ _ _) as [s2|] eqn:E2; [|done].
  injection Hrs' as <-.
  by apply (rref_normalise_rows_reduced _ _ _ Hfacts fuel (d - 1)).
Qed.

(** * The objects of the caller are left alone *)

Lemma keeps_ret {A} n (a : A) : keeps n (ret a).
Proof. intros h Hn. simpl. auto. Qed.

Lemma keeps_raise {A} n e : keeps n (@raise A e).
Proof. intros h Hn. simpl. auto. Qed.

Lemma keeps_out_of_fuel {A} n : keeps n (@out_of_fuel A).
Proof. intros h Hn. simpl. auto. Qed.

Lemma keeps_bind {A B} n (m : M A) (k : A -> M B) :
  keeps n m -> (forall a, keeps n (k a)) -> keeps n (bind m k).
Proof.
  intros Hm Hk h Hn. unfold bind.
  destruct (Hm h Hn) as [Ht Hl]. destruct (m h) as [h1 [a|e|]]; simpl in *; auto.
  destruct (Hk a h1 ltac:(lia)) as [Ht' Hl']. split; [congruence|lia].
Qed.

Lemma keeps_if {A} n (b : bool) (m1 m2 : M A) :
  keeps n m1 -> keeps n m2 -> keeps n (if b then m1 else m2).
Proof. by destruct b. Qed.

Lemma keeps_for_each {A S} n (body : A -> S -> M S) xs :
  (forall x s, keeps n (body x s)) -> forall s, keeps n (for_each xs body s).
Proof.
  intros Hbody. induction xs as [|x xs IH]; intros s; simpl.
  - apply keeps_ret.
  - apply keeps_bind; auto.
Qed.

Lemma keeps_while {S} n cond (body : S -> M (ctl S)) :
  (forall s, keeps n (body s)) ->
  forall fuel s, keeps n (while_loop fuel cond body s).
Proof.
  intros Hbody. induction fuel as [|fuel IH]; intros s; simpl.
  - apply keeps_out_of_fuel.
  - apply keeps_if; [|apply keeps_ret].
    apply keeps_bind; [done|]. intros [s'|s']; [apply IH|apply keeps_ret].
Qed.

Lemma keeps_get_list n l : keeps n (get_list l).
Proof. intros h Hn. unfold get_list. by destruct (h !! l) as [[]|]. Qed.

Lemma keeps_get_plane n l : keeps n (get_plane l).
Proof. intros h Hn. unfold get_plane. by destruct (h !! l) as [[]|]. Qed.

Lemma keeps_alloc n o : keeps n (alloc o).
Proof.
  intros h Hn. unfold alloc. simpl. rewrite length_app. simpl.
  split; [by apply take_app_le|lia].
Qed.

Lemma keeps_list_getitem n lst i : keeps n (list_getitem lst i).
Proof.
  unfold list_getitem. apply keeps_bind; [apply keeps_get_list|]. intros ls.
  destruct (py_index (length ls) i) as [k|]; [|apply keeps_raise].
  destruct (ls !! k); [apply keeps_ret|apply keeps_raise].
Qed.

Lemma keeps_list_len n lst : keeps n (list_len lst).
Proof.
  unfold list_len. apply keeps_bind; [apply keeps_get_list|]. intros ls.
  apply keeps_ret.
Qed.

Lemma keeps_list_setitem n lst i v :
  (n <= lst)%nat -> keeps n (list_setitem lst i v).
Proof.
  intros Hle. unfold list_setitem.
  apply keeps_bind; [apply keeps_get_list|]. intros ls.
  destruct (py_index (length ls) i) as [k|]; [|apply keeps_raise].
  intros h Hn. simpl. rewrite length_insert. split; [|done].
  by apply take_insert_ge.
Qed.

Lemma keeps_plane_getitem n l i : keeps n (plane_getitem l i).
Proof.
  unfold plane_getitem. apply keeps_bind; [apply keeps_get_plane|]. intros p.
  destruct (py_index _ i) as [k|]; [|apply keeps_raise].
  destruct (_ !! k); [apply keeps_ret|apply keeps_raise].
Qed.

Lemma keeps_plane_mul n l c : keeps n (plane_mul l c).
Proof.
  unfold plane_mul. apply keeps_bind; [apply keeps_get_plane|]. intros p.
  apply keeps_alloc.
Qed.

Lemma keeps_plane_add n l1 l2 : keeps n (plane_add l1 l2).
Proof.
  unfold plane_add. apply keeps_bind; [apply keeps_get_plane|]. intros p.
  apply keeps_bind; [apply keeps_get_plane|]. intros q. apply keeps_alloc.
Qed.

Lemma keeps_plane_sub n l1 l2 : keeps n (plane_sub l1 l2).
Proof.
  unfold plane_sub. apply keeps_bind; [apply keeps_get_plane|]. intros p.
  apply keeps_bind; [apply keeps_get_plane|]. intros q. apply keeps_alloc.
Qed.

Lemma keeps_py_div n a b : keeps n (py_div a b).
Proof. unfold py_div. apply keeps_if; [apply keeps_raise|apply keeps_ret]. Qed.

Lemma keeps_coefficient_at n s row dim : keeps n (coefficient_at s row dim).
Proof.
  unfold coefficient_at. apply keeps_bind; [apply keeps_list_getitem|].
  intros l. apply keeps_plane_getitem.
Qed.

#[local] Hint Resolve keeps_ret keeps_raise keeps_list_getitem keeps_list_len
  keeps_list_setitem keeps_plane_mul keeps_plane_add keeps_plane_sub keeps_py_div
  keeps_coefficient_at : linsys.

Ltac keeps_steps :=
  repeat first
    [ solve [auto with linsys]
    | apply keeps_bind; [|intros ?]
    | apply keeps_if ].

Lemma keeps_swap_rows n s i j :
  (n <= planes s)%nat -> keeps n (swap_rows s i j).
Proof. intros Hle. unfold swap_rows. keeps_steps. Qed.

Lemma keeps_swap_search n t rows row dim :
  (n <= planes t)%nat -> keeps n (swap_search t rows row dim).
Proof.
  intros Hle. unfold swap_search. apply keeps_for_each. intros x s.
  keeps_steps.
Qed.

Lemma keeps_clear_below n t rows row dim c :
  (n <= planes t)%nat -> keeps n (clear_below t rows row dim c).
Proof.
  intros Hle. unfold clear_below. apply keeps_for_each. intros x s.
  keeps_steps.
Qed.

Lemma keeps_triangular_loops n fuel t rows dims :
  (n <= planes t)%nat -> keeps n (triangular_loops fuel t rows dims).
Proof.
  intros Hle. unfold triangular_loops. apply keeps_for_each. intros row dim.
  apply keeps_while. intros dim'. unfold triangular_body.
  keeps_steps; first [by apply keeps_swap_search|by apply keeps_clear_below].
Qed.

Lemma keeps_rref_cancel n r rows row dim c :
  (n <= planes r)%nat -> keeps n (rref_cancel r rows row dim c).
Proof.
  intros Hle. unfold rref_cancel. apply keeps_for_each. intros x s.
  keeps_steps.
Qed.

Lemma keeps_rref_backward n fuel r rows dims :
  (n <= planes r)%nat -> keeps n (rref_backward fuel r rows dims).
Proof.
  intros Hle. unfold rref_backward. apply keeps_for_each. intros row dim.
  apply keeps_bind; [|intros; apply keeps_ret].
  apply keeps_while. intros dim'. unfold rref_body.
  keeps_steps; by apply keeps_rref_cancel.
Qed.

Lemma keeps_rref_normalise n fuel r rows dim :
  (n <= planes r)%nat -> keeps n (rref_normalise fuel r rows dim).
Proof.
  intros Hle. unfold rref_normalise. apply keeps_for_each. intros row dim'.
  apply keeps_while. intros dim''. unfold normalise_body. keeps_steps.
Qed.

Lemma keeps_deepcopy_plane n l s : keeps n (deepcopy_plane l s).
Proof.
  destruct s as [m acc]. unfold deepcopy_plane.
  destruct (memo_find m l); [apply keeps_ret|].
  apply keeps_bind; [apply keeps_get_plane|]. intros p.
  apply keeps_bind; [apply keeps_alloc|]. intros l'. apply keeps_ret.
Qed.

(** [deepcopy] only allocates, and the list of the copy is new. *)
Lemma deepcopy_frame (h : heap) s :
  take (length h) (fst (deepcopy s h)) = h
  /\ (length h <= length (fst (deepcopy s h)))%nat
  /\ forall t, snd (deepcopy s h) = Ret t -> (length h <= planes t)%nat.
Proof.
  unfold deepcopy, bind.
  pose proof (keeps_get_list (length h) (planes s) h ltac:(lia)) as [Hg1 Hg2].
  rewrite firstn_all in Hg1.
  destruct (get_list (planes s) h) as [h1 [ls|e|]] eqn:E1; simpl in *;
    [|split; [done|split; [done|done]]..].
  pose proof (keeps_for_each (length h) deepcopy_plane ls
                (keeps_deepcopy_plane (length h)) ([], []) h1 ltac:(lia))
    as [Hf1 Hf2].
  rewrite Hg1 in Hf1.
  destruct (for_each ls deepcopy_plane ([], []) h1) as [h2 [r|e|]] eqn:E2;
    simpl in *;
    [|split; [done|split; [lia|done]]..].
  rewrite length_app. split; [|split; [lia|]].
  - by rewrite take_app_le by lia.
  - intros t [= <-]. simpl. lia.
Qed.

Lemma keeps_deepcopy_then {B} n t (k : LinearSystem -> M B) :
  (forall r, (n <= planes r)%nat -> keeps n (k r)) ->
  keeps n (bind (deepcopy t) k).
Proof.
  intros Hk h Hn. destruct (deepcopy_frame h t) as (H1 & H2 & H3).
  assert (Hback : forall h2 : heap,
            take (length h) h2 = h -> take n h2 = take n h).
  { intros h2 E. rewrite <- E at 1. rewrite take_take. f_equal. lia. }
  unfold bind. destruct (deepcopy t h) as [h1 [r|e|]]; simpl in *;
    [|split; [by apply Hback|done]..].
  specialize (H3 r eq_refl).
  destruct (Hk r ltac:(lia) h1 ltac:(lia)) as [K1 K2].
  split; [|lia]. rewrite K1. by apply Hback.
Qed.

Lemma keeps_compute_triangular_form n fuel s :
  keeps n (compute_triangular_form fuel s).
Proof.
  unfold compute_triangular_form. apply keeps_deepcopy_then. intros t Ht.
  apply keeps_bind; [apply keeps_list_len|]. intros rows.
  apply keeps_bind; [by apply keeps_triangular_loops|]. intros _.
  apply keeps_ret.
Qed.

Lemma keeps_compute_rref_form n fuel s :
  keeps n (compute_rref_form fuel s).
Proof.
  unfold compute_rref_form.
  apply keeps_bind; [apply keeps_compute_triangular_form|]. intros t.
  apply keeps_deepcopy_then. intros r Hr.
  apply keeps_bind; [apply keeps_list_len|]. intros rows.
  apply keeps_bind; [by apply keeps_rref_backward|]. intros dim.
  apply keeps_bind; [apply keeps_list_len|]. intros rows'.
  apply keeps_bind; [by apply keeps_rref_normalise|]. intros _.
  apply keeps_ret.
Qed.

Lemma keeps_whole_store {A} (m : M A) (h : heap) :
  keeps (length h) m -> take (length h) (fst (m h)) = h.
Proof.
  intros Hk. destruct (Hk h ltac:(lia)) as [H _]. by rewrite firstn_all in H.
Qed.

(** * What the search for a row to swap in does *)

(** The search reports a swap exactly when a row strictly below [row] and
    before the last one has a positive coefficient under the cursor; a
    negative coefficient does not count, and the last row is not looked at. *)
Lemma swap_search_rows_takes_positive rows d row dim rs :
  ok rows d rs -> 0 <= row < rows - 1 ->
  fst (swap_search_rows rows row dim rs) = true
  <-> exists x, row < x < rows - 1 /\ is_pos (coef rs x dim) = true.
Proof.
  intros [Hlen _] Hrow. unfold swap_search_rows.
  pose (I := fun (x : Z) (s : bool * list Plane) =>
               row < x
               /\ length (snd s) = length rs
               /\ (forall y, x <= y -> row_at (snd s) y = row_at rs y)
               /\ (fst s = true <->
                   exists y, row < y < x /\ is_pos (coef rs y dim) = true)).
  assert (HI : I (Z.max (row + 1) (rows - 1))
                 (fold_left (fun s next_row => swap_search_step row dim next_row s)
                    (range (row + 1) (rows - 1)) (false, rs))).
  { apply (fold_left_range_inv I) with (n := Z.to_nat (rows - 1 - (row + 1)));
      [|reflexivity|].
    - intros x [swap st] Hx (Hrx & Hl & Hsame & Hiff). cbn [fst snd] in *.
      unfold I, swap_search_step. cbn [fst snd].
      assert (Hc : coef st x dim = coef rs x dim).
      { unfold coef. by rewrite Hsame by lia. }
      rewrite Hc.
      destruct (is_pos (coef rs x dim)) eqn:Ep; cbn [fst snd].
      + split; [lia|]. split.
        { unfold swap_rows_rows. by rewrite !length_set_row. }
        split.
        * intros y Hy. unfold swap_rows_rows.
          rewrite !row_at_set_row_ne by lia. apply Hsame. lia.
        * split; [|done]. intros _. exists x. split; [lia|done].
      + split; [lia|]. split; [done|]. split.
        * intros y Hy. apply Hsame. lia.
        * rewrite Hiff. split.
          -- intros (y & Hy & Hp). exists y. split; [lia|done].
          -- intros (y & Hy & Hp). exists y. split; [|done].
             destruct (decide (y = x)) as [->|]; [congruence|lia].
    - unfold I. cbn [fst snd].
      split; [lia|]. split; [done|]. split; [done|]. split; [done|].
      intros (y & Hy & _). lia. }
  destruct HI as (_ & _ & _ & Hiff).
  replace (Z.max (row + 1) (rows - 1)) with (rows - 1) in Hiff by lia.
  exact Hiff.
Qed.

(** ** The reducers on fractions compute the row-level view *)

Lemma map_result_fraction (c : Qc) v :
  PyNum.map_result (fun x => PyNum.mul x (PyNum.Fraction c)) (map PyNum.Fraction v)
  = PyNum.Ok (map PyNum.Fraction (map (fun x => x * c)%Qc v)).
Proof. induction v as [|x v IH]; simpl; [done|]. by rewrite IH. Qed.

Lemma zip_result_add_fraction v w :
  PyNum.zip_result PyNum.add (map PyNum.Fraction v) (map PyNum.Fraction w)
  = PyNum.Ok (map PyNum.Fraction (zip_with Qcplus v w)).
Proof.
  revert w. induction v as [|x v IH]; intros [|y w]; simpl; try done.
  by rewrite IH.
Qed.

Lemma zip_result_sub_fraction v w :
  PyNum.zip_result PyNum.sub (map PyNum.Fraction v) (map PyNum.Fraction w)
  = PyNum.Ok (map PyNum.Fraction (zip_with Qcminus v w)).
Proof.
  revert w. induction v as [|x v IH]; intros [|y w]; simpl; try done.
  by rewrite IH.
Qed.

Lemma plane_mul_lift p c :
  PyNum.plane_mul (lift p) (PyNum.Fraction c) = PyNum.Ok (lift (plane_scale p c)).
Proof. unfold PyNum.plane_mul, lift. simpl. by rewrite map_result_fraction. Qed.

Lemma plane_add_lift p q :
  PyNum.plane_add (lift p) (lift q) = PyNum.Ok (lift (plane_plus p q)).
Proof. unfold PyNum.plane_add, lift. simpl. by rewrite zip_result_add_fraction. Qed.

Lemma plane_sub_lift p q :
  PyNum.plane_sub (lift p) (lift q) = PyNum.Ok (lift (plane_minus p q)).
Proof. unfold PyNum.plane_sub, lift. simpl. by rewrite zip_result_sub_fraction. Qed.

Lemma getitem_lifts rs i :
  0 <= i < Z.of_nat (length rs) ->
  PyNum.getitem (lifts rs) i = PyNum.Ok (lift (row_at rs i)).
Proof.
  intros Hi. unfold PyNum.getitem, lifts.
  rewrite length_map, py_index_in_range by done.
  by rewrite list_lookup_fmap, lookup_row_at.
Qed.

Lemma planes_setitem_lifts d rs i p :
  0 <= i < Z.of_nat (length rs) ->
  PyNum.planes_setitem (fraction_system d rs) i (lift p)
  = PyNum.Ok (fraction_system d (set_row rs i p)).
Proof.
  intros Hi. unfold PyNum.planes_setitem, PyNum.setitem, fraction_system, lifts.
  simpl. rewrite length_map, py_index_in_range by done. simpl.
  unfold PyNum.with_planes, set_row. simpl. by rewrite list_fmap_insert.
Qed.

Lemma coefficient_at_lifts d rs i j :
  0 <= i < Z.of_nat (length rs) ->
  0 <= j < plane_dimension (row_at rs i) ->
  PyNum.coefficient_at (fraction_system d rs) i j
  = PyNum.Ok (PyNum.Fraction (coef rs i j)).
Proof.
  intros Hi Hj. unfold PyNum.coefficient_at. simpl.
  rewrite getitem_lifts by done. simpl.
  unfold PyNum.plane_getitem, PyNum.getitem, lift. simpl.
  unfold plane_dimension in Hj.
  rewrite length_map, py_index_in_range by done.
  rewrite list_lookup_fmap, lookup_coef by done. done.
Qed.

Lemma swap_rows_lifts d rs i j :
  0 <= i < Z.of_nat (length rs) ->
  0 <= j < Z.of_nat (length rs) ->
  PyNum.swap_rows (fraction_system d rs) i j
  = PyNum.Ok (fraction_system d (swap_rows_rows rs i j)).
Proof.
  intros Hi Hj. unfold PyNum.swap_rows. simpl.
  rewrite !getitem_lifts by done. simpl.
  rewrite planes_setitem_lifts by done. simpl.
  rewrite planes_setitem_lifts by (by rewrite length_set_row). done.
Qed.

(** *** Loops *)

Lemma for_each_fold {A S T} (emb : T -> S) (J : T -> Prop)
    (body : A -> S -> PyNum.result S) (f : T -> A -> T) xs :
  (forall x t, In x xs -> J t -> body x (emb t) = PyNum.Ok (emb (f t x)) /\ J (f t x)) ->
  forall t, J t ->
    PyNum.for_each xs body (emb t) = PyNum.Ok (emb (fold_left f xs t))
    /\ J (fold_left f xs t).
Proof.
  induction xs as [|x xs IH]; intros Hbody t HJ; simpl; [done|].
  destruct (Hbody x t) as [Hb HJ1]; [by left|done|].
  rewrite Hb. simpl. apply IH; [|done].
  intros y t0 Hy. apply Hbody. by right.
Qed.

Lemma for_each_p_for {A S T} (emb : T -> S) (J : T -> Prop)
    (body : A -> S -> PyNum.result S) (pbody : A -> T -> option T) xs :
  (forall x t t', In x xs -> J t -> pbody x t = Some t' ->
     body x (emb t) = PyNum.Ok (emb t') /\ J t') ->
  forall t t', J t -> p_for xs pbody t = Some t' ->
    PyNum.for_each xs body (emb t) = PyNum.Ok (emb t') /\ J t'.
Proof.
  induction xs as [|x xs IH]; intros Hbody t t' HJ Hp; simpl in *.
  - by injection Hp as <-.
  - destruct (pbody x t) as [t1|] eqn:E; [|done].
    destruct (Hbody x t t1) as [Hb HJ1]; [by left|done|done|].
    rewrite Hb. simpl. apply IH; [|done|done].
    intros y t0 t0' Hy. apply Hbody. by right.
Qed.

Lemma while_loop_p_while {S T} (emb : T -> S) (J : T -> Prop) (cond : S -> bool)
    (pcond : T -> bool) (body : S -> PyNum.result (ctl S)) (pbody : T -> ctl T) :
  (forall t, cond (emb t) = pcond t) ->
  (forall t, J t -> pcond t = true ->
     match pbody t with
     | Continue t' => body (emb t) = PyNum.Ok (Continue (emb t')) /\ J t'
     | Break t' => body (emb t) = PyNum.Ok (Break (emb t')) /\ J t'
     end) ->
  forall fuel t t', J t -> p_while fuel pcond pbody t = Some t' ->
    PyNum.while_loop fuel cond body (emb t) = PyNum.Ok (emb t') /\ J t'.
Proof.
  intros Hcond Hbody. induction fuel as [|fuel IH]; intros t t' HJ Hp; simpl in *.
  - done.
  - rewrite Hcond. destruct (pcond t) eqn:Ec.
    + specialize (Hbody t HJ Ec). destruct (pbody t) as [t1|t1].
      * destruct Hbody as [Hb HJ1]. rewrite Hb. simpl. by apply IH.
      * destruct Hbody as [Hb HJ1]. rewrite Hb. simpl. by injection Hp as <-.
    + by injection Hp as <-.
Qed.

(** *** [compute_triangular_form] *)

Section FractionTriangular.
Variables (rows d : Z).

Lemma swap_search_lifts row dim rs :
  ok rows d rs -> 0 <= row < rows -> 0 <= dim < d ->
  PyNum.swap_search (fraction_system d rs) rows row dim
  = PyNum.Ok (fraction_state d (swap_search_rows rows row dim rs))
  /\ ok rows d (snd (swap_search_rows rows row dim rs)).
Proof.
  intros Hok Hrow Hdim. unfold PyNum.swap_search, swap_search_rows.
  apply (for_each_fold (fraction_state d) (fun s => ok rows d (snd s)) _
           (fun s next_row => swap_search_step row dim next_row s)
           (range (row + 1) (rows - 1))) with (t := (false, rs)); [|done].
  intros x [swap st] Hin HJ. apply in_range in Hin. simpl in HJ.
  pose proof HJ as [Hlen _]. unfold fraction_state at 1. simpl.
  rewrite coefficient_at_lifts by (erewrite ?ok_row_at; eauto; lia). simpl.
  unfold swap_search_step. simpl.
  destruct (is_pos (coef st x dim)); simpl.
  - rewrite swap_rows_lifts by lia. simpl. split; [done|].
    apply ok_swap_rows_rows; [done|lia|lia].
  - done.
Qed.

Lemma clear_below_lifts row dim c rs :
  ok rows d rs -> 0 <= row < rows -> 0 <= dim < d -> is_zero c = false ->
  PyNum.clear_below (fraction_system d rs) rows row dim (PyNum.Fraction c)
  = PyNum.Ok (fraction_system d (clear_below_rows rows row dim c rs))
  /\ ok rows d (clear_below_rows rows row dim c rs).
Proof.
  intros Hok Hrow Hdim Hc. unfold PyNum.clear_below, clear_below_rows.
  apply (for_each_fold (fraction_system d) (fun st => ok rows d st) _
           (fun st next_row => clear_step row dim c next_row st)
           (range (row + 1) rows)); [|done].
  intros x st Hin HJ. apply in_range in Hin. pose proof HJ as [Hlen _].
  split; [|apply ok_clear_step; [done|lia|lia]].
  rewrite coefficient_at_lifts by (erewrite ?ok_row_at; eauto; lia). simpl.
  unfold clear_step, PyNum.ne_0. simpl.
  destruct (is_zero (coef st x dim)); simpl; [done|].
  unfold PyNum.fraction_truediv. rewrite Hc. simpl.
  rewrite !getitem_lifts by lia. simpl.
  rewrite plane_mul_lift. simpl. rewrite plane_add_lift. simpl.
  by rewrite planes_setitem_lifts by lia.
Qed.

Lemma triangular_body_lifts row s :
  ok rows d (snd s) -> 0 <= row < rows -> 0 <= fst s < d ->
  match triangular_body_rows rows row s with
  | Continue s' =>
      PyNum.triangular_body rows row (fraction_state d s)
      = PyNum.Ok (Continue (fraction_state d s'))
      /\ (ok rows d (snd s') /\ 0 <= fst s')
  | Break s' =>
      PyNum.triangular_body rows row (fraction_state d s)
      = PyNum.Ok (Break (fraction_state d s'))
      /\ (ok rows d (snd s') /\ 0 <= fst s')
  end.
Proof.
  destruct s as [dim rs]. simpl. intros Hok Hrow Hdim. pose proof Hok as [Hlen _].
  unfold triangular_body_rows, PyNum.triangular_body. simpl.
  rewrite coefficient_at_lifts by (erewrite ?ok_row_at; eauto; lia). simpl.
  destruct (is_zero (coef rs row dim)) eqn:Ez.
  - destruct (swap_search_lifts row dim rs Hok Hrow Hdim) as [Hs Hok'].
    rewrite Hs. simpl.
    destruct (fst (swap_search_rows rows row dim rs)); simpl.
    + split; [done|]. split; [done|lia].
    + split; [done|]. split; [done|lia].
  - destruct (clear_below_lifts row dim (coef rs row dim) rs Hok Hrow Hdim Ez)
      as [Hs Hok'].
    rewrite Hs. simpl. split; [done|]. split; [done|lia].
Qed.

Lemma triangular_loops_lifts fuel rs s' :
  ok rows d rs ->
  triangular_rows fuel rows d rs = Some s' ->
  PyNum.triangular_loops fuel (fraction_system d rs) rows d
  = PyNum.Ok (fraction_state d s')
  /\ (ok rows d (snd s') /\ 0 <= fst s').
Proof.
  intros Hok Hp. unfold PyNum.triangular_loops, triangular_rows in *.
  apply (for_each_p_for (fraction_state d) (fun s => ok rows d (snd s) /\ 0 <= fst s) _
           (fun row s => p_while fuel (fun s => fst s <? d)
                           (triangular_body_rows rows row) s)
           (range 0 (rows - 1))) with (t := (0, rs)); [|split; [done|simpl; lia]|done].
  intros row s s1 Hin [HJ Hd0] Heq. apply in_range in Hin.
  apply (while_loop_p_while (fraction_state d)
           (fun s => ok rows d (snd s) /\ 0 <= fst s)
           (fun s => fst s <? d) (fun s => fst s <? d)
           (PyNum.triangular_body rows row) (triangular_body_rows rows row))
    with (fuel := fuel); [done| |by split|done].
  intros s2 [HJ2 Hd2] Hcond. apply Z.ltb_lt in Hcond.
  apply triangular_body_lifts; [done|lia|lia].
Qed.
End FractionTriangular.

Lemma compute_triangular_form_lifts fuel d rs rs' :
  same_dimension d rs ->
  compute_triangular_form_rows fuel d rs = Some rs' ->
  PyNum.compute_triangular_form fuel (fraction_system d rs)
  = PyNum.Ok (fraction_system d rs')
  /\ ok (Z.of_nat (length rs)) d rs'.
Proof.
  intros Hdim Hp. unfold compute_triangular_form_rows in Hp.
  destruct (triangular_rows fuel (Z.of_nat (length rs)) d rs) as [s|] eqn:Ht; [|done].
  injection Hp as <-.
  destruct (triangular_loops_lifts (Z.of_nat (length rs)) d fuel rs s) as [Hs [Hok _]];
    [by split|done|].
  unfold PyNum.compute_triangular_form, PyNum.deepcopy. simpl.
  unfold lifts at 1. rewrite length_map. rewrite Hs. by simpl.
Qed.

(** *** [compute_rref_form] *)

Section FractionRref.
Variables (rows d : Z).

Lemma rref_cancel_lifts row dim c rs :
  ok rows d rs -> 0 <= row < rows -> 0 <= dim < d ->
  PyNum.rref_cancel (fraction_system d rs) rows row dim (PyNum.Fraction c)
  = PyNum.Ok (fraction_system d (rref_cancel_rows rows row dim c rs))
  /\ ok rows d (rref_cancel_rows rows row dim c rs).
Proof.
  intros Hok Hrow Hdim. unfold PyNum.rref_cancel, rref_cancel_rows.
  apply (for_each_fold (fraction_system d) (fun st => ok rows d st) _
           (fun st ri => rref_cancel_step row dim c ri st)
           (range row (rows - 1))); [|done].
  intros x st Hin HJ. apply in_range in Hin. pose proof HJ as [Hlen _].
  split; [|apply (ok_rref_cancel_step rows d); [done|lia|lia]].
  rewrite coefficient_at_lifts by (erewrite ?ok_row_at; eauto; lia). simpl.
  unfold rref_cancel_step, PyNum.ne_0. simpl.
  destruct (is_zero (round3 (coef st (x + 1) dim))) eqn:Ez; simpl; [done|].
  unfold PyNum.fraction_truediv. rewrite Ez. simpl.
  rewrite getitem_lifts by lia. simpl. rewrite plane_mul_lift. simpl.
  destruct (is_neg c); simpl.
  - rewrite getitem_lifts by lia. simpl. rewrite plane_add_lift. simpl.
    by rewrite planes_setitem_lifts by lia.
  - rewrite getitem_lifts by lia. simpl. rewrite plane_sub_lift. simpl.
    by rewrite planes_setitem_lifts by lia.
Qed.

Lemma rref_body_lifts row s :
  ok rows d (snd s) -> 0 <= row < rows -> 0 <= fst s < d ->
  match rref_body_rows rows row s with
  | Continue s' =>
      PyNum.rref_body rows row (fraction_state d s)
      = PyNum.Ok (Continue (fraction_state d s'))
      /\ (ok rows d (snd s') /\ fst s' < d)
  | Break s' =>
      PyNum.rref_body rows row (fraction_state d s)
      = PyNum.Ok (Break (fraction_state d s'))
      /\ (ok rows d (snd s') /\ fst s' < d)
  end.
Proof.
  destruct s as [dim rs]. simpl. intros Hok Hrow Hdim. pose proof Hok as [Hlen _].
  unfold rref_body_rows, PyNum.rref_body. simpl.
  rewrite coefficient_at_lifts by (erewrite ?ok_row_at; eauto; lia). simpl.
  unfold PyNum.ne_0. simpl.
  destruct (is_zero (coef rs row dim)) eqn:Ez; simpl.
  - split; [done|]. split; [done|lia].
  - destruct (rref_cancel_lifts row dim (coef rs row dim) rs Hok Hrow Hdim)
      as [Hs Hok'].
    rewrite Hs. simpl. split; [done|]. split; [done|lia].
Qed.

Lemma rref_backward_lifts fuel rs s' :
  ok rows d rs ->
  rref_backward_rows fuel rows (d - 1) rs = Some s' ->
  PyNum.rref_backward fuel (fraction_system d rs) rows (d - 1)
  = PyNum.Ok (fraction_state d s')
  /\ (ok rows d (snd s') /\ fst s' < d).
Proof.
  intros Hok Hp. unfold PyNum.rref_backward, rref_backward_rows in *.
  apply (for_each_p_for (fraction_state d) (fun s => ok rows d (snd s) /\ fst s < d) _
           (fun row s =>
              match p_while fuel (fun s => -1 <? fst s) (rref_body_rows rows row) s with
              | Some s' => Some (d - 1, snd s')
              | None => None
              end)
           (range_down (rows - 1) (-1))) with (t := (d - 1, rs));
    [|split; [done|simpl; lia]|done].
  intros row s s1 Hin [HJ Hd0] Heq. apply in_range_down in Hin.
  destruct (p_while _ _ _ _) as [s2|] eqn:Ew; [|done].
  injection Heq as <-.
  destruct (while_loop_p_while (fraction_state d)
              (fun s => ok rows d (snd s) /\ fst s < d)
              (fun s => -1 <? fst s) (fun s => -1 <? fst s)
              (PyNum.rref_body rows row) (rref_body_rows rows row))
    with (fuel := fuel) (t := s) (t' := s2) as [Hr [HJ' _]]; [done| |by split|done|].
  { intros s3 [HJ3 Hd3] Hcond. apply Z.ltb_lt in Hcond.
    apply rref_body_lifts; [done|lia|lia]. }
  rewrite Hr. simpl. split; [done|]. split; [done|lia].
Qed.

Lemma normalise_body_lifts row s :
  ok rows d (snd s) -> 0 <= row < rows -> 0 <= fst s < d ->
  match normalise_body_rows row s with
  | Continue s' =>
      PyNum.normalise_body row (fraction_state d s)
      = PyNum.Ok (Continue (fraction_state d s'))
      /\ (ok rows d (snd s') /\ fst s' < d)
  | Break s' =>
      PyNum.normalise_body row (fraction_state d s)
      = PyNum.Ok (Break (fraction_state d s'))
      /\ (ok rows d (snd s') /\ fst s' < d)
  end.
Proof.
  destruct s as [dim rs]. simpl. intros Hok Hrow Hdim. pose proof Hok as [Hlen _].
  unfold normalise_body_rows, PyNum.normalise_body. simpl.
  rewrite coefficient_at_lifts by (erewrite ?ok_row_at; eauto; lia). simpl.
  unfold PyNum.ne_0. simpl.
  destruct (is_zero (coef rs row dim)) eqn:Ez; simpl.
  - split; [done|]. split; [done|lia].
  - unfold PyNum.fraction_truediv. rewrite Ez. simpl.
    rewrite getitem_lifts by lia. simpl. rewrite plane_mul_lift. simpl.
    rewrite planes_setitem_lifts by lia. simpl.
    split; [done|]. split; [|lia]. apply ok_set_row; [done|].
    rewrite plane_dimension_scale. eapply ok_row_at; eauto.
Qed.

Lemma rref_normalise_lifts fuel dim rs s' :
  ok rows d rs -> dim < d ->
  rref_normalise_rows fuel rows dim rs = Some s' ->
  PyNum.rref_normalise fuel (fraction_system d rs) rows dim
  = PyNum.Ok (fraction_state d s')
  /\ (ok rows d (snd s') /\ fst s' < d).
Proof.
  intros Hok Hdim Hp. unfold PyNum.rref_normalise, rref_normalise_rows in *.
  apply (for_each_p_for (fraction_state d) (fun s => ok rows d (snd s) /\ fst s < d) _
           (fun row s =>
              p_while fuel (fun s => -1 <? fst s) (normalise_body_rows row) s)
           (range_down (rows - 1) (-1))) with (t := (dim, rs));
    [|by split|done].
  intros row s s1 Hin [HJ Hd0] Heq. apply in_range_down in Hin.
  apply (while_loop_p_while (fraction_state d)
           (fun s => ok rows d (snd s) /\ fst s < d)
           (fun s => -1 <? fst s) (fun s => -1 <? fst s)
           (PyNum.normalise_body row) (normalise_body_rows row))
    with (fuel := fuel); [done| |by split|done].
  intros s3 [HJ3 Hd3] Hcond. apply Z.ltb_lt in Hcond.
  apply normalise_body_lifts; [done|lia|lia].
Qed.
End FractionRref.

Lemma compute_rref_form_lifts fuel d rs rs' :
  same_dimension d rs ->
  compute_rref_form_rows fuel d rs = Some rs' ->
  PyNum.compute_rref_form fuel (fraction_system d rs)
  = PyNum.Ok (fraction_system d rs')
  /\ ok (Z.of_nat (length rs)) d rs'.
Proof.
  intros Hdim Hp. unfold compute_rref_form_rows in Hp.
  destruct (compute_triangular_form_rows fuel d rs) as [tri|] eqn:Ht; [|done].
  destruct (compute_triangular_form_lifts fuel d rs tri Hdim Ht) as [Htri Hok].
  pose proof Hok as [Hlen _].
  destruct (rref_backward_rows fuel _ (d - 1) tri) as [s|] eqn:Hb; [|done].
  rewrite <- Hlen in Hok.
  destruct (rref_backward_lifts _ d fuel tri s Hok Hb) as [Hbs [Hok1 Hd1]].
  pose proof Hok1 as [Hlen1 _].
  destruct (rref_normalise_rows fuel _ (fst s) (snd s)) as [s1|] eqn:Hn; [|done].
  injection Hp as <-.
  rewrite <- Hlen1 in Hok1.
  destruct (rref_normalise_lifts _ d fuel (fst s) (snd s) s1 Hok1 Hd1 Hn)
    as [Hns [Hok2 _]].
  unfold PyNum.compute_rref_form, PyNum.deepcopy. rewrite Htri. simpl.
  unfold lifts at 1. rewrite length_map. rewrite Hbs. simpl.
  unfold lifts at 1. rewrite length_map. rewrite Hns. simpl.
  split; [done|]. by rewrite Hlen1, Hlen in Hok2.
Qed.

(** * The claims *)

(** C5 — Constructing a [LinearSystem] from rows in which some row's
    dimension differs from the first row's fails with [Exception] carrying
    exactly [SAME_DIM_MSG]; constructing from rows that all have the first
    row's dimension succeeds, and the system reports that dimension (and
    holds the caller's list).  The store is left as it was in both cases. *)
Theorem C5_init_dimension_check (h : heap) (lst : loc) (p : Plane) (ps : list Plane) :
  rows_in h lst (p :: ps) ->
  (Exists (fun q => plane_dimension q <> plane_dimension p) ps ->
     __init__ lst h = (h, Raise (Exception SAME_DIM_MSG)))
  /\ (Forall (fun q => plane_dimension q = plane_dimension p) ps ->
        __init__ lst h = (h, Ret (mkSystem lst (plane_dimension p)))).
Proof.
  intros Hrows. split.
  - by apply init_mismatch.
  - by apply init_same.
Qed.

Lemma C5_init_dimension_check_witness :
  __init__ 3%nat (store_of scenario_system)
  = (store_of scenario_system, Ret (mkSystem 3%nat 3))
  /\ __init__ 1%nat mixed_store = (mixed_store, Raise (Exception SAME_DIM_MSG)).
Proof.
  split.
  - apply (C5_init_dimension_check (store_of scenario_system) 3%nat
             (plane_Z [1; 1; 1] 1) [plane_Z [0; 1; 1] 2; plane_Z [1; 1; 2] 3]).
    + exists [0%nat; 1%nat; 2%nat]. split; [reflexivity|]. repeat constructor.
    + repeat constructor.
  - apply (C5_init_dimension_check mixed_store 1%nat
             (plane_Z [1; 2; 3] 0) [plane_Z [1; 2] 0]).
    + exists [0%nat; 2%nat]. split; [reflexivity|]. repeat constructor.
    + apply Exists_cons_hd. vm_compute. discriminate.
Defined.

(** C10 — Constructing a [LinearSystem] from an empty list fails with
    [IndexError], raised by [planes[0]]; the handler for [AssertionError]
    does not catch it, so the dimension-mismatch message is not produced. *)
Theorem C10_init_empty (h : heap) (lst : loc) :
  h !! lst = Some (OList []) ->
  __init__ lst h = (h, Raise IndexError)
  /\ __init__ lst h <> (h, Raise (Exception SAME_DIM_MSG))
  /\ forall h' s, __init__ lst h <> (h', Ret s).
Proof.
  intros Hl.
  assert (H : __init__ lst h = (h, Raise IndexError)).
  { unfold __init__, try_except_AssertionError.
    rewrite (run_bind_raise _ _ h h IndexError); [reflexivity|].
    unfold list_getitem. erewrite run_bind_ret; [|by apply run_get_list]. done. }
  rewrite H. split; [done|]. split; [congruence|]. intros h' s. congruence.
Qed.

Lemma C10_init_empty_witness :
  __init__ 0%nat [OList []] = ([OList []], Raise IndexError).
Proof.
  apply (C10_init_empty [OList []] 0%nat). reflexivity.
Defined.

(** C6 — [__setitem__] with a plane of another dimension raises [Exception]
    with [SAME_DIM_MSG] and leaves the store, hence every row, as it was; with
    a plane of the system's dimension and an index inside the list it stores
    the reference at that index and changes no other entry of the list and
    no other object. *)
Theorem C6_setitem (h : heap) (s : LinearSystem) (ls : list loc) (index : Z)
    (plane : loc) (p : Plane) :
  h !! planes s = Some (OList ls) ->
  is_plane h plane p ->
  (plane_dimension p <> dimension s ->
     __setitem__ s index plane h = (h, Raise (Exception SAME_DIM_MSG)))
  /\ (plane_dimension p = dimension s ->
      forall n, py_index (length ls) index = Some n ->
        exists h', __setitem__ s index plane h = (h', Ret tt)
          /\ (exists ls', h' !! planes s = Some (OList ls')
                /\ ls' !! n = Some plane
                /\ length ls' = length ls
                /\ forall m, m <> n -> ls' !! m = ls !! m)
          /\ (forall l, l <> planes s -> h' !! l = h !! l)).
Proof.
  intros Hl Hp. split.
  - intros Hne. unfold __setitem__, try_except_AssertionError.
    erewrite run_bind_ret; [|by apply run_dimension_of].
    rewrite (run_bind_raise _ _ h h AssertionError); [reflexivity|].
    apply Z.eqb_neq in Hne. by rewrite Hne.
  - intros Heq n Hn. unfold __setitem__, try_except_AssertionError.
    erewrite run_bind_ret; [|by apply run_dimension_of].
    erewrite run_bind_ret; [|apply Z.eqb_eq in Heq; by rewrite Heq].
    unfold list_setitem.
    erewrite run_bind_ret; [|by apply run_get_list].
    rewrite Hn. eexists. split; [reflexivity|]. split.
    + exists (<[n := plane]> ls).
      pose proof (py_index_lt _ _ _ Hn) as Hlt.
      split; [|split; [|split]].
      * apply list_lookup_insert_eq. by eapply lookup_lt_Some.
      * by apply list_lookup_insert_eq.
      * by rewrite length_insert.
      * intros m Hm. by apply list_lookup_insert_ne.
    + intros l Hne. by apply list_lookup_insert_ne.
Qed.

Lemma C6_setitem_witness :
  (exists h', __setitem__ (system_of scenario_system 3) 0 1%nat (store_of scenario_system)
              = (h', Ret tt)
     /\ (exists ls', h' !! planes (system_of scenario_system 3) = Some (OList ls')
           /\ ls' !! 0%nat = Some 1%nat
           /\ length ls' = 3%nat
           /\ forall m, m <> 0%nat -> ls' !! m = [0%nat; 1%nat; 2%nat] !! m)
     /\ (forall l, l <> planes (system_of scenario_system 3) ->
           h' !! l = store_of scenario_system !! l))
  /\ __setitem__ (mkSystem 1%nat 3) 0 2%nat mixed_store
     = (mixed_store, Raise (Exception SAME_DIM_MSG)).
Proof.
  pose proof (C6_setitem (store_of scenario_system) (system_of scenario_system 3)
                [0%nat; 1%nat; 2%nat] 0 1%nat (plane_Z [0; 1; 1] 2) eq_refl eq_refl)
    as [_ H2].
  pose proof (C6_setitem mixed_store (mkSystem 1%nat 3)
                [0%nat; 2%nat] 0 2%nat (plane_Z [1; 2] 0) eq_refl eq_refl) as [H3 _].
  split.
  - exact (H2 eq_refl 0%nat eq_refl).
  - apply H3. vm_compute. discriminate.
Defined.

(** C7 — The pivot scan leaves the store as it is whatever happens.  When
    the collaborator answers every row with an index or with the
    no-nonzero signal, the scan returns, row by row, that index or [-1];
    the first row on which it fails otherwise makes the scan raise that very
    exception.  With the collaborator the spec describes, the entry of a row
    is the index of its first nonzero coefficient, or [-1] when all its
    coefficients are zero. *)
Theorem C7_pivot_scan (msg : string) (fni : Plane -> list Qc -> exn + Z)
    (h : heap) (s : LinearSystem) (rs : list Plane) :
  rows_in h (planes s) rs ->
  fst (get_first_nonzero_indexes msg fni s h) = h
  /\ (Forall (quiet msg fni) rs ->
        snd (get_first_nonzero_indexes msg fni s h) = Ret (map (entry_of fni) rs))
  /\ (forall pre p post e,
        rs = pre ++ p :: post ->
        Forall (quiet msg fni) pre ->
        fni p (normal_vector p) = inl e ->
        e <> NoNonZeroElements msg ->
        snd (get_first_nonzero_indexes msg fni s h) = Raise e)
  /\ get_first_nonzero_indexes msg (first_nonzero_index_model msg) s h
     = (h, Ret (map pivot_index rs))
  /\ Forall (fun p =>
               (pivot_index p = -1 /\ Forall (fun x => x = Q2Qc 0) (normal_vector p))
               \/ (exists k x, pivot_index p = Z.of_nat k
                     /\ normal_vector p !! k = Some x /\ x <> Q2Qc 0
                     /\ forall j, (j < k)%nat -> normal_vector p !! j = Some (Q2Qc 0)))
            rs.
Proof.
  intros (ls & Hl & Hf).
  assert (Hrun : forall f,
    get_first_nonzero_indexes msg f s h
    = for_each (combine (seq 0 (length ls)) ls) (scan_body msg f)
        (replicate (length ls) (-1)) h).
  { intros f. unfold get_first_nonzero_indexes, __len__, list_len.
    erewrite run_bind_ret;
      [|erewrite run_bind_ret; [|by apply run_get_list]; reflexivity].
    erewrite run_bind_ret; [|by apply run_get_list].
    by rewrite Nat2Z.id. }
  assert (Hquiet : forall f, Forall (quiet msg f) rs ->
            get_first_nonzero_indexes msg f s h = (h, Ret (map (entry_of f) rs))).
  { intros f Hq. rewrite Hrun.
    apply (scan_loop_quiet msg f h ls rs Hf Hq []). }
  split; [|split; [|split; [|split]]].
  - rewrite Hrun. apply (scan_loop_heap msg fni h ls rs Hf 0%nat).
    by rewrite length_replicate.
  - intros Hq. by rewrite Hquiet.
  - intros pre p post e -> Hq He Hne. rewrite Hrun.
    apply (scan_loop_raise msg fni h pre p post e Hq He Hne ls Hf 0%nat).
    by rewrite length_replicate.
  - rewrite Hquiet.
    + f_equal. f_equal. apply map_ext. intros p. apply entry_of_model.
    + apply Forall_forall. intros p _. apply quiet_model.
  - apply Forall_forall. intros p _. unfold pivot_index, pivot.
    destruct (first_nonzero (normal_vector p)) as [k|] eqn:E.
    + right. destruct (first_nonzero_Some _ _ E) as [(x & Hx & Hnz) Hlt].
      exists k, x. auto.
    + left. split; [done|]. by apply first_nonzero_None.
Qed.

Lemma C7_pivot_scan_witness :
  get_first_nonzero_indexes "none" (first_nonzero_index_model "none")
    (system_of reduced_system 3) (store_of reduced_system)
  = (store_of reduced_system, Ret [0; 1; -1])
  /\ snd (get_first_nonzero_indexes "none" (fun _ _ => inl TypeError)
            (system_of reduced_system 3) (store_of reduced_system))
     = Raise TypeError.
Proof.
  destruct (C7_pivot_scan "none" (first_nonzero_index_model "none")
              (store_of reduced_system) (system_of reduced_system 3)
              reduced_system) as (_ & _ & _ & Hmodel & _).
  { exists [0%nat; 1%nat; 2%nat]. split; [reflexivity|]. repeat constructor. }
  destruct (C7_pivot_scan "none" (fun _ _ => inl TypeError)
              (store_of reduced_system) (system_of reduced_system 3)
              reduced_system) as (_ & _ & Hraise & _).
  { exists [0%nat; 1%nat; 2%nat]. split; [reflexivity|]. repeat constructor. }
  split.
  - exact Hmodel.
  - apply (Hraise [] (plane_Z [1; 0; 2] 7) [plane_Z [0; 1; 3] 9; plane_Z [0; 0; 0] 0]
             TypeError).
    + reflexivity.
    + constructor.
    + reflexivity.
    + discriminate.
Defined.

Lemma rows_in_frame (h h' : heap) lst rs :
  take (length h) h' = h -> rows_in h lst rs -> rows_in h' lst rs.
Proof.
  intros Hfr (ls & Hl & Hf).
  assert (Hlift : forall l o, h !! l = Some o -> h' !! l = Some o).
  { intros l o Ho. pose proof (lookup_lt_Some _ _ _ Ho) as Hlt.
    rewrite <- Hfr in Ho. by rewrite lookup_take_lt in Ho. }
  exists ls. split; [by apply Hlift|].
  eapply Forall2_impl; [|exact Hf]. intros l p Hp. by apply Hlift.
Qed.

Lemma work_fresh_copy (h h' : heap) t rs :
  work (length h) (planes t) h' rs -> fresh_copy h h' t.
Proof.
  intros [Hn (ls & Hl & Hf)]. split; [done|]. exists ls. split; [done|].
  apply Forall_forall. intros l Hin.
  apply list_elem_of_In, list_elem_of_lookup in Hin as [i Hi].
  destruct (Forall2_lookup_l _ _ _ _ _ Hf Hi) as (p & _ & Hp & Hle). eauto.
Qed.

(** C4 — Whatever the store, the system, the fuel and the outcome,
    [compute_triangular_form] and [compute_rref_form] leave every object of
    the store they were called on as it was: the list of [S] and each of its
    rows.  On a well-formed system they return, the rows of [S] read as
    before, and the system returned is made of objects allocated during the
    call. *)
Theorem C4_receiver_untouched (fuel : nat) (h : heap) (s : LinearSystem) :
  take (length h) (fst (compute_triangular_form fuel s h)) = h
  /\ take (length h) (fst (compute_rref_form fuel s h)) = h
  /\ forall rs,
       system_ok h s rs ->
       dimension s + 2 <= Z.of_nat fuel ->
       (exists h' t, compute_triangular_form fuel s h = (h', Ret t)
          /\ rows_in h' (planes s) rs /\ fresh_copy h h' t)
       /\ (exists h' r, compute_rref_form fuel s h = (h', Ret r)
             /\ rows_in h' (planes s) rs /\ fresh_copy h h' r).
Proof.
  split; [|split].
  - apply keeps_whole_store, keeps_compute_triangular_form.
  - apply keeps_whole_store, keeps_compute_rref_form.
  - intros rs Hsys Hfuel. pose proof Hsys as [Hrows Hdim]. split.
    + destruct (compute_triangular_form_rows_terminates fuel (dimension s) rs
                  Hdim Hfuel) as (rs' & Hrs' & _).
      destruct (wp_run _ _ _ (wp_compute_triangular_form fuel h s rs rs' Hsys Hrs'))
        as (h' & t & Hrun & _ & Hw & Hfr & _).
      exists h', t. split; [done|].
      split; [by eapply rows_in_frame|by eapply work_fresh_copy].
    + destruct (compute_rref_form_rows_terminates fuel (dimension s) rs Hdim Hfuel)
        as (rs' & Hrs' & _).
      destruct (wp_run _ _ _ (wp_compute_rref_form fuel h s rs rs' Hsys Hrs'))
        as (h' & t & Hrun & _ & Hw & Hfr & _).
      exists h', t. split; [done|].
      split; [by eapply rows_in_frame|by eapply work_fresh_copy].
Qed.

Lemma scenario_system_ok :
  system_ok (store_of scenario_system) (system_of scenario_system 3) scenario_system.
Proof.
  split.
  - exists [0%nat; 1%nat; 2%nat]. split; [reflexivity|]. repeat constructor.
  - repeat constructor.
Qed.

Lemma C4_receiver_untouched_witness :
  (exists h' t,
     compute_triangular_form 5 (system_of scenario_system 3) (store_of scenario_system)
     = (h', Ret t)
     /\ rows_in h' (planes (system_of scenario_system 3)) scenario_system
     /\ fresh_copy (store_of scenario_system) h' t)
  /\ (exists h' r,
        compute_rref_form 5 (system_of scenario_system 3) (store_of scenario_system)
        = (h', Ret r)
        /\ rows_in h' (planes (system_of scenario_system 3)) scenario_system
        /\ fresh_copy (store_of scenario_system) h' r).
Proof.
  destruct (C4_receiver_untouched 5 (store_of scenario_system)
              (system_of scenario_system 3)) as (_ & _ & H).
  apply (H scenario_system).
  - exact scenario_system_ok.
  - simpl. lia.
Defined.

Lemma turn_makes_progress_holds rows d row dim rs :
  ok rows d rs -> 0 <= row < rows -> 0 <= dim < d ->
  turn_makes_progress rows row (dim, rs).
Proof.
  intros Hok Hrow Hdim. unfold turn_makes_progress.
  unfold triangular_body_rows at 1. simpl.
  destruct (is_zero (coef rs row dim)) eqn:Ez; [|done].
  pose proof (swap_search_rows_found rows d row dim rs Hok Hrow) as Hfound.
  destruct (swap_search_rows rows row dim rs) as [swap rs']. simpl in *.
  destruct swap; simpl; [|by left].
  right. split; [done|].
  unfold triangular_body_rows. simpl.
  rewrite (is_pos_not_zero _ (Hfound eq_refl)). eauto.
Qed.

(** C9 — On a well-formed system both methods return: every run of a
    [while] loop needs at most [dimension + 2] turns, whatever the number of
    rows.  A turn of the cursor loop of the triangular reducer leaves the
    loop, advances the cursor, or swaps in a row that makes the next turn
    leave the loop; the cursor loops of the RREF reducer count down. *)
Theorem C9_termination (fuel : nat) (h : heap) (s : LinearSystem) (rs : list Plane) :
  system_ok h s rs ->
  dimension s + 2 <= Z.of_nat fuel ->
  (exists h' t, compute_triangular_form fuel s h = (h', Ret t))
  /\ (exists h' r, compute_rref_form fuel s h = (h', Ret r))
  /\ (forall rs' row dim,
        ok (Z.of_nat (length rs)) (dimension s) rs' ->
        0 <= row < Z.of_nat (length rs) -> 0 <= dim < dimension s ->
        turn_makes_progress (Z.of_nat (length rs)) row (dim, rs')).
Proof.
  intros Hsys Hfuel. pose proof Hsys as [Hrows Hdim]. split; [|split].
  - destruct (compute_triangular_form_rows_terminates fuel (dimension s) rs Hdim Hfuel)
      as (rs' & Hrs' & _).
    destruct (wp_run _ _ _ (wp_compute_triangular_form fuel h s rs rs' Hsys Hrs'))
      as (h' & t & Hrun & _). eauto.
  - destruct (compute_rref_form_rows_terminates fuel (dimension s) rs Hdim Hfuel)
      as (rs' & Hrs' & _).
    destruct (wp_run _ _ _ (wp_compute_rref_form fuel h s rs rs' Hsys Hrs'))
      as (h' & t & Hrun & _). eauto.
  - intros rs' row dim Hok Hrow Hd.
    by eapply turn_makes_progress_holds.
Qed.

Lemma C9_termination_witness :
  (exists h' t,
     compute_triangular_form 5 (system_of scenario_system 3) (store_of scenario_system)
     = (h', Ret t))
  /\ (exists h' r,
        compute_rref_form 5 (system_of scenario_system 3) (store_of scenario_system)
        = (h', Ret r))
  /\ (forall rs' row dim,
        ok (Z.of_nat (length scenario_system))
           (dimension (system_of scenario_system 3)) rs' ->
        0 <= row < Z.of_nat (length scenario_system) ->
        0 <= dim < dimension (system_of scenario_system 3) ->
        turn_makes_progress (Z.of_nat (length scenario_system)) row (dim, rs')).
Proof.
  apply (C9_termination 5 (store_of scenario_system)
           (system_of scenario_system 3) scenario_system).
  - exact scenario_system_ok.
  - simpl. lia.
Defined.

(** C1 — [compute_rref_form] on [2x = 4], [3y = 3], [5z = 5] returns
    [2x = 4], [3y = 3], [z = 1]: the normalization pass scales the last row
    only, because its cursor is not set back to [dimension - 1] for the rows
    above.  The first two rows have nonzero coefficients and their leading
    coefficients are 2 and 3. *)
Theorem C1_rows_not_normalised :
  result_rows (compute_rref_form 5 (system_of diagonal_system 3)
                 (store_of diagonal_system))
  = Some [plane_Z [2; 0; 0] 4; plane_Z [0; 3; 0] 3; plane_Z [0; 0; 1] 1]
  /\ pivot (plane_Z [2; 0; 0] 4) = Some 0%nat
  /\ normal_vector (plane_Z [2; 0; 0] 4) !! 0%nat = Some (Qc_of_Z 2)
  /\ Qc_of_Z 2 <> Qc_of_Z 1.
Proof.
  split; [|split; [|split]].
  - apply (bool_decide_unpack _). vm_compute. exact I.
  - apply (bool_decide_unpack _). vm_compute. exact I.
  - reflexivity.
  - apply (bool_decide_unpack _). vm_compute. exact I.
Qed.

(** C2 — [compute_triangular_form] on [y = 1], [z = 1], [x = 1] returns the
    rows as they were: the search for a row to swap in stops before the last
    row.  The pivot scan of the result is [1; 2; 0], so the pivots of rows 0
    and 1 are to the right of the pivot of row 2. *)
Theorem C2_pivots_out_of_order :
  exists h' t,
    compute_triangular_form 5 (system_of crossed_system 3) (store_of crossed_system)
    = (h', Ret t)
    /\ read_rows h' (planes t) = Some crossed_system
    /\ snd (get_first_nonzero_indexes "none" (first_nonzero_index_model "none") t h')
       = Ret [1; 2; 0]
    /\ ~ (1 <= 0).
Proof.
  eexists _, _. split; [vm_compute; reflexivity|].
  split; [|split; [|lia]]; apply (bool_decide_unpack _); vm_compute; exact I.
Qed.

(** C3 — On [y = 1], [-x = 1], [z = 1] the coefficient at row 0, cursor 0 is
    zero and row 1, strictly below and not the last row, has the nonzero
    coefficient -1 there.  The turn of the loop swaps nothing and advances
    the cursor: the search only takes rows whose coefficient is positive.
    The triangular form keeps the rows as they were, pivots [1; 0; 2]. *)
Theorem C3_negative_candidate_skipped :
  coefficient_at (system_of negative_system 3) 0 0 (store_of negative_system)
  = (store_of negative_system, Ret (Qc_of_Z 0))
  /\ coefficient_at (system_of negative_system 3) 1 0 (store_of negative_system)
     = (store_of negative_system, Ret (Qc_of_Z (-1)))
  /\ swap_search (system_of negative_system 3) 3 0 0 (store_of negative_system)
     = (store_of negative_system, Ret false)
  /\ triangular_body (system_of negative_system 3) 3 0 0 (store_of negative_system)
     = (store_of negative_system, Ret (Continue 1))
  /\ result_rows (compute_triangular_form 5 (system_of negative_system 3)
                    (store_of negative_system))
     = Some negative_system.
Proof.
  repeat split; apply (bool_decide_unpack _); vm_compute; exact I.
Qed.

(** C8 — With exact rational coefficients (Python's [fractions.Fraction])
    [compute_rref_form] is idempotent: on a system whose rows are in reduced
    row-echelon form (every pivot is 1, pivots move strictly to the right
    going down with the all-zero rows last, and a pivot column is zero in
    every other row) it returns, without raising, a system with the same
    dimension and the same rows.  No rounding takes place, so the rows are
    equal and not only close. *)
Theorem C8_rref_idempotent_on_fractions (fuel : nat) (d : Z) (rs : list Plane) :
  same_dimension d rs ->
  is_rref rs = true ->
  d + 2 <= Z.of_nat fuel ->
  PyNum.compute_rref_form fuel (fraction_system d rs)
  = PyNum.Ok (fraction_system d rs).
Proof.
  intros Hdim Hr Hfuel.
  pose proof (compute_rref_form_rows_reduced fuel d rs Hdim Hr Hfuel) as Hrows.
  by destruct (compute_rref_form_lifts fuel d rs rs Hdim Hrows) as [Hrun _].
Qed.

Lemma C8_rref_idempotent_on_fractions_witness :
  PyNum.compute_rref_form 5 (fraction_system 3 reduced_system)
  = PyNum.Ok (fraction_system 3 reduced_system).
Proof.
  apply (C8_rref_idempotent_on_fractions 5 3 reduced_system).
  - repeat constructor.
  - vm_compute. reflexivity.
  - simpl. lia.
Defined.

(** C8, as claimed — With [int] coefficients idempotence fails, and by far
    more than a rounding error.  The system [x + 10^8 z + w = 0],
    [y + z + 10^8 w = 0] is in reduced row-echelon form, and
    [compute_rref_form] returns it with the equation
    [x + 10^8 z + 2 w = 0] in the first row: the coefficient 1 of [w] has
    become 2.0, off by 1.0.  The backward pass subtracts multiples of the
    second row and adds them back, and the binary64 quotient and products
    lose the difference. *)
Theorem C8_rref_not_idempotent_on_ints :
  is_rref [plane_Z [1; 0; 100000000; 1] 0; plane_Z [0; 1; 1; 100000000] 0] = true
  /\ PyNum.compute_rref_form 6
       (PyNum.mkSystem
          [PyNum.plane_int [1; 0; 100000000; 1] 0;
           PyNum.plane_int [0; 1; 1; 100000000] 0] 4)
     = PyNum.Ok
         (PyNum.mkSystem
            [PyNum.plane_float [1; 0; 100000000; 2] 0;
             PyNum.plane_float [0; 1; 1; 100000000] 0] 4)
  /\ PyNum.plane_getitem (PyNum.plane_int [1; 0; 100000000; 1] 0) 3
     = PyNum.Ok (PyNum.Int 1)
  /\ PyNum.plane_getitem (PyNum.plane_float [1; 0; 100000000; 2] 0) 3
     = PyNum.Ok (PyNum.Float (PyNum.float_of_Z 2))
  /\ PyNum.sub (PyNum.Float (PyNum.float_of_Z 2)) (PyNum.Int 1)
     = PyNum.Ok (PyNum.Float (PyNum.float_of_Z 1)).
Proof. repeat split; vm_compute; reflexivity. Qed.

(** * Further properties of the methods *)

(** ** Running a method on the system itself *)

Lemma rows_in_work (h : heap) lst rs : rows_in h lst rs -> work 0 lst h rs.
Proof.
  intros (ls & Hl & Hf). split; [lia|]. exists ls. split; [done|].
  eapply Forall2_impl; [|exact Hf]. intros l p Hp. split; [done|lia].
Qed.

Lemma refines_run {A} lst (m : M A) rs a rs' (h : heap) :
  refines 0 lst m rs a rs' -> rows_in h lst rs ->
  exists h', m h = (h', Ret a) /\ rows_in h' lst rs' /\ ext lst h h'.
Proof.
  intros Hr Hrows.
  destruct (wp_run _ _ _ (Hr h (rows_in_work _ _ _ Hrows)))
    as (h' & a' & Hrun & -> & Hw & He).
  exists h'. split; [done|]. split; [by eapply work_rows_in|done].
Qed.

Lemma run_list_getitem (h : heap) lst ls i n x :
  h !! lst = Some (OList ls) -> py_index (length ls) i = Some n -> ls !! n = Some x ->
  list_getitem lst i h = (h, Ret x).
Proof.
  intros Hl Hi Hx. unfold list_getitem.
  erewrite run_bind_ret; [|by apply run_get_list]. by rewrite Hi, Hx.
Qed.

Lemma run_list_getitem_out (h : heap) lst ls i :
  h !! lst = Some (OList ls) -> py_index (length ls) i = None ->
  list_getitem lst i h = (h, Raise IndexError).
Proof.
  intros Hl Hi. unfold list_getitem.
  erewrite run_bind_ret; [|by apply run_get_list]. by rewrite Hi.
Qed.

Lemma run_list_setitem (h : heap) lst ls i n v :
  h !! lst = Some (OList ls) -> py_index (length ls) i = Some n ->
  list_setitem lst i v h = (<[lst := OList (<[n := v]> ls)]> h, Ret tt).
Proof.
  intros Hl Hi. unfold list_setitem.
  erewrite run_bind_ret; [|by apply run_get_list]. by rewrite Hi.
Qed.

Lemma py_index_lookup {A} (ls : list A) i n :
  py_index (length ls) i = Some n -> exists x, ls !! n = Some x.
Proof.
  intros Hi. apply py_index_lt in Hi.
  destruct (lookup_lt_is_Some_2 ls n Hi) as [x Hx]. eauto.
Qed.

(** ** [swap_rows] *)

Lemma run_swap_rows (h : heap) s ls i j a b x y :
  h !! planes s = Some (OList ls) ->
  py_index (length ls) i = Some a -> py_index (length ls) j = Some b ->
  ls !! a = Some x -> ls !! b = Some y ->
  swap_rows s i j h = (<[planes s := OList (<[b := x]> (<[a := y]> ls))]> h, Ret tt).
Proof.
  intros Hl Ha Hb Hx Hy. unfold swap_rows.
  erewrite run_bind_ret; [|by eapply run_list_getitem].
  erewrite run_bind_ret; [|by eapply run_list_getitem].
  erewrite run_bind_ret; [|by eapply run_list_setitem].
  erewrite run_list_setitem;
    [|apply list_lookup_insert_eq; by eapply lookup_lt_Some
     |by rewrite length_insert].
  by rewrite list_insert_insert_eq.
Qed.

Lemma is_plane_insert_list (h : heap) lst ls ls' l p :
  h !! lst = Some (OList ls) -> is_plane h l p ->
  is_plane (<[lst := OList ls']> h) l p.
Proof.
  intros Hl Hp. unfold is_plane in *.
  rewrite list_lookup_insert_ne; [done|]. intros ->. congruence.
Qed.

Lemma lookup_swap {A} (l : list A) a b x y k :
  l !! a = Some x -> l !! b = Some y ->
  <[b := x]> (<[a := y]> l) !! k
  = if decide (k = b) then Some x else if decide (k = a) then Some y else l !! k.
Proof.
  intros Hx Hy.
  pose proof (lookup_lt_Some _ _ _ Hx) as Hla.
  pose proof (lookup_lt_Some _ _ _ Hy) as Hlb.
  destruct (decide (k = b)) as [->|Hkb].
  - apply list_lookup_insert_eq. by rewrite length_insert.
  - rewrite list_lookup_insert_ne by done.
    destruct (decide (k = a)) as [->|Hka].
    + by apply list_lookup_insert_eq.
    + by rewrite list_lookup_insert_ne.
Qed.

(** X1 — [swap_rows] with two indices inside the list (counted from either
    end, as Python does) returns and exchanges the two rows: the row at the
    first index is the one that was at the second and the other way round,
    every other row is where it was, the rows keep their dimension, no object
    is allocated and no object other than the list changes. *)
Theorem swap_rows_exchanges (h : heap) (s : LinearSystem) (rs : list Plane)
    (index_1 index_2 : Z) (a b : nat) :
  rows_in h (planes s) rs ->
  py_index (length rs) index_1 = Some a ->
  py_index (length rs) index_2 = Some b ->
  exists h' rs',
    swap_rows s index_1 index_2 h = (h', Ret tt)
    /\ rows_in h' (planes s) rs'
    /\ rs' !! a = rs !! b
    /\ rs' !! b = rs !! a
    /\ (forall k, k <> a -> k <> b -> rs' !! k = rs !! k)
    /\ (forall d, same_dimension d rs -> same_dimension d rs')
    /\ length h' = length h
    /\ (forall l, l <> planes s -> h' !! l = h !! l).
Proof.
  intros (ls & Hl & Hf) Ha Hb.
  pose proof (Forall2_length Hf) as Hlen. rewrite <- Hlen in Ha, Hb.
  destruct (py_index_lookup ls _ _ Ha) as [x Hx].
  destruct (py_index_lookup ls _ _ Hb) as [y Hy].
  destruct (Forall2_lookup_l _ _ _ _ _ Hf Hx) as (p & Hp & Hxp).
  destruct (Forall2_lookup_l _ _ _ _ _ Hf Hy) as (q & Hq & Hyq).
  exists (<[planes s := OList (<[b := x]> (<[a := y]> ls))]> h),
         (<[b := p]> (<[a := q]> rs)).
  split; [by eapply run_swap_rows|].
  split; [|split; [|split; [|split; [|split; [|split]]]]].
  - exists (<[b := x]> (<[a := y]> ls)). split.
    + apply list_lookup_insert_eq. by eapply lookup_lt_Some.
    + apply Forall2_insert; [apply Forall2_insert|].
      * eapply Forall2_impl; [|exact Hf]. intros l r Hr.
        by eapply is_plane_insert_list.
      * by eapply is_plane_insert_list.
      * by eapply is_plane_insert_list.
  - rewrite (lookup_swap rs a b p q a Hp Hq), Hq.
    destruct (decide (a = b)) as [->|]; [congruence|].
    by destruct (decide (a = a)).
  - rewrite (lookup_swap rs a b p q b Hp Hq), Hp.
    by destruct (decide (b = b)).
  - intros k Hka Hkb. rewrite (lookup_swap rs a b p q k Hp Hq).
    destruct (decide (k = b)); [done|]. by destruct (decide (k = a)).
  - intros d Hd. unfold same_dimension in *.
    rewrite Forall_lookup in Hd. apply Forall_lookup. intros k r.
    rewrite (lookup_swap rs a b p q k Hp Hq).
    destruct (decide (k = b)); [intros [= <-]; eauto|].
    destruct (decide (k = a)); [intros [= <-]; eauto|eauto].
  - by rewrite length_insert.
  - intros l Hne. by apply list_lookup_insert_ne.
Qed.

Lemma sample_rows_in :
  rows_in (store_of scenario_system) (planes (system_of scenario_system 3))
    scenario_system.
Proof. exact (proj1 scenario_system_ok). Qed.

Lemma swap_rows_exchanges_witness :
  exists h' rs',
    swap_rows (system_of scenario_system 3) 0 (-1) (store_of scenario_system)
    = (h', Ret tt)
    /\ rows_in h' (planes (system_of scenario_system 3)) rs'
    /\ rs' !! 0%nat = scenario_system !! 2%nat
    /\ rs' !! 2%nat = scenario_system !! 0%nat
    /\ (forall k, k <> 0%nat -> k <> 2%nat -> rs' !! k = scenario_system !! k)
    /\ (forall d, same_dimension d scenario_system -> same_dimension d rs')
    /\ length h' = length (store_of scenario_system)
    /\ (forall l, l <> planes (system_of scenario_system 3) ->
          h' !! l = store_of scenario_system !! l).
Proof.
  apply (swap_rows_exchanges (store_of scenario_system) (system_of scenario_system 3)
           scenario_system 0 (-1) 0%nat 2%nat).
  - exact sample_rows_in.
  - reflexivity.
  - reflexivity.
Defined.

(** X2 — Swapping the same two rows twice gives back the store the first
    swap started from, object for object. *)
Theorem swap_rows_twice (h : heap) (s : LinearSystem) (ls : list loc)
    (index_1 index_2 : Z) (a b : nat) :
  h !! planes s = Some (OList ls) ->
  py_index (length ls) index_1 = Some a ->
  py_index (length ls) index_2 = Some b ->
  (swap_rows s index_1 index_2;; swap_rows s index_1 index_2) h = (h, Ret tt).
Proof.
  intros Hl Ha Hb.
  destruct (py_index_lookup ls _ _ Ha) as [x Hx].
  destruct (py_index_lookup ls _ _ Hb) as [y Hy].
  pose proof (lookup_lt_Some _ _ _ Hl) as Hlt.
  set (ls1 := <[b := x]> (<[a := y]> ls)).
  assert (Hlen1 : length ls1 = length ls).
  { unfold ls1. by rewrite !length_insert. }
  assert (Hx1 : ls1 !! a = Some (if decide (a = b) then x else y)).
  { unfold ls1. rewrite (lookup_swap ls a b x y a Hx Hy).
    destruct (decide (a = b)); [done|]. by destruct (decide (a = a)). }
  assert (Hy1 : ls1 !! b = Some x).
  { unfold ls1. rewrite (lookup_swap ls a b x y b Hx Hy).
    by destruct (decide (b = b)). }
  erewrite run_bind_ret; [|by eapply run_swap_rows].
  fold ls1. rewrite <- Hlen1 in Ha, Hb.
  rewrite (run_swap_rows _ s ls1 index_1 index_2 a b _ _
             (list_lookup_insert_eq h _ _ Hlt) Ha Hb Hx1 Hy1).
  f_equal. rewrite list_insert_insert_eq. apply list_insert_id.
  rewrite Hl. do 2 f_equal. apply list_eq. intros k.
  rewrite (lookup_swap ls1 a b _ _ k Hx1 Hy1). unfold ls1.
  rewrite (lookup_swap ls a b x y k Hx Hy).
  destruct (decide (k = b)) as [->|Hkb].
  - destruct (decide (a = b)) as [->|]; [congruence|done].
  - destruct (decide (k = a)) as [->|]; [|done]. done.
Qed.

Lemma swap_rows_twice_witness :
  (swap_rows (system_of scenario_system 3) 0 2;;
   swap_rows (system_of scenario_system 3) 0 2) (store_of scenario_system)
  = (store_of scenario_system, Ret tt).
Proof.
  apply (swap_rows_twice (store_of scenario_system) (system_of scenario_system 3)
           [0%nat; 1%nat; 2%nat] 0 2 0%nat 2%nat); reflexivity.
Defined.

(** X3 — [swap_rows] with an index outside the list raises [IndexError] and
    leaves the store as it was: both entries are read before either is
    written, so no half-done swap is left behind. *)
Theorem swap_rows_index_error (h : heap) (s : LinearSystem) (ls : list loc)
    (index_1 index_2 : Z) :
  h !! planes s = Some (OList ls) ->
  py_index (length ls) index_1 = None \/ py_index (length ls) index_2 = None ->
  swap_rows s index_1 index_2 h = (h, Raise IndexError).
Proof.
  intros Hl Hout. unfold swap_rows.
  destruct (py_index (length ls) index_1) as [a|] eqn:Ha.
  - destruct Hout as [|Hb]; [done|].
    destruct (py_index_lookup ls _ _ Ha) as [x Hx].
    erewrite run_bind_ret; [|by eapply run_list_getitem].
    erewrite run_bind_raise; [done|]. by eapply run_list_getitem_out.
  - erewrite run_bind_raise; [done|]. by eapply run_list_getitem_out.
Qed.

Lemma swap_rows_index_error_witness :
  swap_rows (system_of scenario_system 3) 0 3 (store_of scenario_system)
  = (store_of scenario_system, Raise IndexError).
Proof.
  apply (swap_rows_index_error (store_of scenario_system)
           (system_of scenario_system 3) [0%nat; 1%nat; 2%nat] 0 3).
  - reflexivity.
  - right. reflexivity.
Defined.

(** ** [multiply_coefficient_and_row] and [add_multiple_times_row_to_row] *)

Lemma system_ok_ok (h : heap) s rs :
  system_ok h s rs -> ok (Z.of_nat (length rs)) (dimension s) rs.
Proof. intros [_ Hd]. by split. Qed.


(** X4 — [multiply_coefficient_and_row] with a row index inside the system
    returns and replaces that row by its multiple: every coefficient and the
    constant term times the coefficient given.  The other rows, the number of
    rows and the dimension stay, and no object other than the list changes:
    the product is a new plane, the plane that was the row keeps its value. *)
Theorem multiply_coefficient_and_row_scales (h : heap) (s : LinearSystem)
    (rs : list Plane) (coefficient : Qc) (row : Z) :
  system_ok h s rs ->
  0 <= row < Z.of_nat (length rs) ->
  exists h' rs',
    multiply_coefficient_and_row s coefficient row h = (h', Ret tt)
    /\ system_ok h' s rs'
    /\ length rs' = length rs
    /\ row_at rs' row = plane_scale (row_at rs row) coefficient
    /\ (forall k, 0 <= k -> k <> row -> row_at rs' k = row_at rs k)
    /\ (forall l, l <> planes s -> (l < length h)%nat -> h' !! l = h !! l).
Proof.
  intros Hsys Hrow. pose proof (system_ok_ok _ _ _ Hsys) as Hok.
  destruct Hsys as [Hrows Hd].
  destruct (refines_run (planes s) (multiply_coefficient_and_row s coefficient row)
              rs tt _ h (refines_scale_block 0 (planes s) rs row coefficient Hrow)
              Hrows) as (h' & Hrun & Hrows' & _ & Hext).
  exists h', (set_row rs row (plane_scale (row_at rs row) coefficient)).
  split; [done|]. split; [|split; [|split; [|split]]].
  - split; [done|].
    apply (ok_set_row (Z.of_nat (length rs))); [done|].
    rewrite plane_dimension_scale. by eapply ok_row_at.
  - apply length_set_row.
  - by apply row_at_set_row_eq.
  - intros k Hk Hne. apply row_at_set_row_ne; lia.
  - done.
Qed.

Lemma multiply_coefficient_and_row_scales_witness :
  exists h' rs',
    multiply_coefficient_and_row (system_of scenario_system 3) (Qc_of_Z 2) 1
      (store_of scenario_system) = (h', Ret tt)
    /\ system_ok h' (system_of scenario_system 3) rs'
    /\ length rs' = length scenario_system
    /\ row_at rs' 1 = plane_scale (row_at scenario_system 1) (Qc_of_Z 2)
    /\ (forall k, 0 <= k -> k <> 1 -> row_at rs' k = row_at scenario_system k)
    /\ (forall l, l <> planes (system_of scenario_system 3) ->
          (l < length (store_of scenario_system))%nat ->
          h' !! l = store_of scenario_system !! l).
Proof.
  apply (multiply_coefficient_and_row_scales (store_of scenario_system)
           (system_of scenario_system 3) scenario_system (Qc_of_Z 2) 1).
  - exact scenario_system_ok.
  - simpl. lia.
Defined.



Lemma refines_add_multiple n s rs c i j :
  0 <= i < Z.of_nat (length rs) ->
  0 <= j < Z.of_nat (length rs) ->
  refines n (planes s) (add_multiple_times_row_to_row s c i j) rs tt
    (set_row rs j (plane_plus (row_at rs j) (plane_scale (row_at rs i) c))).
Proof. intros Hi Hj. by apply refines_add_scaled. Qed.

(** X6 — [add_multiple_times_row_to_row] with both indices inside the
    system returns and replaces the target row by the sum of the target row
    and the coefficient times the source row.  Every other row stays as it
    was (the source row too, unless it is the target), as do the number of
    rows and the dimension, and no object other than the list changes. *)
Theorem add_multiple_times_row_to_row_adds (h : heap) (s : LinearSystem)
    (rs : list Plane) (coefficient : Qc) (row_to_add row_to_be_added_to : Z) :
  system_ok h s rs ->
  0 <= row_to_add < Z.of_nat (length rs) ->
  0 <= row_to_be_added_to < Z.of_nat (length rs) ->
  exists h' rs',
    add_multiple_times_row_to_row s coefficient row_to_add row_to_be_added_to h
    = (h', Ret tt)
    /\ system_ok h' s rs'
    /\ length rs' = length rs
    /\ row_at rs' row_to_be_added_to
       = plane_plus (row_at rs row_to_be_added_to)
           (plane_scale (row_at rs row_to_add) coefficient)
    /\ (forall k, 0 <= k -> k <> row_to_be_added_to -> row_at rs' k = row_at rs k)
    /\ (forall l, l <> planes s -> (l < length h)%nat -> h' !! l = h !! l).
Proof.
  intros Hsys Hi Hj. pose proof (system_ok_ok _ _ _ Hsys) as Hok.
  destruct Hsys as [Hrows Hd].
  destruct (refines_run _ _ _ _ _ h
              (refines_add_multiple 0 s rs coefficient _ _ Hi Hj) Hrows)
    as (h' & Hrun & Hrows' & _ & Hext).
  eexists h', _. split; [exact Hrun|]. split; [|split; [|split; [|split]]].
  - split; [done|].
    apply (ok_set_row (Z.of_nat (length rs))); [done|].
    rewrite plane_dimension_plus; [by eapply ok_row_at|].
    rewrite plane_dimension_scale.
    by rewrite (ok_row_at _ _ _ _ Hok Hi), (ok_row_at _ _ _ _ Hok Hj).
  - apply length_set_row.
  - by apply row_at_set_row_eq.
  - intros k Hk Hne. apply row_at_set_row_ne; lia.
  - done.
Qed.

Lemma add_multiple_times_row_to_row_adds_witness :
  exists h' rs',
    add_multiple_times_row_to_row (system_of scenario_system 3) (Qc_of_Z (-1)) 0 2
      (store_of scenario_system) = (h', Ret tt)
    /\ system_ok h' (system_of scenario_system 3) rs'
    /\ length rs' = length scenario_system
    /\ row_at rs' 2
       = plane_plus (row_at scenario_system 2)
           (plane_scale (row_at scenario_system 0) (Qc_of_Z (-1)))
    /\ (forall k, 0 <= k -> k <> 2 -> row_at rs' k = row_at scenario_system k)
    /\ (forall l, l <> planes (system_of scenario_system 3) ->
          (l < length (store_of scenario_system))%nat ->
          h' !! l = store_of scenario_system !! l).
Proof.
  apply (add_multiple_times_row_to_row_adds (store_of scenario_system)
           (system_of scenario_system 3) scenario_system (Qc_of_Z (-1)) 0 2).
  - exact scenario_system_ok.
  - simpl. lia.
  - simpl. lia.
Defined.



(** ** Row operations and the solutions of the system *)

Lemma wsum_scale xs x c :
  wsum (map (fun a => a * c)%Qc xs) x = (wsum xs x * c)%Qc.
Proof.
  revert x. induction xs as [|a xs IH]; intros [|y x]; simpl; try ring.
  rewrite IH. ring.
Qed.

Lemma wsum_plus xs ys x :
  length xs = length ys ->
  wsum (zip_with Qcplus xs ys) x = (wsum xs x + wsum ys x)%Qc.
Proof.
  revert ys x. induction xs as [|a xs IH]; intros [|b ys] x Hl; simpl in *;
    try discriminate; [ring|].
  destruct x as [|y x]; [ring|]. rewrite IH by lia. ring.
Qed.

Lemma wsum_minus xs ys x :
  length xs = length ys ->
  wsum (zip_with Qcminus xs ys) x = (wsum xs x - wsum ys x)%Qc.
Proof.
  revert ys x. induction xs as [|a xs IH]; intros [|b ys] x Hl; simpl in *;
    try discriminate; [ring|].
  destruct x as [|y x]; [ring|]. rewrite IH by lia. ring.
Qed.

Lemma dimension_length p q :
  plane_dimension q = plane_dimension p ->
  length (normal_vector p) = length (normal_vector q).
Proof. unfold plane_dimension. lia. Qed.

Lemma satisfies_scale x p c :
  c <> Q2Qc 0 -> satisfies x (plane_scale p c) <-> satisfies x p.
Proof.
  intros Hc. unfold satisfies, plane_scale. simpl. rewrite wsum_scale. split.
  - intros H.
    replace (wsum (normal_vector p) x)
      with (wsum (normal_vector p) x * c / c)%Qc by (by field).
    rewrite H. by field.
  - by intros ->.
Qed.

Lemma satisfies_plus x p q c :
  plane_dimension q = plane_dimension p ->
  satisfies x q ->
  satisfies x (plane_plus p (plane_scale q c)) <-> satisfies x p.
Proof.
  intros Hd Hq. unfold satisfies in *. unfold plane_plus, plane_scale. simpl.
  rewrite wsum_plus by (rewrite length_map; by apply dimension_length).
  rewrite wsum_scale, Hq. split.
  - intros H.
    replace (wsum (normal_vector p) x)
      with (wsum (normal_vector p) x + constant_term q * c - constant_term q * c)%Qc
      by ring.
    rewrite H. ring.
  - by intros ->.
Qed.

Lemma satisfies_minus x p q c :
  plane_dimension q = plane_dimension p ->
  satisfies x q ->
  satisfies x (plane_minus p (plane_scale q c)) <-> satisfies x p.
Proof.
  intros Hd Hq. unfold satisfies in *. unfold plane_minus, plane_scale. simpl.
  rewrite wsum_minus by (rewrite length_map; by apply dimension_length).
  rewrite wsum_scale, Hq. split.
  - intros H.
    replace (wsum (normal_vector p) x)
      with (wsum (normal_vector p) x - constant_term q * c + constant_term q * c)%Qc
      by ring.
    rewrite H. ring.
  - by intros ->.
Qed.

Lemma solution_rows x rs :
  solution x rs
  <-> forall k, 0 <= k < Z.of_nat (length rs) -> satisfies x (row_at rs k).
Proof.
  unfold solution. rewrite Forall_lookup. split.
  - intros H k Hk. apply (H (Z.to_nat k)). by apply lookup_row_at.
  - intros H k p Hp. pose proof (lookup_lt_Some _ _ _ Hp) as Hlt.
    specialize (H (Z.of_nat k) ltac:(lia)).
    pose proof (lookup_row_at rs (Z.of_nat k) ltac:(lia)) as E.
    rewrite Nat2Z.id, Hp in E. injection E as E. by rewrite E.
Qed.

Lemma same_solutions_refl rs : same_solutions rs rs.
Proof. by intros x. Qed.

Lemma same_solutions_trans rs1 rs2 rs3 :
  same_solutions rs1 rs2 -> same_solutions rs2 rs3 -> same_solutions rs1 rs3.
Proof. intros H1 H2 x. by rewrite (H1 x). Qed.

(** Replacing a row by one that the same points satisfy, as long as they
    satisfy the other rows. *)
Lemma same_solutions_set_row rs i p :
  0 <= i < Z.of_nat (length rs) ->
  (forall x,
     (forall k, 0 <= k < Z.of_nat (length rs) -> k <> i -> satisfies x (row_at rs k)) ->
     satisfies x p <-> satisfies x (row_at rs i)) ->
  same_solutions rs (set_row rs i p).
Proof.
  intros Hi Hp x. rewrite !solution_rows, length_set_row. split.
  - intros H k Hk. destruct (decide (k = i)) as [->|Hne].
    + rewrite row_at_set_row_eq by done. apply Hp; [|by apply H].
      intros k' Hk' _. by apply H.
    + rewrite row_at_set_row_ne by lia. by apply H.
  - intros H.
    assert (Hothers : forall k, 0 <= k < Z.of_nat (length rs) -> k <> i ->
                                satisfies x (row_at rs k)).
    { intros k Hk Hne. specialize (H k Hk).
      by rewrite row_at_set_row_ne in H by lia. }
    intros k Hk. destruct (decide (k = i)) as [->|Hne]; [|by apply Hothers].
    apply Hp; [done|]. specialize (H i Hi).
    by rewrite row_at_set_row_eq in H.
Qed.

Lemma same_solutions_swap rows d rs i j :
  ok rows d rs -> 0 <= i < rows -> 0 <= j < rows ->
  same_solutions rs (swap_rows_rows rs i j).
Proof.
  intros [Hlen _] Hi Hj x. unfold swap_rows_rows.
  rewrite !solution_rows, !length_set_row.
  assert (Hat : forall k, 0 <= k ->
            row_at (set_row (set_row rs i (row_at rs j)) j (row_at rs i)) k
            = if decide (k = j) then row_at rs i
              else if decide (k = i) then row_at rs j else row_at rs k).
  { intros k Hk. destruct (decide (k = j)) as [->|Hkj].
    - apply row_at_set_row_eq. rewrite length_set_row. lia.
    - rewrite row_at_set_row_ne by lia.
      destruct (decide (k = i)) as [->|Hki].
      + apply row_at_set_row_eq. lia.
      + apply row_at_set_row_ne; lia. }
  split.
  - intros H k Hk. rewrite Hat by lia.
    destruct (decide (k = j)); [apply H; lia|].
    destruct (decide (k = i)); apply H; lia.
  - intros H k Hk.
    destruct (decide (k = i)) as [->|Hki].
    + specialize (H j ltac:(lia)). rewrite Hat in H by lia.
      by destruct (decide (j = j)).
    + destruct (decide (k = j)) as [->|Hkj].
      * specialize (H i ltac:(lia)). rewrite Hat in H by lia.
        destruct (decide (i = j)); [lia|]. by destruct (decide (i = i)).
      * specialize (H k Hk). rewrite Hat in H by lia.
        destruct (decide (k = j)); [done|]. by destruct (decide (k = i)).
Qed.

Lemma same_solutions_scale rows d rs i c :
  ok rows d rs -> 0 <= i < rows -> c <> Q2Qc 0 ->
  same_solutions rs (set_row rs i (plane_scale (row_at rs i) c)).
Proof.
  intros [Hlen _] Hi Hc. apply same_solutions_set_row; [lia|].
  intros x _. by apply satisfies_scale.
Qed.

Lemma same_solutions_plus rows d rs i j c :
  ok rows d rs -> 0 <= i < rows -> 0 <= j < rows -> i <> j ->
  same_solutions rs
    (set_row rs j (plane_plus (row_at rs j) (plane_scale (row_at rs i) c))).
Proof.
  intros Hok Hi Hj Hne. pose proof Hok as [Hlen _].
  apply same_solutions_set_row; [lia|].
  intros x Hothers. apply satisfies_plus.
  - by rewrite (ok_row_at _ _ _ _ Hok Hi), (ok_row_at _ _ _ _ Hok Hj).
  - apply Hothers; lia.
Qed.

Lemma same_solutions_minus rows d rs i j c :
  ok rows d rs -> 0 <= i < rows -> 0 <= j < rows -> i <> j ->
  same_solutions rs
    (set_row rs j (plane_minus (row_at rs j) (plane_scale (row_at rs i) c))).
Proof.
  intros Hok Hi Hj Hne. pose proof Hok as [Hlen _].
  apply same_solutions_set_row; [lia|].
  intros x Hothers. apply satisfies_minus.
  - by rewrite (ok_row_at _ _ _ _ Hok Hi), (ok_row_at _ _ _ _ Hok Hj).
  - apply Hothers; lia.
Qed.



(** ** The number of rows *)

Lemma stable_ret {A} P (a : A) : stable P (ret a).
Proof. by intros h. Qed.

Lemma stable_raise {A} P e : stable P (@raise A e).
Proof. by intros h. Qed.

Lemma stable_bind {A B} P (m : M A) (k : A -> M B) :
  stable P m -> (forall a, stable P (k a)) -> stable P (bind m k).
Proof.
  intros Hm Hk h HP. unfold bind. specialize (Hm h HP).
  destruct (m h) as [h1 [a|e|]]; simpl in *; [by apply Hk|done|done].
Qed.

Lemma stable_try {A} P (body handler : M A) :
  stable P body -> stable P handler ->
  stable P (try_except_AssertionError body handler).
Proof.
  intros Hb Hh h HP. unfold try_except_AssertionError. specialize (Hb h HP).
  destruct (body h) as [h1 [a|[]|]]; simpl in *; try done. by apply Hh.
Qed.

Lemma stable_get_list P l : stable P (get_list l).
Proof. intros h HP. unfold get_list. by destruct (h !! l) as [[]|]. Qed.

Lemma stable_get_plane P l : stable P (get_plane l).
Proof. intros h HP. unfold get_plane. by destruct (h !! l) as [[]|]. Qed.

Lemma stable_list_getitem P lst i : stable P (list_getitem lst i).
Proof.
  unfold list_getitem. apply stable_bind; [apply stable_get_list|]. intros ls.
  destruct (py_index (length ls) i) as [k|]; [|apply stable_raise].
  destruct (ls !! k); [apply stable_ret|apply stable_raise].
Qed.

Lemma stable_dimension_of P l : stable P (dimension_of l).
Proof.
  unfold dimension_of. apply stable_bind; [apply stable_get_plane|].
  intros p. apply stable_ret.
Qed.

Lemma stable_alloc lst n o : stable (list_of_length lst n) (alloc o).
Proof.
  intros h (ls & Hl & Hn). exists ls. split; [|done].
  unfold alloc. simpl. by apply lookup_app_l_Some.
Qed.

Lemma stable_plane_mul lst n l c : stable (list_of_length lst n) (plane_mul l c).
Proof.
  unfold plane_mul. apply stable_bind; [apply stable_get_plane|]. intros p.
  apply stable_alloc.
Qed.

Lemma stable_plane_add lst n l1 l2 : stable (list_of_length lst n) (plane_add l1 l2).
Proof.
  unfold plane_add. apply stable_bind; [apply stable_get_plane|]. intros p.
  apply stable_bind; [apply stable_get_plane|]. intros q. apply stable_alloc.
Qed.

Lemma stable_list_setitem lst n lst' i v :
  stable (list_of_length lst n) (list_setitem lst' i v).
Proof.
  intros h (ls & Hl & Hn). unfold list_setitem, bind, get_list.
  destruct (h !! lst') as [[p|ls']|] eqn:E; simpl; [by exists ls| |by exists ls].
  destruct (py_index (length ls') i) as [k|]; simpl; [|by exists ls].
  destruct (decide (lst = lst')) as [->|Hne].
  - exists (<[k := v]> ls'). split.
    + apply list_lookup_insert_eq. by eapply lookup_lt_Some.
    + rewrite length_insert. congruence.
  - exists ls. split; [|done]. by rewrite list_lookup_insert_ne.
Qed.

Lemma run_len (h : heap) s ls :
  h !! planes s = Some (OList ls) -> __len__ s h = (h, Ret (Z.of_nat (length ls))).
Proof.
  intros Hl. unfold __len__, list_len.
  by erewrite run_bind_ret; [|by apply run_get_list].
Qed.

(** X9 — No method changes the number of equations.  Whatever the
    arguments and whatever the outcome (a normal return or an exception),
    [__len__] answers after [swap_rows], [multiply_coefficient_and_row],
    [add_multiple_times_row_to_row] and [__setitem__] what it answered
    before. *)
Theorem len_never_changes (h : heap) (s : LinearSystem) (ls : list loc) :
  h !! planes s = Some (OList ls) ->
  __len__ s h = (h, Ret (Z.of_nat (length ls)))
  /\ (forall i j, snd (__len__ s (fst (swap_rows s i j h)))
                  = Ret (Z.of_nat (length ls)))
  /\ (forall c row, snd (__len__ s (fst (multiply_coefficient_and_row s c row h)))
                    = Ret (Z.of_nat (length ls)))
  /\ (forall c i j, snd (__len__ s (fst (add_multiple_times_row_to_row s c i j h)))
                    = Ret (Z.of_nat (length ls)))
  /\ (forall i plane, snd (__len__ s (fst (__setitem__ s i plane h)))
                      = Ret (Z.of_nat (length ls))).
Proof.
  intros Hl.
  assert (HP : list_of_length (planes s) (length ls) h) by (by exists ls).
  assert (Hlen : forall (m : M unit), stable (list_of_length (planes s) (length ls)) m ->
            snd (__len__ s (fst (m h))) = Ret (Z.of_nat (length ls))).
  { intros m Hm. destruct (Hm h HP) as (ls' & Hl' & Hn).
    by rewrite (run_len _ _ _ Hl'), Hn. }
  split; [by apply run_len|]. split; [|split; [|split]].
  - intros i j. apply Hlen. unfold swap_rows.
    apply stable_bind; [apply stable_list_getitem|]. intros r1.
    apply stable_bind; [apply stable_list_getitem|]. intros r2.
    apply stable_bind; [apply stable_list_setitem|]. intros _.
    apply stable_list_setitem.
  - intros c row. apply Hlen. unfold multiply_coefficient_and_row.
    apply stable_bind; [apply stable_list_getitem|]. intros p.
    apply stable_bind; [apply stable_plane_mul|]. intros p'.
    apply stable_list_setitem.
  - intros c i j. apply Hlen. unfold add_multiple_times_row_to_row.
    apply stable_bind; [apply stable_list_getitem|]. intros p.
    apply stable_bind; [apply stable_plane_mul|]. intros p'.
    apply stable_bind; [apply stable_list_getitem|]. intros q.
    apply stable_bind; [apply stable_plane_add|]. intros q'.
    apply stable_list_setitem.
  - intros i plane. apply Hlen. unfold __setitem__.
    apply stable_try; [|apply stable_raise].
    apply stable_bind; [apply stable_dimension_of|]. intros d.
    apply stable_bind; [|intros _; apply stable_list_setitem].
    unfold py_assert. destruct (d =? dimension s); [apply stable_ret|apply stable_raise].
Qed.

Lemma len_never_changes_witness :
  __len__ (system_of scenario_system 3) (store_of scenario_system)
  = (store_of scenario_system, Ret 3)
  /\ snd (__len__ (system_of scenario_system 3)
            (fst (swap_rows (system_of scenario_system 3) 0 7
                    (store_of scenario_system))))
     = Ret 3.
Proof.
  destruct (len_never_changes (store_of scenario_system)
              (system_of scenario_system 3) [0%nat; 1%nat; 2%nat] eq_refl)
    as (H0 & Hswap & _).
  split; [exact H0|exact (Hswap 0 7)].
Defined.

(** ** [__getitem__] and [__setitem__] *)

(** X10 — After [__setitem__] has stored a plane of the system's dimension
    at an index inside the list, [__getitem__] with that index returns that
    very plane object, and with an index that names another row it returns
    what it returned before. *)
Theorem setitem_then_getitem (h : heap) (s : LinearSystem) (ls : list loc)
    (index : Z) (plane : loc) (p : Plane) (n : nat) :
  h !! planes s = Some (OList ls) ->
  is_plane h plane p ->
  plane_dimension p = dimension s ->
  py_index (length ls) index = Some n ->
  exists h',
    __setitem__ s index plane h = (h', Ret tt)
    /\ __getitem__ s index h' = (h', Ret plane)
    /\ forall j m, py_index (length ls) j = Some m -> m <> n ->
         snd (__getitem__ s j h') = snd (__getitem__ s j h).
Proof.
  intros Hl Hp Hd Hn.
  pose proof (lookup_lt_Some _ _ _ Hl) as Hlt.
  pose proof (py_index_lt _ _ _ Hn) as Hnlt.
  exists (<[planes s := OList (<[n := plane]> ls)]> h).
  assert (Hl' : <[planes s := OList (<[n := plane]> ls)]> h !! planes s
                = Some (OList (<[n := plane]> ls)))
    by (by apply list_lookup_insert_eq).
  split; [|split].
  - unfold __setitem__, try_except_AssertionError.
    erewrite run_bind_ret; [|by apply run_dimension_of].
    erewrite run_bind_ret; [|apply Z.eqb_eq in Hd; by rewrite Hd].
    by erewrite run_list_setitem.
  - unfold __getitem__.
    eapply run_list_getitem; [exact Hl'|by rewrite length_insert|].
    by apply list_lookup_insert_eq.
  - intros j m Hj Hne. unfold __getitem__.
    destruct (py_index_lookup ls _ _ Hj) as [x Hx].
    erewrite (run_list_getitem _ _ _ j m x Hl');
      [|by rewrite length_insert|by rewrite list_lookup_insert_ne].
    by erewrite (run_list_getitem h _ _ j m x Hl Hj Hx).
Qed.

Lemma setitem_then_getitem_witness :
  exists h',
    __setitem__ (system_of scenario_system 3) (-1) 0%nat (store_of scenario_system)
    = (h', Ret tt)
    /\ __getitem__ (system_of scenario_system 3) (-1) h' = (h', Ret 0%nat)
    /\ forall j m, py_index (length [0%nat; 1%nat; 2%nat]) j = Some m -> m <> 2%nat ->
         snd (__getitem__ (system_of scenario_system 3) j h')
         = snd (__getitem__ (system_of scenario_system 3) j (store_of scenario_system)).
Proof.
  apply (setitem_then_getitem (store_of scenario_system) (system_of scenario_system 3)
           [0%nat; 1%nat; 2%nat] (-1) 0%nat (plane_Z [1; 1; 1] 1) 2%nat);
    reflexivity.
Defined.

(** X11 — On a system of [n] rows [__len__] returns [n]; [__getitem__]
    with [0 <= i < n] returns the object of row [i], and so does the index
    [i - n] counted from the end; an index from [n] on or below [-n] raises
    [IndexError].  The store is the same after each of them. *)
Theorem len_and_getitem (h : heap) (s : LinearSystem) (rs : list Plane) :
  rows_in h (planes s) rs ->
  __len__ s h = (h, Ret (Z.of_nat (length rs)))
  /\ (forall i, 0 <= i < Z.of_nat (length rs) ->
        exists l, __getitem__ s i h = (h, Ret l)
          /\ is_plane h l (row_at rs i)
          /\ __getitem__ s (i - Z.of_nat (length rs)) h = (h, Ret l))
  /\ (forall i, Z.of_nat (length rs) <= i \/ i < - Z.of_nat (length rs) ->
        __getitem__ s i h = (h, Raise IndexError)).
Proof.
  intros (ls & Hl & Hf). pose proof (Forall2_length Hf) as Hlen.
  split; [|split].
  - rewrite <- Hlen. by apply run_len.
  - intros i Hi.
    assert (Hlt : (Z.to_nat i < length ls)%nat) by lia.
    destruct (lookup_lt_is_Some_2 ls _ Hlt) as [l Hx].
    destruct (Forall2_lookup_l _ _ _ _ _ Hf Hx) as (p & Hp & Hlp).
    rewrite (lookup_row_at rs i Hi) in Hp. injection Hp as <-.
    exists l. unfold __getitem__. split; [|split; [done|]].
    + eapply run_list_getitem; [done| |done]. apply py_index_in_range. lia.
    + eapply run_list_getitem; [done| |exact Hx].
      unfold py_index.
      replace (0 <=? i - Z.of_nat (length rs)) with false by lia.
      replace (- Z.of_nat (length ls) <=? i - Z.of_nat (length rs)) with true by lia.
      replace (i - Z.of_nat (length rs) <? 0) with true by lia.
      simpl. f_equal. lia.
  - intros i Hi. unfold __getitem__. eapply run_list_getitem_out; [done|].
    unfold py_index.
    destruct Hi as [Hi|Hi].
    + replace (i <? Z.of_nat (length ls)) with false by lia.
      replace (i <? 0) with false by lia. by rewrite !andb_false_r.
    + replace (0 <=? i) with false by lia.
      replace (- Z.of_nat (length ls) <=? i) with false by lia. done.
Qed.

Lemma len_and_getitem_witness :
  __len__ (system_of scenario_system 3) (store_of scenario_system)
  = (store_of scenario_system, Ret (Z.of_nat (length scenario_system)))
  /\ __getitem__ (system_of scenario_system 3) 3 (store_of scenario_system)
     = (store_of scenario_system, Raise IndexError).
Proof.
  destruct (len_and_getitem (store_of scenario_system) (system_of scenario_system 3)
              scenario_system sample_rows_in) as (Hlen & _ & Hout).
  split; [exact Hlen|]. apply Hout. left. simpl. lia.
Defined.

(** ** The two reducers on the system itself *)





(** ** What the loops of the triangular reducer keep *)

Section TriangularInvariant.
(** [J] is kept by a swap of a row [i >= lo] with a row below it and by
    adding a multiple of a row [i >= lo] to a row below it. *)
Variables (rows d lo : Z) (J : list Plane -> Prop).
Hypothesis J_swap : forall rs i j,
  ok rows d rs -> J rs -> lo <= i -> 0 <= i < j -> j < rows ->
  J (swap_rows_rows rs i j).
Hypothesis J_add : forall rs i j c,
  ok rows d rs -> J rs -> lo <= i -> 0 <= i < j -> j < rows ->
  J (set_row rs j (plane_plus (row_at rs j) (plane_scale (row_at rs i) c))).

Lemma swap_search_rows_keeps row dim rs :
  ok rows d rs -> J rs -> lo <= row -> 0 <= row < rows ->
  ok rows d (snd (swap_search_rows rows row dim rs))
  /\ J (snd (swap_search_rows rows row dim rs)).
Proof.
  intros Hok HJ Hlo Hrow. unfold swap_search_rows.
  pose (I := fun (x : Z) (s : bool * list Plane) =>
               row < x /\ ok rows d (snd s) /\ J (snd s)).
  assert (HI : I (Z.max (row + 1) (rows - 1))
                 (fold_left (fun s next_row => swap_search_step row dim next_row s)
                    (range (row + 1) (rows - 1)) (false, rs))).
  { apply (fold_left_range_inv I) with (n := Z.to_nat (rows - 1 - (row + 1)));
      [|reflexivity|].
    - intros x [swap st] Hx (Hrx & Hok1 & HJ1). cbn [fst snd] in *.
      unfold I, swap_search_step. cbn [fst snd].
      destruct (is_pos (coef st x dim)); cbn [fst snd].
      + split; [lia|]. split.
        * apply ok_swap_rows_rows; [done|lia|lia].
        * apply J_swap; [done|done|lia|lia|lia].
      + split; [lia|]. by split.
    - unfold I. cbn [fst snd]. split; [lia|]. by split. }
  by destruct HI as (_ & H1 & H2).
Qed.

Lemma clear_below_rows_keeps row dim c rs :
  ok rows d rs -> J rs -> lo <= row -> 0 <= row < rows ->
  ok rows d (clear_below_rows rows row dim c rs)
  /\ J (clear_below_rows rows row dim c rs).
Proof.
  intros Hok HJ Hlo Hrow. unfold clear_below_rows.
  pose (I := fun (x : Z) (st : list Plane) => row < x /\ ok rows d st /\ J st).
  assert (HI : I (Z.max (row + 1) rows)
                 (fold_left (fun rs next_row => clear_step row dim c next_row rs)
                    (range (row + 1) rows) rs)).
  { apply (fold_left_range_inv I) with (n := Z.to_nat (rows - (row + 1)));
      [|reflexivity|].
    - intros x st Hx (Hrx & Hok1 & HJ1). unfold I.
      split; [lia|]. split; [apply ok_clear_step; [done|lia|lia]|].
      unfold clear_step. destruct (negb (is_zero (coef st x dim))); [|done].
      apply J_add; [done|done|lia|lia|lia].
    - unfold I. split; [lia|]. by split. }
  by destruct HI as (_ & H1 & H2).
Qed.

Lemma triangular_body_rows_keeps row s :
  ok rows d (snd s) -> J (snd s) -> lo <= row -> 0 <= row < rows ->
  match triangular_body_rows rows row s with
  | Continue s' => ok rows d (snd s') /\ J (snd s')
  | Break s' => ok rows d (snd s') /\ J (snd s')
  end.
Proof.
  intros Hok HJ Hlo Hrow. unfold triangular_body_rows.
  destruct (is_zero (coef (snd s) row (fst s))).
  - pose proof (swap_search_rows_keeps row (fst s) (snd s) Hok HJ Hlo Hrow) as H.
    by destruct (negb (fst (swap_search_rows rows row (fst s) (snd s)))).
  - by apply clear_below_rows_keeps.
Qed.

Lemma triangular_while_keeps fuel row s s' :
  ok rows d (snd s) -> J (snd s) -> lo <= row -> 0 <= row < rows ->
  p_while fuel (fun s => fst s <? d) (triangular_body_rows rows row) s = Some s' ->
  ok rows d (snd s') /\ J (snd s').
Proof.
  intros Hok HJ Hlo Hrow Hp.
  apply (p_while_inv (fun s => ok rows d (snd s) /\ J (snd s))
           (fun s => fst s <? d) (triangular_body_rows rows row))
    with (fuel := fuel) (s := s); [|by split|exact Hp].
  intros s0 [Hok0 HJ0] _.
  pose proof (triangular_body_rows_keeps row s0 Hok0 HJ0 Hlo Hrow) as H.
  by destruct (triangular_body_rows rows row s0).
Qed.

Lemma triangular_for_keeps fuel a s s' :
  lo <= a -> 0 <= a ->
  ok rows d (snd s) -> J (snd s) ->
  p_for (range a (rows - 1))
    (fun row s =>
       p_while fuel (fun s => fst s <? d) (triangular_body_rows rows row) s) s
  = Some s' ->
  ok rows d (snd s') /\ J (snd s').
Proof.
  intros Hlo Ha Hok HJ Hp.
  pose (I := fun (x : Z) (s : Z * list Plane) =>
               a <= x /\ ok rows d (snd s) /\ J (snd s)).
  assert (HI : I (Z.max a (rows - 1)) s').
  { apply (p_for_range_inv I
             (fun row s =>
                p_while fuel (fun s => fst s <? d) (triangular_body_rows rows row) s)
             (rows - 1))
      with (n := Z.to_nat (rows - 1 - a)) (s := s); [|reflexivity| |exact Hp].
    - intros x s0 s1 Hx (Hax & Hok0 & HJ0) Hw. unfold I. split; [lia|].
      apply (triangular_while_keeps fuel x s0 s1); [done|done|lia|lia|done].
    - unfold I. split; [lia|]. by split. }
  by destruct HI as (_ & H1 & H2).
Qed.
End TriangularInvariant.

(** ** The reducers and the solutions of the system *)

Lemma compute_triangular_form_rows_solutions fuel d rs rs' :
  same_dimension d rs ->
  compute_triangular_form_rows fuel d rs = Some rs' ->
  same_solutions rs rs'.
Proof.
  intros Hd. unfold compute_triangular_form_rows, triangular_rows.
  destruct (p_for _ _ _) as [s'|] eqn:Hp; [|done]. intros [= <-].
  apply (triangular_for_keeps (Z.of_nat (length rs)) d 0 (same_solutions rs))
    with (fuel := fuel) (a := 0) (s := (0, rs)); [| |lia|lia|by split| |exact Hp].
  - intros rs1 i j Hok1 HJ Hlo Hij Hj.
    eapply same_solutions_trans; [exact HJ|].
    apply (same_solutions_swap _ _ _ _ _ Hok1); lia.
  - intros rs1 i j c Hok1 HJ Hlo Hij Hj.
    eapply same_solutions_trans; [exact HJ|].
    apply (same_solutions_plus _ _ _ _ _ _ Hok1); lia.
  - apply same_solutions_refl.
Qed.

Lemma inverse_nonzero (c : Qc) : c <> Q2Qc 0 -> (Qc_of_Z 1 / c)%Qc <> Q2Qc 0.
Proof.
  intros Hc H.
  assert (E : ((Qc_of_Z 1 / c) * c = Qc_of_Z 1)%Qc) by (by field).
  rewrite H in E. ring_simplify in E. discriminate E.
Qed.

Section RrefSolutions.
Variables (rows d : Z).

Lemma rref_cancel_rows_solutions row dim c rs :
  ok rows d rs -> 0 <= row < rows ->
  ok rows d (rref_cancel_rows rows row dim c rs)
  /\ same_solutions rs (rref_cancel_rows rows row dim c rs).
Proof.
  intros Hok Hrow. unfold rref_cancel_rows.
  pose (I := fun (x : Z) (st : list Plane) =>
               row <= x /\ ok rows d st /\ same_solutions rs st).
  assert (HI : I (Z.max row (rows - 1))
                 (fold_left (fun rs ri => rref_cancel_step row dim c ri rs)
                    (range row (rows - 1)) rs)).
  { apply (fold_left_range_inv I) with (n := Z.to_nat (rows - 1 - row));
      [|reflexivity|].
    - intros x st Hx (Hrx & Hok1 & HJ1). unfold I.
      split; [lia|]. split; [apply ok_rref_cancel_step; [done|lia|lia]|].
      unfold rref_cancel_step.
      destruct (negb (is_zero (round3 (coef st (x + 1) dim)))); [|done].
      eapply same_solutions_trans; [exact HJ1|].
      destruct (is_neg c).
      + apply (same_solutions_plus _ _ _ _ _ _ Hok1); lia.
      + apply (same_solutions_minus _ _ _ _ _ _ Hok1); lia.
    - unfold I. split; [lia|]. split; [done|]. apply same_solutions_refl. }
  by destruct HI as (_ & H1 & H2).
Qed.

Lemma rref_backward_rows_solutions fuel dims rs s' :
  ok rows d rs ->
  rref_backward_rows fuel rows dims rs = Some s' ->
  fst s' = dims /\ ok rows d (snd s') /\ same_solutions rs (snd s').
Proof.
  intros Hok Hp. unfold rref_backward_rows in Hp.
  pose (I := fun (x : Z) (s : Z * list Plane) =>
               x < rows /\ fst s = dims /\ ok rows d (snd s)
               /\ same_solutions rs (snd s)).
  assert (HI : I (Z.min (rows - 1) (-1)) s').
  { apply (p_for_range_down_inv I
             (fun row s =>
                match p_while fuel (fun s => -1 <? fst s) (rref_body_rows rows row) s with
                | Some s' => Some (dims, snd s')
                | None => None
                end) (-1))
      with (n := Z.to_nat (rows - 1 - -1)) (s := (dims, rs));
      [|reflexivity| |exact Hp].
    - intros x s0 s1 Hx (Hxr & _ & Hok0 & HJ0) Hw.
      destruct (p_while _ _ _ s0) as [s2|] eqn:Hw2; [|done].
      injection Hw as <-. unfold I. cbn [fst snd].
      split; [lia|]. split; [done|].
      apply (p_while_inv (fun s => ok rows d (snd s) /\ same_solutions rs (snd s))
               (fun s => -1 <? fst s) (rref_body_rows rows x))
        with (fuel := fuel) (s := s0); [|by split|exact Hw2].
      intros s3 [Hok3 HJ3] _. unfold rref_body_rows. cbn [fst snd].
      destruct (negb (is_zero (coef (snd s3) x (fst s3)))); [|by split].
      destruct (rref_cancel_rows_solutions x (fst s3) (coef (snd s3) x (fst s3))
                  (snd s3) Hok3 ltac:(lia)) as [H1 H2].
      split; [done|]. by eapply same_solutions_trans.
    - unfold I. cbn [fst snd]. split; [lia|]. split; [done|]. split; [done|].
      apply same_solutions_refl. }
  by destruct HI as (_ & H1 & H2 & H3).
Qed.

Lemma rref_normalise_rows_solutions fuel dim rs s' :
  ok rows d rs ->
  rref_normalise_rows fuel rows dim rs = Some s' ->
  ok rows d (snd s') /\ same_solutions rs (snd s').
Proof.
  intros Hok Hp. unfold rref_normalise_rows in Hp.
  pose (I := fun (x : Z) (s : Z * list Plane) =>
               x < rows /\ ok rows d (snd s) /\ same_solutions rs (snd s)).
  assert (HI : I (Z.min (rows - 1) (-1)) s').
  { apply (p_for_range_down_inv I
             (fun row s =>
                p_while fuel (fun s => -1 <? fst s) (normalise_body_rows row) s) (-1))
      with (n := Z.to_nat (rows - 1 - -1)) (s := (dim, rs));
      [|reflexivity| |exact Hp].
    - intros x s0 s1 Hx (Hxr & Hok0 & HJ0) Hw. unfold I.
      split; [lia|].
      apply (p_while_inv (fun s => ok rows d (snd s) /\ same_solutions rs (snd s))
               (fun s => -1 <? fst s) (normalise_body_rows x))
        with (fuel := fuel) (s := s0); [|by split|exact Hw].
      intros s3 [Hok3 HJ3] _. unfold normalise_body_rows. cbn [fst snd].
      destruct (is_zero (coef (snd s3) x (fst s3))) eqn:Ez; simpl; [by split|].
      apply is_zero_false in Ez. split.
      + apply ok_set_row; [done|]. rewrite plane_dimension_scale.
        apply (ok_row_at rows d); [done|lia].
      + eapply same_solutions_trans; [exact HJ3|].
        apply (same_solutions_scale rows d); [done|lia|].
        by apply inverse_nonzero.
    - unfold I. cbn [fst snd]. split; [lia|]. split; [done|].
      apply same_solutions_refl. }
  by destruct HI as (_ & H1 & H2).
Qed.
End RrefSolutions.

Lemma compute_rref_form_rows_solutions fuel d rs rs' :
  same_dimension d rs ->
  compute_rref_form_rows fuel d rs = Some rs' ->
  same_solutions rs rs'.
Proof.
  intros Hd. unfold compute_rref_form_rows.
  destruct (compute_triangular_form_rows fuel d rs) as [tri|] eqn:Ht; [|done].
  pose proof (compute_triangular_form_rows_solutions fuel d rs tri Hd Ht) as H1.
  assert (Hok : ok (Z.of_nat (length tri)) d tri).
  { unfold compute_triangular_form_rows, triangular_rows in Ht.
    destruct (p_for _ _ _) as [s'|] eqn:Hp; [|done]. injection Ht as <-.
    assert (Hs : ok (Z.of_nat (length rs)) d (snd s') /\ True).
    { apply (triangular_for_keeps (Z.of_nat (length rs)) d 0 (fun _ => True)
               (fun _ _ _ _ _ _ _ _ => I) (fun _ _ _ _ _ _ _ _ _ => I)
               fuel 0 (0, rs) s'); [lia|lia|by split|done|exact Hp]. }
    destruct Hs as [[Hl Hs] _]. split; [done|exact Hs]. }
  destruct (rref_backward_rows fuel _ (d - 1) tri) as [s|] eqn:Hb; [|done].
  destruct (rref_backward_rows_solutions _ d fuel (d - 1) tri s Hok Hb)
    as (_ & Hok2 & H2).
  destruct (rref_normalise_rows fuel _ (fst s) (snd s)) as [s'|] eqn:Hn; [|done].
  intros [= <-].
  assert (Hl2 : Z.of_nat (length (snd s)) = Z.of_nat (length tri)) by apply Hok2.
  rewrite Hl2 in Hn.
  destruct (rref_normalise_rows_solutions _ d fuel (fst s) (snd s) s' Hok2 Hn)
    as [_ H3].
  eapply same_solutions_trans; [exact H1|].
  eapply same_solutions_trans; [exact H2|exact H3].
Qed.

(** X13 — With exact rational coefficients ([fractions.Fraction]) both
    reducers return, and the systems that [compute_triangular_form] and
    [compute_rref_form] return have exactly the solutions of the receiver: a
    point satisfies every equation of the result if and only if it satisfies
    every equation of the system the method was called on. *)
Theorem reducers_keep_solutions_on_fractions (fuel : nat) (d : Z) (rs : list Plane) :
  same_dimension d rs ->
  d + 2 <= Z.of_nat fuel ->
  (exists rs',
     PyNum.compute_triangular_form fuel (fraction_system d rs)
     = PyNum.Ok (fraction_system d rs')
     /\ forall x, solution x rs' <-> solution x rs)
  /\ (exists rs',
        PyNum.compute_rref_form fuel (fraction_system d rs)
        = PyNum.Ok (fraction_system d rs')
        /\ forall x, solution x rs' <-> solution x rs).
Proof.
  intros Hdim Hfuel. split.
  - destruct (compute_triangular_form_rows_terminates fuel d rs Hdim Hfuel)
      as (rs' & Hrs' & _).
    destruct (compute_triangular_form_lifts fuel d rs rs' Hdim Hrs') as [Hrun _].
    exists rs'. split; [done|]. intros x.
    symmetry. by apply (compute_triangular_form_rows_solutions fuel d).
  - destruct (compute_rref_form_rows_terminates fuel d rs Hdim Hfuel)
      as (rs' & Hrs' & _).
    destruct (compute_rref_form_lifts fuel d rs rs' Hdim Hrs') as [Hrun _].
    exists rs'. split; [done|]. intros x.
    symmetry. by apply (compute_rref_form_rows_solutions fuel d).
Qed.

Lemma reducers_keep_solutions_on_fractions_witness :
  (exists rs',
     PyNum.compute_triangular_form 5 (fraction_system 3 scenario_system)
     = PyNum.Ok (fraction_system 3 rs')
     /\ forall x, solution x rs' <-> solution x scenario_system)
  /\ (exists rs',
        PyNum.compute_rref_form 5 (fraction_system 3 scenario_system)
        = PyNum.Ok (fraction_system 3 rs')
        /\ forall x, solution x rs' <-> solution x scenario_system).
Proof.
  apply (reducers_keep_solutions_on_fractions 5 3 scenario_system).
  - repeat constructor.
  - simpl. lia.
Defined.

(** ** The loops of [compute_triangular_form] *)

Lemma Qc_of_Z_1 : Qc_of_Z 1 = Q2Qc 1.
Proof. reflexivity. Qed.

Lemma Qc_of_Z_m1 : Qc_of_Z (-1) = (- Q2Qc 1)%Qc.
Proof. apply (bool_decide_unpack _). vm_compute. exact I. Qed.

Lemma coef_plus_scale rows d rs i j k c :
  ok rows d rs -> 0 <= i < rows -> 0 <= j < rows ->
  nth (Z.to_nat k)
    (normal_vector (plane_plus (row_at rs j) (plane_scale (row_at rs i) c))) (Q2Qc 0)
  = (coef rs j k + coef rs i k * c)%Qc.
Proof.
  intros Hok Hi Hj. rewrite nth_plane_plus.
  - by rewrite nth_plane_scale.
  - by rewrite plane_dimension_scale,
      (ok_row_at _ _ _ _ Hok Hi), (ok_row_at _ _ _ _ Hok Hj).
Qed.

Lemma row_at_swap_rows_rows rs i j k :
  0 <= i < Z.of_nat (length rs) -> 0 <= j < Z.of_nat (length rs) -> 0 <= k ->
  row_at (swap_rows_rows rs i j) k
  = if decide (k = j) then row_at rs i
    else if decide (k = i) then row_at rs j else row_at rs k.
Proof.
  intros Hi Hj Hk. unfold swap_rows_rows.
  destruct (decide (k = j)) as [->|Hkj].
  - apply row_at_set_row_eq. rewrite length_set_row. lia.
  - rewrite row_at_set_row_ne by lia.
    destruct (decide (k = i)) as [->|Hki].
    + apply row_at_set_row_eq. lia.
    + apply row_at_set_row_ne; lia.
Qed.

(** The rows below [row] end with a zero under the cursor. *)
Lemma clear_below_rows_clears rows d row dim rs :
  ok rows d rs -> 0 <= row < rows -> 0 <= dim ->
  coef rs row dim <> Q2Qc 0 ->
  (forall j, row < j < rows ->
     coef (clear_below_rows rows row dim (coef rs row dim) rs) j dim = Q2Qc 0)
  /\ (forall j, 0 <= j <= row ->
        row_at (clear_below_rows rows row dim (coef rs row dim) rs) j = row_at rs j).
Proof.
  intros Hok Hrow Hdim Hc. unfold clear_below_rows.
  set (c := coef rs row dim) in *.
  pose (I := fun (x : Z) (st : list Plane) =>
               row < x /\ ok rows d st
               /\ (forall j, 0 <= j <= row -> row_at st j = row_at rs j)
               /\ (forall j, row < j < x -> coef st j dim = Q2Qc 0)).
  assert (HI : I (Z.max (row + 1) rows)
                 (fold_left (fun rs next_row => clear_step row dim c next_row rs)
                    (range (row + 1) rows) rs)).
  { apply (fold_left_range_inv I) with (n := Z.to_nat (rows - (row + 1)));
      [|reflexivity|].
    - intros x st Hx (Hrx & Hok1 & Hkeep & Hzero). unfold I.
      split; [lia|]. split; [apply ok_clear_step; [done|lia|lia]|].
      pose proof Hok1 as [Hlen1 _].
      unfold clear_step. destruct (is_zero (coef st x dim)) eqn:Ez; simpl.
      + split; [done|]. intros j Hj.
        destruct (decide (j = x)) as [->|]; [by apply is_zero_true|].
        apply Hzero. lia.
      + split.
        * intros j Hj. rewrite row_at_set_row_ne by lia. by apply Hkeep.
        * intros j Hj. destruct (decide (j = x)) as [->|Hne].
          -- rewrite coef_set_row_eq by lia.
             rewrite (coef_plus_scale rows d) by (done || lia).
             assert (Hrowc : coef st row dim = c).
             { unfold coef. rewrite Hkeep by lia. done. }
             rewrite Hrowc, Qc_of_Z_m1. by field.
          -- rewrite coef_set_row_ne by lia. apply Hzero. lia.
    - unfold I. split; [lia|]. split; [done|]. split; [done|]. intros j Hj. lia. }
  destruct HI as (_ & _ & Hkeep & Hzero). split; [|done].
  intros j Hj. apply Hzero. lia.
Qed.

Lemma clear_below_rows_solutions rows d row dim c rs :
  ok rows d rs -> 0 <= row < rows ->
  same_solutions rs (clear_below_rows rows row dim c rs).
Proof.
  intros Hok Hrow.
  eapply proj2.
  apply (clear_below_rows_keeps rows d 0 (same_solutions rs)); [|done| |lia|done].
  - intros rs1 i j c' Hok1 HJ Hlo Hij Hj.
    eapply same_solutions_trans; [exact HJ|].
    apply (same_solutions_plus _ _ _ _ _ _ Hok1); lia.
  - apply same_solutions_refl.
Qed.

(** X14 — Lines 108-115 of [compute_triangular_form] with exact rational
    coefficients ([fractions.Fraction]): when the coefficient of the current
    row under the cursor is not zero, the loop over the rows below returns
    and leaves a zero under the cursor in every row below the current one.
    The current row and the rows above it are not touched, the rows keep
    their number and dimension, and the system keeps its solutions. *)
Theorem clear_below_clears_on_fractions (d : Z) (rs : list Plane) (row dim : Z) :
  same_dimension d rs ->
  0 <= row < Z.of_nat (length rs) ->
  0 <= dim < d ->
  coef rs row dim <> Q2Qc 0 ->
  exists rs',
    PyNum.clear_below (fraction_system d rs) (Z.of_nat (length rs)) row dim
      (PyNum.Fraction (coef rs row dim))
    = PyNum.Ok (fraction_system d rs')
    /\ ok (Z.of_nat (length rs)) d rs'
    /\ (forall j, row < j < Z.of_nat (length rs) -> coef rs' j dim = Q2Qc 0)
    /\ (forall j, 0 <= j <= row -> row_at rs' j = row_at rs j)
    /\ same_solutions rs rs'.
Proof.
  intros Hd Hrow Hdim Hc.
  assert (Hok : ok (Z.of_nat (length rs)) d rs) by (by split).
  destruct (clear_below_lifts (Z.of_nat (length rs)) d row dim (coef rs row dim) rs
              Hok Hrow Hdim) as [Hrun Hok']; [by apply is_zero_false|].
  destruct (clear_below_rows_clears _ _ row dim rs Hok Hrow ltac:(lia) Hc)
    as [Hzero Hkeep].
  eexists. split; [exact Hrun|]. split; [exact Hok'|]. split; [exact Hzero|].
  split; [exact Hkeep|]. by eapply clear_below_rows_solutions.
Qed.

Lemma clear_below_clears_on_fractions_witness :
  exists rs',
    PyNum.clear_below (fraction_system 3 scenario_system)
      (Z.of_nat (length scenario_system)) 0 0
      (PyNum.Fraction (coef scenario_system 0 0))
    = PyNum.Ok (fraction_system 3 rs')
    /\ ok (Z.of_nat (length scenario_system)) 3 rs'
    /\ (forall j, 0 < j < Z.of_nat (length scenario_system) -> coef rs' j 0 = Q2Qc 0)
    /\ (forall j, 0 <= j <= 0 -> row_at rs' j = row_at scenario_system j)
    /\ same_solutions scenario_system rs'.
Proof.
  apply (clear_below_clears_on_fractions 3 scenario_system 0 0).
  - repeat constructor.
  - simpl. lia.
  - lia.
  - apply (bool_decide_unpack _). vm_compute. exact I.
Defined.

Lemma swap_search_rows_none rows row dim rs :
  fst (swap_search_rows rows row dim rs) = false ->
  snd (swap_search_rows rows row dim rs) = rs.
Proof.
  unfold swap_search_rows.
  assert (H : forall xs s,
            (fst s = false -> snd s = rs) ->
            fst (fold_left (fun s nr => swap_search_step row dim nr s) xs s) = false ->
            snd (fold_left (fun s nr => swap_search_step row dim nr s) xs s) = rs).
  { induction xs as [|x xs IH]; intros s Hs; simpl; [done|].
    apply IH. unfold swap_search_step.
    destruct (is_pos (coef (snd s) x dim)); [done|exact Hs]. }
  by apply H.
Qed.

Lemma swap_search_rows_outside rows d row dim rs :
  ok rows d rs -> 0 <= row < rows ->
  forall k, 0 <= k -> k < row \/ rows - 1 <= k ->
    row_at (snd (swap_search_rows rows row dim rs)) k = row_at rs k.
Proof.
  intros Hok Hrow. unfold swap_search_rows.
  pose (I := fun (x : Z) (s : bool * list Plane) =>
               row < x /\ ok rows d (snd s)
               /\ forall k, 0 <= k -> k < row \/ rows - 1 <= k ->
                    row_at (snd s) k = row_at rs k).
  assert (HI : I (Z.max (row + 1) (rows - 1))
                 (fold_left (fun s next_row => swap_search_step row dim next_row s)
                    (range (row + 1) (rows - 1)) (false, rs))).
  { apply (fold_left_range_inv I) with (n := Z.to_nat (rows - 1 - (row + 1)));
      [|reflexivity|].
    - intros x [swap st] Hx (Hrx & Hok1 & Hout). cbn [fst snd] in *.
      unfold I, swap_search_step. cbn [fst snd]. pose proof Hok1 as [Hlen1 _].
      destruct (is_pos (coef st x dim)); cbn [fst snd].
      + split; [lia|]. split; [apply ok_swap_rows_rows; [done|lia|lia]|].
        intros k Hk Hko. rewrite row_at_swap_rows_rows by lia.
        destruct (decide (k = x)); [lia|]. destruct (decide (k = row)); [lia|].
        by apply Hout.
      + split; [lia|]. by split.
    - unfold I. cbn [fst snd]. split; [lia|]. by split. }
  by destruct HI as (_ & _ & H).
Qed.

(** X15 — Lines 99-103 of [compute_triangular_form]: the search for a row
    to swap in returns; it reports a swap exactly when some row strictly
    below the current one and before the last row has a positive
    coefficient under the cursor.  After a swap the current row has a
    positive coefficient under the cursor; without one the rows are as
    they were.  The rows above the current one and the last row are never
    moved. *)
Theorem swap_search_swaps_positive (h : heap) (t : LinearSystem) (rs : list Plane)
    (row dim : Z) :
  system_ok h t rs ->
  0 <= row < Z.of_nat (length rs) - 1 ->
  0 <= dim < dimension t ->
  exists h' swap rs',
    swap_search t (Z.of_nat (length rs)) row dim h = (h', Ret swap)
    /\ system_ok h' t rs'
    /\ (swap = true
        <-> exists x, row < x < Z.of_nat (length rs) - 1
                      /\ is_pos (coef rs x dim) = true)
    /\ (swap = true -> is_pos (coef rs' row dim) = true)
    /\ (swap = false -> rs' = rs)
    /\ (forall k, 0 <= k -> k < row \/ Z.of_nat (length rs) - 1 <= k ->
          row_at rs' k = row_at rs k).
Proof.
  intros Hsys Hrow Hdim. pose proof (system_ok_ok _ _ _ Hsys) as Hok.
  destruct Hsys as [Hrows Hd].
  destruct (refines_swap_search 0 t (Z.of_nat (length rs)) (dimension t) row dim rs
              Hok ltac:(lia) Hdim) as [Href Hok'].
  destruct (refines_run _ _ _ _ _ h Href Hrows) as (h' & Hrun & Hrows' & _).
  eexists h', _, _. split; [exact Hrun|]. split; [|split; [|split; [|split]]].
  - split; [done|]. apply Hok'.
  - by apply (swap_search_rows_takes_positive _ (dimension t)).
  - apply (swap_search_rows_found _ (dimension t)); [done|lia].
  - apply swap_search_rows_none.
  - apply (swap_search_rows_outside _ (dimension t)); [done|lia].
Qed.

Lemma swap_search_swaps_positive_witness :
  exists h' swap rs',
    swap_search (system_of negative_system 3) (Z.of_nat (length negative_system)) 0 0
      (store_of negative_system) = (h', Ret swap)
    /\ system_ok h' (system_of negative_system 3) rs'
    /\ (swap = true
        <-> exists x, 0 < x < Z.of_nat (length negative_system) - 1
                      /\ is_pos (coef negative_system x 0) = true)
    /\ (swap = true -> is_pos (coef rs' 0 0) = true)
    /\ (swap = false -> rs' = negative_system)
    /\ (forall k, 0 <= k -> k < 0 \/ Z.of_nat (length negative_system) - 1 <= k ->
          row_at rs' k = row_at negative_system k).
Proof.
  apply (swap_search_swaps_positive (store_of negative_system)
           (system_of negative_system 3) negative_system 0 0).
  - split.
    + exists [0%nat; 1%nat; 2%nat]. split; [reflexivity|]. repeat constructor.
    + repeat constructor.
  - simpl. lia.
  - simpl. lia.
Defined.

(** ** The first column of the triangular form *)

Lemma compute_triangular_form_rows_first_column fuel d rs rs' :
  same_dimension d rs ->
  coef rs 0 0 <> Q2Qc 0 ->
  compute_triangular_form_rows fuel d rs = Some rs' ->
  row_at rs' 0 = row_at rs 0
  /\ forall j, 1 <= j < Z.of_nat (length rs) -> coef rs' j 0 = Q2Qc 0.
Proof.
  intros Hd Hc. set (rows := Z.of_nat (length rs)).
  assert (Hok : ok rows d rs) by (by split).
  unfold compute_triangular_form_rows, triangular_rows. fold rows.
  destruct (p_for _ _ _) as [s'|] eqn:Hp; [|done]. intros [= <-].
  destruct (Z.le_gt_cases rows 1) as [Hsmall|Hbig].
  { rewrite range_nil in Hp by lia. injection Hp as <-. simpl.
    split; [done|]. intros j Hj. lia. }
  assert (Hdpos : 0 < d).
  { destruct (Z.lt_ge_cases 0 d) as [|Hle]; [done|]. exfalso. apply Hc.
    pose proof (ok_row_at rows d rs 0 Hok ltac:(lia)) as Hdim.
    unfold coef. apply nth_overflow. unfold plane_dimension in Hdim. lia. }
  rewrite range_cons in Hp by lia. simpl in Hp.
  destruct (p_while fuel _ _ (0, rs)) as [s1|] eqn:Hw; [|done].
  assert (Hs1 : s1 = (0, clear_below_rows rows 0 0 (coef rs 0 0) rs)).
  { destruct fuel as [|fuel]; [done|]. simpl in Hw.
    replace (0 <? d) with true in Hw by lia.
    unfold triangular_body_rows in Hw. simpl in Hw.
    apply is_zero_false in Hc. rewrite Hc in Hw. by injection Hw as <-. }
  destruct (clear_below_rows_clears rows d 0 0 rs Hok ltac:(lia) ltac:(lia) Hc)
    as [Hzero Hkeep].
  pose (J := fun st : list Plane =>
               row_at st 0 = row_at rs 0
               /\ forall j, 1 <= j < rows -> coef st j 0 = Q2Qc 0).
  assert (HJ : ok rows d (snd s') /\ J (snd s')).
  { apply (triangular_for_keeps rows d 1 J) with (fuel := fuel) (a := 0 + 1) (s := s1);
      [| |lia|lia| | |exact Hp].
    - intros st i j Hok1 [H0 Hz] Hlo Hij Hj. pose proof Hok1 as [Hlen1 _]. split.
      + rewrite row_at_swap_rows_rows by lia.
        destruct (decide (0 = j)); [lia|]. destruct (decide (0 = i)); [lia|done].
      + intros k Hk. unfold coef. rewrite row_at_swap_rows_rows by lia.
        destruct (decide (k = j)); [apply Hz; lia|].
        destruct (decide (k = i)); apply Hz; lia.
    - intros st i j c Hok1 [H0 Hz] Hlo Hij Hj. pose proof Hok1 as [Hlen1 _]. split.
      + rewrite row_at_set_row_ne by lia. done.
      + intros k Hk. destruct (decide (k = j)) as [->|Hne].
        * rewrite coef_set_row_eq by lia.
          rewrite (coef_plus_scale rows d) by (done || lia).
          rewrite (Hz j), (Hz i) by lia. ring.
        * rewrite coef_set_row_ne by lia. by apply Hz.
    - rewrite Hs1. simpl. apply ok_clear_below_rows; [done|lia].
    - rewrite Hs1. simpl. split; [apply Hkeep; lia|].
      intros j Hj. apply Hzero. lia. }
  by destruct HJ as [_ HJ].
Qed.

(** X16 — With exact rational coefficients ([fractions.Fraction]): when
    the first coefficient of the first row is not zero, the triangular form
    keeps the first row as it is and every row below it has first
    coefficient zero. *)
Theorem triangular_form_first_column_on_fractions (fuel : nat) (d : Z)
    (rs : list Plane) :
  same_dimension d rs ->
  d + 2 <= Z.of_nat fuel ->
  coef rs 0 0 <> Q2Qc 0 ->
  exists rs',
    PyNum.compute_triangular_form fuel (fraction_system d rs)
    = PyNum.Ok (fraction_system d rs')
    /\ row_at rs' 0 = row_at rs 0
    /\ forall j, 1 <= j < Z.of_nat (length rs) -> coef rs' j 0 = Q2Qc 0.
Proof.
  intros Hdim Hfuel Hc.
  destruct (compute_triangular_form_rows_terminates fuel d rs Hdim Hfuel)
    as (rs' & Hrs' & _).
  destruct (compute_triangular_form_lifts fuel d rs rs' Hdim Hrs') as [Hrun _].
  exists rs'. split; [done|].
  by apply (compute_triangular_form_rows_first_column fuel d).
Qed.

Lemma triangular_form_first_column_on_fractions_witness :
  exists rs',
    PyNum.compute_triangular_form 5 (fraction_system 3 scenario_system)
    = PyNum.Ok (fraction_system 3 rs')
    /\ row_at rs' 0 = row_at scenario_system 0
    /\ forall j, 1 <= j < Z.of_nat (length scenario_system) -> coef rs' j 0 = Q2Qc 0.
Proof.
  apply (triangular_form_first_column_on_fractions 5 3 scenario_system).
  - repeat constructor.
  - simpl. lia.
  - apply (bool_decide_unpack _). vm_compute. exact I.
Defined.

(** ** The normalization pass of [compute_rref_form] *)

Lemma p_for_while_skipped {S} fuel (cond : S -> bool) (body : Z -> S -> ctl S)
    xs s s' :
  cond s = false ->
  p_for xs (fun row s => p_while fuel cond (body row) s) s = Some s' -> s' = s.
Proof.
  intros Hc. destruct fuel as [|fuel].
  - destruct xs; simpl; [by intros [= <-]|done].
  - induction xs as [|x xs IH]; simpl; [by intros [= <-]|].
    rewrite Hc. exact IH.
Qed.

Lemma coef_overflow rows d rs i c :
  ok rows d rs -> 0 <= i < rows -> d <= c -> coef rs i c = Q2Qc 0.
Proof.
  intros Hok Hi Hc. pose proof (ok_row_at rows d rs i Hok Hi) as Hdim.
  unfold coef. apply nth_overflow. unfold plane_dimension in Hdim. lia.
Qed.

(** One run of the cursor loop from the last column: the row is divided by
    its leading coefficient. *)
Lemma normalise_while_leading rows d fuel row rs s' :
  ok rows d rs -> 0 <= row < rows ->
  p_while fuel (fun s => -1 <? fst s) (normalise_body_rows row) (d - 1, rs) = Some s' ->
  (-1 <? fst s') = false
  /\ exists f,
       f <> Q2Qc 0
       /\ snd s' = set_row rs row (plane_scale (row_at rs row) f)
       /\ (forall k, lead rs row k -> f = (Q2Qc 1 / coef rs row k)%Qc)
       /\ ((forall c, 0 <= c -> coef rs row c = Q2Qc 0) -> f = Q2Qc 1).
Proof.
  intros Hok Hrow Hp. pose proof Hok as [Hlen _].
  pose proof (ok_dimension_nonneg rows d row rs Hok Hrow) as Hd.
  pose (Inv := fun s : Z * list Plane =>
    -1 <= fst s < d
    /\ exists f,
         f <> Q2Qc 0
         /\ snd s = set_row rs row (plane_scale (row_at rs row) f)
         /\ ((f = Q2Qc 1 /\ forall c, fst s < c < d -> coef rs row c = Q2Qc 0)
             \/ exists m, fst s < m < d
                  /\ coef rs row m <> Q2Qc 0
                  /\ f = (Q2Qc 1 / coef rs row m)%Qc
                  /\ forall c, fst s < c < m -> coef rs row c = Q2Qc 0)).
  assert (Hexit : (-1 <? fst s') = false).
  { eapply (p_while_exit (fun s : Z * list Plane => -1 <? fst s)); [|exact Hp].
    intros s. unfold normalise_body_rows. eauto. }
  assert (HI : Inv s').
  { apply (p_while_inv Inv (fun s => -1 <? fst s) (normalise_body_rows row))
      with (fuel := fuel) (s := (d - 1, rs)); [| |exact Hp].
    - intros [dim st] (Hdim & f & Hf & Hst & Hcase) Hcond. cbn [fst snd] in *.
      apply Z.ltb_lt in Hcond.
      unfold normalise_body_rows, Inv. cbn [fst snd].
      assert (Hcoef : coef st row dim = (coef rs row dim * f)%Qc).
      { rewrite Hst, coef_set_row_eq by lia. by rewrite nth_plane_scale. }
      split; [lia|].
      destruct (is_zero (coef st row dim)) eqn:Ez; cbn [negb].
      + apply is_zero_true in Ez. rewrite Hcoef in Ez.
        assert (Hz : coef rs row dim = Q2Qc 0).
        { replace (coef rs row dim) with (coef rs row dim * f / f)%Qc by (by field).
          rewrite Ez. by field. }
        exists f. split; [done|]. split; [done|].
        destruct Hcase as [[Hone Hzero]|(m & Hm & Hnz & Hfm & Hzero)].
        * left. split; [done|]. intros c Hc.
          destruct (decide (c = dim)) as [->|]; [done|]. apply Hzero. lia.
        * right. exists m. split; [lia|]. split; [done|]. split; [done|].
          intros c Hc. destruct (decide (c = dim)) as [->|]; [done|].
          apply Hzero. lia.
      + apply is_zero_false in Ez. rewrite Hcoef in Ez.
        assert (Hnz : coef rs row dim <> Q2Qc 0).
        { intros H0. apply Ez. rewrite H0. ring. }
        exists (Q2Qc 1 / coef rs row dim)%Qc.
        split; [rewrite <- Qc_of_Z_1; by apply inverse_nonzero|]. split.
        * rewrite Hcoef, Hst, row_at_set_row_eq by lia.
          rewrite set_row_set_row, plane_scale_scale, Qc_of_Z_1.
          do 2 f_equal. by field.
        * right. exists dim. split; [lia|]. split; [done|]. split; [done|].
          intros c Hc. lia.
    - unfold Inv. cbn [fst snd]. split; [lia|]. exists (Q2Qc 1).
      split; [done|]. split.
      + rewrite plane_scale_1. symmetry. apply set_row_same. lia.
      + left. split; [done|]. intros c Hc. lia. }
  destruct HI as (Hdim & f & Hf & Hst & Hcase).
  split; [exact Hexit|]. apply Z.ltb_ge in Hexit.
  exists f. split; [done|]. split; [done|]. split.
  - intros k Hk. pose proof Hk as (Hk0 & Hknz & Hkz).
    destruct Hcase as [[Hone Hzero]|(m & Hm & Hnz & Hfm & Hzero)].
    + exfalso. apply Hknz. destruct (Z.lt_ge_cases k d).
      * apply Hzero. lia.
      * by apply (coef_overflow rows d).
    + assert (Hlead : lead rs row m).
      { split; [lia|]. split; [done|]. intros c Hc. apply Hzero. lia. }
      by rewrite (lead_unique rs row k m Hk Hlead).
  - intros Hall.
    destruct Hcase as [[Hone Hzero]|(m & Hm & Hnz & Hfm & Hzero)]; [done|].
    exfalso. apply Hnz, Hall. lia.
Qed.

(** The whole pass: only the first row it visits, the last one, has the
    cursor inside the row. *)
Lemma rref_normalise_rows_last rows d fuel rs s' :
  ok rows d rs -> 1 <= rows ->
  rref_normalise_rows fuel rows (d - 1) rs = Some s' ->
  exists f,
    f <> Q2Qc 0
    /\ snd s' = set_row rs (rows - 1) (plane_scale (row_at rs (rows - 1)) f)
    /\ (forall k, lead rs (rows - 1) k -> f = (Q2Qc 1 / coef rs (rows - 1) k)%Qc)
    /\ ((forall c, 0 <= c -> coef rs (rows - 1) c = Q2Qc 0) -> f = Q2Qc 1).
Proof.
  intros Hok Hrows Hp. unfold rref_normalise_rows in Hp.
  rewrite range_down_cons in Hp by lia. simpl in Hp.
  destruct (p_while fuel _ _ (d - 1, rs)) as [s1|] eqn:Hw; [|done].
  destruct (normalise_while_leading rows d fuel (rows - 1) rs s1 Hok ltac:(lia) Hw)
    as (Hexit & f & Hf & Hst & Hlead & Hzero).
  apply (p_for_while_skipped fuel (fun s : Z * list Plane => -1 <? fst s)
           normalise_body_rows) in Hp; [|done].
  subst s'. by exists f.
Qed.

Lemma lead_scale rs rs' i f k :
  f <> Q2Qc 0 ->
  (forall c, coef rs' i c = (coef rs i c * f)%Qc) ->
  lead rs' i k -> lead rs i k.
Proof.
  intros Hf Hc (Hk & Hnz & Hz). split; [done|]. split.
  - intros H0. apply Hnz. rewrite Hc, H0. ring.
  - intros c Hcl. specialize (Hz c Hcl). rewrite Hc in Hz.
    replace (coef rs i c) with (coef rs i c * f / f)%Qc by (by field).
    rewrite Hz. by field.
Qed.

(** X17 — Lines 134-174 of [compute_rref_form] with exact rational
    coefficients ([fractions.Fraction]): the loop of lines 134-163 leaves
    the cursor on the last column, and the normalization pass of lines
    166-174, entered with the cursor there, returns and changes the last row
    only.  A last row with a nonzero coefficient is divided by its leading
    coefficient, which becomes 1; an all-zero last row stays.  Every row
    above the last one is left as it was, whatever its leading
    coefficient. *)
Theorem rref_normalise_scales_last_row_on_fractions (fuel : nat) (d : Z)
    (rs : list Plane) :
  same_dimension d rs ->
  1 <= Z.of_nat (length rs) ->
  d + 1 <= Z.of_nat fuel ->
  (exists s1,
     PyNum.rref_backward fuel (fraction_system d rs) (Z.of_nat (length rs)) (d - 1)
     = PyNum.Ok s1
     /\ fst s1 = d - 1)
  /\ exists dim' rs',
    PyNum.rref_normalise fuel (fraction_system d rs) (Z.of_nat (length rs)) (d - 1)
    = PyNum.Ok (dim', fraction_system d rs')
    /\ ok (Z.of_nat (length rs)) d rs'
    /\ (forall j, 0 <= j < Z.of_nat (length rs) - 1 -> row_at rs' j = row_at rs j)
    /\ (forall k, lead rs (Z.of_nat (length rs) - 1) k ->
          row_at rs' (Z.of_nat (length rs) - 1)
          = plane_scale (row_at rs (Z.of_nat (length rs) - 1))
              (Q2Qc 1 / coef rs (Z.of_nat (length rs) - 1) k)%Qc
          /\ coef rs' (Z.of_nat (length rs) - 1) k = Q2Qc 1)
    /\ ((forall c, 0 <= c -> coef rs (Z.of_nat (length rs) - 1) c = Q2Qc 0) ->
        rs' = rs).
Proof.
  intros Hd Hrows Hfuel.
  set (rows := Z.of_nat (length rs)) in *.
  assert (Hok : ok rows d rs) by (by split).
  split.
  { destruct (rref_backward_rows_terminates rows d fuel rs Hok Hfuel)
      as (s1 & Hb & _).
    destruct (rref_backward_lifts rows d fuel rs s1 Hok Hb) as [Hrun _].
    exists (fraction_state d s1). split; [done|]. simpl.
    by destruct (rref_backward_rows_solutions rows d fuel (d - 1) rs _ Hok Hb)
      as (Hcur & _). }
  destruct (rref_normalise_rows_terminates rows d fuel (d - 1) rs Hok ltac:(lia) Hfuel)
    as ([dim' rs'] & Hp & Hok' & _).
  destruct (rref_normalise_lifts rows d fuel (d - 1) rs (dim', rs') Hok
              ltac:(lia) Hp) as [Hrun _].
  destruct (rref_normalise_rows_last rows d fuel rs (dim', rs') Hok Hrows Hp)
    as (f & Hf & Hst & Hlead & Hzero).
  cbn [fst snd] in *.
  exists dim', rs'. split; [done|]. split; [|split; [|split]].
  - exact Hok'.
  - intros j Hj. rewrite Hst. apply row_at_set_row_ne; lia.
  - intros k Hk. rewrite <- (Hlead k Hk). split.
    + rewrite Hst. apply row_at_set_row_eq. lia.
    + rewrite Hst, coef_set_row_eq by lia. rewrite nth_plane_scale.
      fold (coef rs (rows - 1) k). rewrite (Hlead k Hk).
      destruct Hk as (_ & Hnz & _). by field.
  - intros Hall. rewrite Hst, (Hzero Hall), plane_scale_1.
    apply set_row_same. lia.
Qed.

Lemma rref_normalise_scales_last_row_on_fractions_witness :
  (exists s1,
     PyNum.rref_backward 5 (fraction_system 3 diagonal_system)
       (Z.of_nat (length diagonal_system)) (3 - 1)
     = PyNum.Ok s1
     /\ fst s1 = 3 - 1)
  /\ exists dim' rs',
    PyNum.rref_normalise 5 (fraction_system 3 diagonal_system)
      (Z.of_nat (length diagonal_system)) (3 - 1)
    = PyNum.Ok (dim', fraction_system 3 rs')
    /\ ok (Z.of_nat (length diagonal_system)) 3 rs'
    /\ (forall j, 0 <= j < Z.of_nat (length diagonal_system) - 1 ->
          row_at rs' j = row_at diagonal_system j)
    /\ (forall k, lead diagonal_system (Z.of_nat (length diagonal_system) - 1) k ->
          row_at rs' (Z.of_nat (length diagonal_system) - 1)
          = plane_scale (row_at diagonal_system (Z.of_nat (length diagonal_system) - 1))
              (Q2Qc 1 / coef diagonal_system (Z.of_nat (length diagonal_system) - 1) k)%Qc
          /\ coef rs' (Z.of_nat (length diagonal_system) - 1) k = Q2Qc 1)
    /\ ((forall c, 0 <= c ->
           coef diagonal_system (Z.of_nat (length diagonal_system) - 1) c = Q2Qc 0) ->
        rs' = diagonal_system).
Proof.
  apply (rref_normalise_scales_last_row_on_fractions 5 3 diagonal_system).
  - repeat constructor.
  - simpl. lia.
  - simpl. lia.
Defined.

Lemma compute_triangular_form_rows_ok fuel d rs tri :
  same_dimension d rs ->
  compute_triangular_form_rows fuel d rs = Some tri ->
  ok (Z.of_nat (length rs)) d tri.
Proof.
  intros Hd Ht. unfold compute_triangular_form_rows, triangular_rows in Ht.
  destruct (p_for _ _ _) as [s'|] eqn:Hp; [|done]. injection Ht as <-.
  eapply proj1.
  apply (triangular_for_keeps (Z.of_nat (length rs)) d 0 (fun _ => True)
           (fun _ _ _ _ _ _ _ _ => I) (fun _ _ _ _ _ _ _ _ _ => I)
           fuel 0 (0, rs) s'); [lia|lia|by split|done|exact Hp].
Qed.

Lemma compute_rref_form_rows_last_row fuel d rs rs' :
  same_dimension d rs ->
  compute_rref_form_rows fuel d rs = Some rs' ->
  forall k, lead rs' (Z.of_nat (length rs) - 1) k ->
            coef rs' (Z.of_nat (length rs) - 1) k = Q2Qc 1.
Proof.
  intros Hd. unfold compute_rref_form_rows.
  destruct (compute_triangular_form_rows fuel d rs) as [tri|] eqn:Ht; [|done].
  pose proof (compute_triangular_form_rows_ok fuel d rs tri Hd Ht) as Hok.
  pose proof Hok as [Hlen _]. rewrite Hlen.
  set (rows := Z.of_nat (length rs)) in *.
  destruct (rref_backward_rows fuel rows (d - 1) tri) as [s|] eqn:Hb; [|done].
  destruct (rref_backward_rows_solutions rows d fuel (d - 1) tri s Hok Hb)
    as (Hcur & Hok2 & _).
  pose proof Hok2 as [Hlen2 _]. rewrite Hlen2, Hcur.
  destruct (rref_normalise_rows fuel rows (d - 1) (snd s)) as [s'|] eqn:Hn; [|done].
  intros [= <-] k Hk.
  destruct (rref_normalise_rows_solutions rows d fuel (d - 1) (snd s) s' Hok2 Hn)
    as [Hok3 _].
  destruct (Z.le_gt_cases 1 rows) as [Hrows|Hrows].
  - destruct (rref_normalise_rows_last rows d fuel (snd s) s' Hok2 Hrows Hn)
      as (f & Hf & Hst & Hlead & _).
    assert (Hc : forall c, coef (snd s') (rows - 1) c
                           = (coef (snd s) (rows - 1) c * f)%Qc).
    { intros c. rewrite Hst, coef_set_row_eq by lia. by rewrite nth_plane_scale. }
    pose proof (lead_scale (snd s) (snd s') (rows - 1) f k Hf Hc Hk) as Hk'.
    rewrite Hc, (Hlead k Hk'). destruct Hk' as (_ & Hnz & _). by field.
  - exfalso. destruct Hk as (_ & Hnz & _). apply Hnz.
    destruct Hok3 as [Hlen3 _].
    assert (Hnil : snd s' = []) by (apply nil_length_inv; lia).
    unfold coef, row_at. rewrite Hnil. simpl.
    by destruct (Z.to_nat (rows - 1)), (Z.to_nat k).
Qed.

(** X18 — With exact rational coefficients ([fractions.Fraction]): in
    the system [compute_rref_form] returns, the leading coefficient of the
    last row is 1 whenever the last row has a nonzero coefficient. *)
Theorem rref_form_last_row_leading_one_on_fractions (fuel : nat) (d : Z)
    (rs : list Plane) :
  same_dimension d rs ->
  d + 2 <= Z.of_nat fuel ->
  exists rs',
    PyNum.compute_rref_form fuel (fraction_system d rs)
    = PyNum.Ok (fraction_system d rs')
    /\ forall k, lead rs' (Z.of_nat (length rs) - 1) k ->
                 coef rs' (Z.of_nat (length rs) - 1) k = Q2Qc 1.
Proof.
  intros Hdim Hfuel.
  destruct (compute_rref_form_rows_terminates fuel d rs Hdim Hfuel)
    as (rs' & Hrs' & _).
  destruct (compute_rref_form_lifts fuel d rs rs' Hdim Hrs') as [Hrun _].
  exists rs'. split; [done|].
  by apply (compute_rref_form_rows_last_row fuel d).
Qed.

Lemma rref_form_last_row_leading_one_on_fractions_witness :
  exists rs',
    PyNum.compute_rref_form 5 (fraction_system 3 scenario_system)
    = PyNum.Ok (fraction_system 3 rs')
    /\ forall k, lead rs' (Z.of_nat (length scenario_system) - 1) k ->
                 coef rs' (Z.of_nat (length scenario_system) - 1) k = Q2Qc 1.
Proof.
  apply (rref_form_last_row_leading_one_on_fractions 5 3 scenario_system).
  - repeat constructor.
  - simpl. lia.
Defined.

(** ** Row operations on an index outside the system *)

(** X19 — [multiply_coefficient_and_row] with a row index outside the
    list raises [IndexError] and leaves the store as it was, and so does
    [add_multiple_times_row_to_row] when the index of the row to add is
    outside.  When only the index of the target row is outside,
    [add_multiple_times_row_to_row] raises [IndexError] after the multiple
    has been built: the objects of the store are all as they were and the
    system has the rows it had. *)
Theorem row_operations_index_error (h : heap) (s : LinearSystem) (rs : list Plane)
    (c : Qc) :
  rows_in h (planes s) rs ->
  (forall row, py_index (length rs) row = None ->
     multiply_coefficient_and_row s c row h = (h, Raise IndexError))
  /\ (forall a b, py_index (length rs) a = None ->
        add_multiple_times_row_to_row s c a b h = (h, Raise IndexError))
  /\ (forall a b n, py_index (length rs) a = Some n ->
        py_index (length rs) b = None ->
        exists h', add_multiple_times_row_to_row s c a b h = (h', Raise IndexError)
          /\ take (length h) h' = h
          /\ rows_in h' (planes s) rs).
Proof.
  intros Hrows. pose proof Hrows as (ls & Hl & Hf).
  pose proof (Forall2_length Hf) as Hlen. rewrite <- Hlen.
  split; [|split].
  - intros row Hrow. unfold multiply_coefficient_and_row.
    erewrite run_bind_raise; [done|]. by eapply run_list_getitem_out.
  - intros a b Ha. unfold add_multiple_times_row_to_row.
    erewrite run_bind_raise; [done|]. by eapply run_list_getitem_out.
  - intros a b n Ha Hb.
    destruct (py_index_lookup ls _ _ Ha) as [l Hx].
    destruct (Forall2_lookup_l _ _ _ _ _ Hf Hx) as (p & Hp & Hlp).
    exists (h ++ [OPlane (plane_scale p c)]).
    assert (Hfr : take (length h) (h ++ [OPlane (plane_scale p c)]) = h)
      by apply take_app_length.
    split; [|split; [done|by eapply rows_in_frame]].
    unfold add_multiple_times_row_to_row.
    erewrite run_bind_ret; [|by eapply run_list_getitem].
    erewrite run_bind_ret;
      [|unfold plane_mul; erewrite run_bind_ret;
          [reflexivity|unfold get_plane; by rewrite Hlp]].
    erewrite run_bind_raise; [done|].
    eapply run_list_getitem_out; [|exact Hb]. by apply lookup_app_l_Some.
Qed.

Lemma row_operations_index_error_witness :
  multiply_coefficient_and_row (system_of scenario_system 3) (Qc_of_Z 2) 3
    (store_of scenario_system) = (store_of scenario_system, Raise IndexError)
  /\ add_multiple_times_row_to_row (system_of scenario_system 3) (Qc_of_Z 2) (-4) 0
       (store_of scenario_system) = (store_of scenario_system, Raise IndexError)
  /\ exists h',
       add_multiple_times_row_to_row (system_of scenario_system 3) (Qc_of_Z 2) 0 3
         (store_of scenario_system) = (h', Raise IndexError)
       /\ take (length (store_of scenario_system)) h' = store_of scenario_system
       /\ rows_in h' (planes (system_of scenario_system 3)) scenario_system.
Proof.
  destruct (row_operations_index_error (store_of scenario_system)
              (system_of scenario_system 3) scenario_system (Qc_of_Z 2)
              sample_rows_in) as (Hmul & Hadd & Htarget).
  split; [exact (Hmul 3 eq_refl)|]. split; [exact (Hadd (-4) 0 eq_refl)|].
  exact (Htarget 0 3 0%nat eq_refl eq_refl).
Defined.

(** ** The triangular form of a reduced system *)

(** X20 — On a system whose rows are in reduced row-echelon form
    [compute_triangular_form] returns a system of the same dimension whose
    rows are equal to the rows it was given: no swap is made and nothing is
    cleared. *)
Theorem triangular_form_of_reduced (fuel : nat) (h : heap) (s : LinearSystem)
    (rs : list Plane) :
  system_ok h s rs ->
  is_rref rs = true ->
  dimension s + 2 <= Z.of_nat fuel ->
  exists h' t, compute_triangular_form fuel s h = (h', Ret t)
    /\ dimension t = dimension s
    /\ rows_in h' (planes t) rs.
Proof.
  intros Hsys Hr Hfuel. pose proof (system_ok_ok _ _ _ Hsys) as Hok.
  pose proof (is_rref_facts _ _ _ Hok Hr) as Hfacts.
  pose proof (compute_triangular_form_rows_reduced _ _ _ Hfacts fuel Hfuel) as Hrows.
  destruct (wp_run _ _ _ (wp_compute_triangular_form fuel h s rs rs Hsys Hrows))
    as (h' & t & Hrun & Hd & Hw & _).
  exists h', t. split; [done|]. split; [done|]. by eapply work_rows_in.
Qed.

Lemma triangular_form_of_reduced_witness :
  exists h' t,
    compute_triangular_form 5 (system_of reduced_system 3) (store_of reduced_system)
    = (h', Ret t)
    /\ dimension t = dimension (system_of reduced_system 3)
    /\ rows_in h' (planes t) reduced_system.
Proof.
  apply (triangular_form_of_reduced 5 (store_of reduced_system)
           (system_of reduced_system 3) reduced_system).
  - split.
    + exists [0%nat; 1%nat; 2%nat]. split; [reflexivity|]. repeat constructor.
    + repeat constructor.
  - vm_compute. reflexivity.
  - simpl. lia.
Defined.

(** ** [__str__] *)

Lemma str_loop plane_str (h : heap) ls rs :
  Forall2 (is_plane h) ls rs ->
  forall k acc,
    for_each (combine (seq k (length ls)) ls)
      (fun ip temp =>
         let* p := get_plane (snd ip) in
         ret (temp ++ [equation_line plane_str (fst ip) p]))
      acc h
    = (h, Ret (acc ++ imap (fun i p => equation_line plane_str (k + i) p) rs)).
Proof.
  induction 1 as [|l p ls rs Hp Hf IH]; intros k acc; simpl.
  - by rewrite app_nil_r.
  - erewrite run_bind_ret;
      [|erewrite run_bind_ret; [reflexivity|unfold get_plane; by rewrite Hp]].
    simpl. rewrite IH, <- app_assoc. simpl.
    rewrite Nat.add_0_r. do 4 f_equal.
    apply imap_ext. intros i q _. simpl. f_equal. lia.
Qed.

(** X21 — [__str__] on a system whose list holds planes returns, without
    changing the store, the header line followed by one line per row, in
    the order of the rows; the line of row [i] (counted from 0) is
    [Equation], the number [i + 1], a colon and the text of the row.  Lines
    are separated by a newline, and for a system without rows the result is
    the header followed by a newline. *)
Theorem str_lines (plane_str : Plane -> string) (h : heap) (s : LinearSystem)
    (rs : list Plane) :
  rows_in h (planes s) rs ->
  __str__ plane_str s h
  = (h, Ret (String.append (String.append "Linear System:" newline)
               (join newline (imap (equation_line plane_str) rs))))
  /\ (rs = [] ->
      __str__ plane_str s h = (h, Ret (String.append "Linear System:" newline))).
Proof.
  intros (ls & Hl & Hf).
  assert (Hrun : __str__ plane_str s h
                 = (h, Ret (String.append (String.append "Linear System:" newline)
                              (join newline (imap (equation_line plane_str) rs))))).
  { unfold __str__, enumerate.
    erewrite run_bind_ret; [|by apply run_get_list].
    erewrite run_bind_ret; [|by apply (str_loop plane_str h ls rs Hf 0%nat [])].
    done. }
  split; [exact Hrun|]. intros ->. rewrite Hrun. reflexivity.
Qed.

Lemma str_lines_witness :
  __str__ (fun _ => "p"%string) (system_of scenario_system 3) (store_of scenario_system)
  = (store_of scenario_system,
     Ret (String.append (String.append "Linear System:" newline)
            (join newline
               ["Equation 1: p"%string; "Equation 2: p"%string;
                "Equation 3: p"%string]))).
Proof.
  exact (proj1 (str_lines (fun _ => "p"%string) (store_of scenario_system)
                  (system_of scenario_system 3) scenario_system sample_rows_in)).
Defined.

(** ** The reducers on [int] coefficients *)

(** X22 — With [int] coefficients the clearing loop of
    [compute_triangular_form] need not leave a zero.  On [49x + 7y = 1],
    [x + y = 1] the factor is [(1 / 49) * -1], a rounded float, and the
    second row of the triangular form has first coefficient
    [1 + 49 * factor = 2^-53], which is not zero; the first row is
    untouched. *)
Theorem triangular_form_residue_on_ints :
  exists t,
    PyNum.compute_triangular_form 4
      (PyNum.mkSystem [PyNum.plane_int [49; 7] 1; PyNum.plane_int [1; 1] 1] 2)
    = PyNum.Ok t
    /\ PyNum.getitem (PyNum.planes t) 0 = PyNum.Ok (PyNum.plane_int [49; 7] 1)
    /\ PyNum.coefficient_at t 1 0
       = PyNum.Ok (PyNum.Float (PyNum.float_of_quotient 1 (2 ^ 53)))
    /\ PyNum.eq_0 (PyNum.Float (PyNum.float_of_quotient 1 (2 ^ 53))) = false.
Proof.
  eexists. split; [vm_compute; reflexivity|].
  repeat split; vm_compute; reflexivity.
Qed.

(** X23 — With [int] coefficients the normalization pass of
    [compute_rref_form] need not reach 1.  On the one-row system
    [49x = 1] the row is multiplied by the rounded float [1 / 49], and the
    leading coefficient of the result is [49 * (1 / 49) = 1 - 2^-53], the
    largest float below 1. *)
Theorem rref_form_leading_coefficient_on_ints :
  exists r,
    PyNum.compute_rref_form 3 (PyNum.mkSystem [PyNum.plane_int [49] 1] 1)
    = PyNum.Ok r
    /\ PyNum.coefficient_at r 0 0
       = PyNum.Ok (PyNum.Float (PyNum.float_of_quotient (2 ^ 53 - 1) (2 ^ 53)))
    /\ PrimFloat.eqb (PyNum.float_of_quotient (2 ^ 53 - 1) (2 ^ 53))
         (PyNum.float_of_Z 1) = false
    /\ PrimFloat.ltb (PyNum.float_of_quotient (2 ^ 53 - 1) (2 ^ 53))
         (PyNum.float_of_Z 1) = true.
Proof.
  eexists. split; [vm_compute; reflexivity|].
  repeat split; vm_compute; reflexivity.
Qed.

